(** * Publisher/publishGames.py: the CSV-to-Firestore reconciler

    A shallow embedding of [Publisher/publishGames.py] and a verification of
    the properties its specification states about it, followed by further
    properties of the code: where its exceptions come from, what a commit
    keeps, what the structure pass stores, and what the rewritten games file
    and the output hold.

    Conventions of the embedding.
    - A Python [str] is a [string] whose characters are read as the code
      points U+0000..U+00FF.
    - A Python [float] is an IEEE 754 binary64 number, a [spec_float] with
      precision 53 and maximal exponent 1024.
    - The interpreter is CPython 3.11 or later with its default limit of
      4300 digits on the conversion of a [str] to an [int].
    - A Python [dict] with string keys is a [gmap string _]; [d.get(k)] is
      the lookup with default [None], [d[k]] raises [KeyError] on a missing
      key.
    - A row is what [csv.DictReader] yields for a line that has one field per
      column of the header: every value is a [str].  Lines with fewer or more
      fields than the header are outside the model.
    - The Firestore database is a record of its three collections; a write
      batch is the list of the writes in the order they were added, and
      [commit] applies them in that order, all or nothing.  It fails exactly
      when an update finds no document.  Document ids are opaque strings.
    - A document field holds [None], a string, an integer, a float, an array,
      a document reference or a timestamp; booleans, maps, bytes and geo
      points are outside the model.
    - The script's effects (the batch, the ids Firestore assigns, what is
      printed, exceptions) are threaded through a state-and-exception monad. *)

From Stdlib Require Import ZArith String Ascii List Bool Lia.
From Corelib Require Import SpecFloat.
From stdpp Require Import base option list gmap strings.

Open Scope string_scope.
Open Scope list_scope.

Set Warnings "-register-all".

(** ** Python strings *)

Module PyStr.

Definition code (a : ascii) : nat := nat_of_ascii a.

(** [str.isspace] on one character, for code points below 256. *)
Definition is_space (a : ascii) : bool :=
  let n := code a in
  (((9 <=? n) && (n <=? 13)) || ((28 <=? n) && (n <=? 32))
   || (n =? 133) || (n =? 160))%nat.

(** ['0' <= a <= '9']: the decimal digits below 256. *)
Definition is_decimal (a : ascii) : bool :=
  let n := code a in ((48 <=? n) && (n <=? 57))%nat.

(** [str.isdigit] on one character: the decimal digits and the superscript
    digits U+00B2, U+00B3 and U+00B9. *)
Definition is_digit_char (a : ascii) : bool :=
  let n := code a in
  is_decimal a || ((n =? 178) || (n =? 179) || (n =? 185))%nat.

Definition digit_val (a : ascii) : Z := Z.of_nat (code a) - 48.

Fixpoint forall_chars (p : ascii -> bool) (s : string) : bool :=
  match s with
  | EmptyString => true
  | String a s' => p a && forall_chars p s'
  end.

Definition is_empty (s : string) : bool :=
  match s with EmptyString => true | _ => false end.

(** Truth value of a [str]: false exactly for the empty string. *)
Definition truthy (s : string) : bool := negb (is_empty s).

(** [s.isdigit()]: non-empty and every character is a digit. *)
Definition isdigit (s : string) : bool :=
  truthy s && forall_chars is_digit_char s.

Fixpoint lstrip (s : string) : string :=
  match s with
  | EmptyString => EmptyString
  | String a s' => if is_space a then lstrip s' else s
  end.

Fixpoint rstrip (s : string) : string :=
  match s with
  | EmptyString => EmptyString
  | String a s' =>
      let r := rstrip s' in
      if is_space a && is_empty r then EmptyString else String a r
  end.

(** [s.strip()] *)
Definition strip (s : string) : string := rstrip (lstrip s).

(** [s.split(c)] for a one-character separator: every occurrence splits,
    empty pieces are kept. *)
Fixpoint split (c : ascii) (s : string) : list string :=
  match s with
  | EmptyString => [EmptyString]
  | String a s' =>
      if Ascii.eqb a c then EmptyString :: split c s'
      else match split c s' with
           | [] => [String a EmptyString]
           | w :: ws => String a w :: ws
           end
  end.

Definition lower (a : ascii) : ascii :=
  let n := code a in
  if ((65 <=? n) && (n <=? 90))%nat then ascii_of_nat (n + 32) else a.

Fixpoint lowercase (s : string) : string :=
  match s with
  | EmptyString => EmptyString
  | String a s' => String (lower a) (lowercase s')
  end.

End PyStr.

(** ** Python numbers: [int(...)] and [float(...)] of a string *)

Module PyNum.
Import PyStr.

Definition float := spec_float.

Definition prec : Z := 53.
Definition emax : Z := 1024.

(** Value of a string of decimal digits, most significant first. *)
Fixpoint digits_value (acc : Z) (s : string) : Z :=
  match s with
  | EmptyString => acc
  | String a s' => digits_value (10 * acc + digit_val a) s'
  end.

(** The longest string of digits [int] converts: the default of
    [sys.int_max_str_digits]. *)
Definition max_str_digits : nat := 4300.

(** [int(s)] for an [s] that passed [s.isdigit()]: the superscript digits
    are digits for [isdigit] but not for [int], which raises [ValueError]
    ([None] here); so it does on more than [max_str_digits] digits, leading
    zeros counted. *)
Definition int_of_digits (s : string) : option Z :=
  if forall_chars is_decimal s then
    if (String.length s <=? max_str_digits)%nat
    then Some (digits_value 0 s)
    else None
  else None.

(** [digitpart ::= digit (["_"] digit)*]: reads the longest digit part at
    the head of [s]; returns its digits (underscores removed) and the rest.
    The digits are empty when [s] does not start with a digit. *)
Fixpoint digitpart_from (after_digit : bool) (s : string)
  : string * string :=
  match s with
  | EmptyString => (EmptyString, EmptyString)
  | String a s' =>
      if is_decimal a then
        let '(ds, rest) := digitpart_from true s' in (String a ds, rest)
      else if after_digit && Ascii.eqb a "_" then
        match s' with
        | String b _ =>
            if is_decimal b then digitpart_from false s'
            else (EmptyString, s)
        | EmptyString => (EmptyString, s)
        end
      else (EmptyString, s)
  end.

Definition digitpart (s : string) : option (string * string) :=
  match digitpart_from false s with
  | (EmptyString, _) => None
  | r => Some r
  end.

Definition opt_sign (s : string) : bool * string :=
  match s with
  | String "-" s' => (true, s')
  | String "+" s' => (false, s')
  | _ => (false, s)
  end.

(** [number ::= [digitpart] "." digitpart | digitpart ["."]]: the integer
    digits, the fraction digits and the rest. *)
Definition number (s : string) : option (string * string * string) :=
  match digitpart s with
  | Some (ip, String "." rest) =>
      match digitpart rest with
      | Some (fp, rest') => Some (ip, fp, rest')
      | None => Some (ip, EmptyString, rest)
      end
  | Some (ip, rest) => Some (ip, EmptyString, rest)
  | None =>
      match s with
      | String "." rest =>
          match digitpart rest with
          | Some (fp, rest') => Some (EmptyString, fp, rest')
          | None => None
          end
      | _ => None
      end
  end.

(** [exponent ::= ("e" | "E") [sign] digitpart], optional. *)
Definition exponent (s : string) : option (Z * string) :=
  match s with
  | EmptyString => Some (0%Z, EmptyString)
  | String a s' =>
      if Ascii.eqb (lower a) "e" then
        let '(neg, s'') := opt_sign s' in
        match digitpart s'' with
        | Some (ds, rest) =>
            let e := digits_value 0 ds in
            Some (if neg then (- e)%Z else e, rest)
        | None => None
        end
      else None
  end.

(** The binary64 number nearest to [m * 10^e] (ties to even), for [m > 0]. *)
Definition round_decimal (neg : bool) (m : positive) (e : Z) : float :=
  match e with
  | Zneg k =>
      SFdiv prec emax (S754_finite neg m 0)
        (S754_finite false (Pos.pow 10 k) 0)
  | _ => binary_round prec emax neg (m * Z.to_pos (10 ^ e)) 0
  end.

Definition float_of_decimal (neg : bool) (ip fp : string) (e : Z) : float :=
  match digits_value 0 (ip ++ fp)%string with
  | Zpos m => round_decimal neg m (e - Z.of_nat (String.length fp))
  | _ => S754_zero neg
  end.

(** The whitespace [float] ignores around a number: the ASCII white space
    and, as it turns them into spaces beforehand, U+0085 and U+00A0; unlike
    [str.strip] it keeps the separators U+001C..U+001F. *)
Definition is_float_space (a : ascii) : bool :=
  let n := code a in
  (((9 <=? n) && (n <=? 13)) || (n =? 32) || (n =? 133) || (n =? 160))%nat.

Fixpoint float_lstrip (s : string) : string :=
  match s with
  | EmptyString => EmptyString
  | String a s' => if is_float_space a then float_lstrip s' else s
  end.

Fixpoint float_rstrip (s : string) : string :=
  match s with
  | EmptyString => EmptyString
  | String a s' =>
      let r := float_rstrip s' in
      if is_float_space a && is_empty r then EmptyString else String a r
  end.

Definition float_strip (s : string) : string := float_rstrip (float_lstrip s).

(** [float(s)] of a string: surrounding whitespace is ignored; then an
    optional sign followed by [inf], [infinity] or [nan] in any case, or by
    a decimal number with an optional exponent.  [None] is [ValueError]. *)
Definition float_of_string (s : string) : option float :=
  let '(neg, body) := opt_sign (float_strip s) in
  let low := lowercase body in
  if String.eqb low "inf" || String.eqb low "infinity" then
    Some (S754_infinity neg)
  else if String.eqb low "nan" then Some S754_nan
  else
    match number body with
    | Some (ip, fp, rest) =>
        match exponent rest with
        | Some (e, EmptyString) => Some (float_of_decimal neg ip fp e)
        | _ => None
        end
    | None => None
    end.

(** Python's [==] on two floats: numeric, so a NaN differs from itself and
    the two zeros are equal. *)
Definition float_eq (x y : float) : bool := SFeqb x y.

(** Python's [==] between an [int] and a [float]: exact. *)
Definition int_float_eq (z : Z) (x : float) : bool :=
  match x with
  | S754_zero _ => Z.eqb z 0
  | S754_finite s m e =>
      let v := if s then Zneg m else Zpos m in
      match e with
      | Zneg k =>
          Z.eqb (v mod Zpos (Pos.pow 2 k)) 0
          && Z.eqb z (v / Zpos (Pos.pow 2 k))
      | _ => Z.eqb z (v * 2 ^ e)
      end
  | _ => false
  end.

Definition is_nan (x : float) : bool :=
  match x with S754_nan => true | _ => false end.

End PyNum.

(** ** Firestore: values, documents, the database and write batches *)

Module Firestore.
Import PyNum.

(** A document reference: the three kinds of path the script builds,
    [games/<id>], [gameModes/<gm>] and [gameModes/<gm>/levels/<lvl>]. *)
Inductive docref :=
| GameRef (id : string)
| GameModeRef (gm : string)
| LevelRef (gm lvl : string).

(** The values a document field or a Python variable of the script holds.
    [ServerTimestamp] and [ArrayUnion] are the sentinels a write carries;
    the server replaces them when it applies the write. *)
Inductive value :=
| VNone
| VStr (s : string)
| VInt (z : Z)
| VFloat (f : float)
| VList (l : list value)
| VRef (r : docref)
| VTime (t : Z)
| ServerTimestamp
| ArrayUnion (l : list value).

(** A document's fields; also the Python [dict] the script builds for it. *)
Abbreviation doc := (gmap string value).

Definition docref_eqb (a b : docref) : bool :=
  match a, b with
  | GameRef x, GameRef y => String.eqb x y
  | GameModeRef x, GameModeRef y => String.eqb x y
  | LevelRef g l, LevelRef g' l' => String.eqb g g' && String.eqb l l'
  | _, _ => false
  end.

Definition float_same (x y : float) : bool :=
  match x, y with
  | S754_zero a, S754_zero b => Bool.eqb a b
  | S754_infinity a, S754_infinity b => Bool.eqb a b
  | S754_nan, S754_nan => true
  | S754_finite a m e, S754_finite b m' e' =>
      Bool.eqb a b && Pos.eqb m m' && Z.eqb e e'
  | _, _ => false
  end.

(** Python's [x == y]. *)
Fixpoint py_eq (x y : value) : bool :=
  match x, y with
  | VNone, VNone => true
  | VStr a, VStr b => String.eqb a b
  | VInt a, VInt b => Z.eqb a b
  | VFloat a, VFloat b => float_eq a b
  | VInt a, VFloat b => int_float_eq a b
  | VFloat a, VInt b => int_float_eq b a
  | VList a, VList b =>
      (fix all2 (a b : list value) : bool :=
         match a, b with
         | [], [] => true
         | u :: a', v :: b' => py_eq u v && all2 a' b'
         | _, _ => false
         end) a b
  | VRef a, VRef b => docref_eqb a b
  | VTime a, VTime b => Z.eqb a b
  | ServerTimestamp, ServerTimestamp => true
  | ArrayUnion a, ArrayUnion b =>
      (fix all2 (a b : list value) : bool :=
         match a, b with
         | [], [] => true
         | u :: a', v :: b' => py_eq u v && all2 a' b'
         | _, _ => false
         end) a b
  | _, _ => false
  end.

(** Python's [x != y]. *)
Definition py_ne (x y : value) : bool := negb (py_eq x y).

(** Identity of two stored values, the test [ArrayUnion] uses to decide
    whether an element is already in the array. *)
Fixpoint value_eqb (x y : value) : bool :=
  match x, y with
  | VNone, VNone => true
  | VStr a, VStr b => String.eqb a b
  | VInt a, VInt b => Z.eqb a b
  | VFloat a, VFloat b => float_same a b
  | VList a, VList b =>
      (fix all2 (a b : list value) : bool :=
         match a, b with
         | [], [] => true
         | u :: a', v :: b' => value_eqb u v && all2 a' b'
         | _, _ => false
         end) a b
  | VRef a, VRef b => docref_eqb a b
  | VTime a, VTime b => Z.eqb a b
  | ServerTimestamp, ServerTimestamp => true
  | ArrayUnion a, ArrayUnion b =>
      (fix all2 (a b : list value) : bool :=
         match a, b with
         | [], [] => true
         | u :: a', v :: b' => value_eqb u v && all2 a' b'
         | _, _ => false
         end) a b
  | _, _ => false
  end.

(** [d.get(k)]: the value under [k], [None] when the key is missing. *)
Definition dict_get (d : doc) (k : string) : value := default VNone (d !! k).

(** The database: the [games] and [gameModes] collections and the [levels]
    subcollections, the latter keyed by game mode and level. *)
Record store := Store {
  games : gmap string doc;
  gameModes : gmap string doc;
  levels : gmap (string * string) doc
}.

(** [ref.get()]: [None] when the document does not exist. *)
Definition get_doc (db : store) (r : docref) : option doc :=
  match r with
  | GameRef id => games db !! id
  | GameModeRef gm => gameModes db !! gm
  | LevelRef gm lvl => levels db !! (gm, lvl)
  end.

(** [ref.get().exists] *)
Definition doc_exists (db : store) (r : docref) : bool :=
  bool_decide (is_Some (get_doc db r)).

Definition put_doc (db : store) (r : docref) (d : doc) : store :=
  match r with
  | GameRef id => Store (<[id := d]> (games db)) (gameModes db) (levels db)
  | GameModeRef gm =>
      Store (games db) (<[gm := d]> (gameModes db)) (levels db)
  | LevelRef gm lvl =>
      Store (games db) (gameModes db) (<[(gm, lvl) := d]> (levels db))
  end.

(** The array [old] with each element of [xs] that it does not hold yet
    appended, in order. *)
Definition array_union (old xs : list value) : list value :=
  fold_left
    (fun acc x => if existsb (value_eqb x) acc then acc else (acc ++ [x])%list)
    xs old.

(** What the server stores for a written field: the commit time [now] for
    the timestamp sentinel, the union with the array the field held (the
    empty array when it held none) for [ArrayUnion]. *)
Definition resolve (now : Z) (old : option value) (v : value) : value :=
  match v with
  | ServerTimestamp => VTime now
  | ArrayUnion xs =>
      VList (array_union (match old with Some (VList l) => l | _ => [] end) xs)
  | _ => v
  end.

Definition resolve_fields (now : Z) (old : doc) (d : doc) : doc :=
  map_imap (fun k v => Some (resolve now (old !! k) v)) d.

(** One write of a batch: [batch.set(ref, data)] replaces the document,
    [batch.update(ref, data)] overwrites the given fields of a document
    that must exist. *)
Inductive write :=
| WSet (r : docref) (d : doc)
| WUpdate (r : docref) (d : doc).

Definition write_ref (w : write) : docref :=
  match w with WSet r _ | WUpdate r _ => r end.

Definition write_data (w : write) : doc :=
  match w with WSet _ d | WUpdate _ d => d end.

(** Applying one write; [None] when an update finds no document. *)
Definition apply_write (now : Z) (db : store) (w : write) : option store :=
  match w with
  | WSet r d => Some (put_doc db r (resolve_fields now ∅ d))
  | WUpdate r d =>
      match get_doc db r with
      | Some old => Some (put_doc db r (resolve_fields now old d ∪ old))
      | None => None
      end
  end.

(** [batch.commit()]: the writes in order, all or nothing. *)
Fixpoint commit (now : Z) (batch : list write) (db : store) : option store :=
  match batch with
  | [] => Some db
  | w :: ws =>
      match apply_write now db w with
      | Some db' => commit now ws db'
      | None => None
      end
  end.

End Firestore.

(** ** Exceptions and effects of the script *)

(** The exceptions the script can raise: [KeyError] from [d[k]],
    [ValueError] from [float(...)], [int(...)] and the CSV writer, and the
    failure of [batch.commit()]. *)
Inductive exn :=
| KeyError (k : string)
| ValueError
| CommitFailed.

Inductive result (A : Type) :=
| Ok (a : A)
| Raise (e : exn).
Arguments Ok {A} a.
Arguments Raise {A} e.

Definition rbind {A B} (r : result A) (k : A -> result B) : result B :=
  match r with
  | Ok a => k a
  | Raise e => Raise e
  end.

(** A row of a CSV file as [csv.DictReader] yields it for a line that has
    one field per column of the header: a [dict] from the column names to
    the fields, all of them [str]. *)
Abbreviation row := (gmap string string).

(** What the script prints. *)
Inductive message :=
| WarnGamesEmpty
| WarnStructureEmpty
| CreatingGameMode (game_mode_id : string)
| CreatingLevel (level_id game_mode_id : string)
| NewGameCreated (id : string)
| GameUpdated (game_id : string)
| NoChangesDetected (game_id : string)
| GameNotFound (game_id : string)
| MissingField (key : string) (game : row)
| AllCommitted.

(** The state a run threads: how many ids Firestore has generated for it,
    the batch (oldest write first) and the output (oldest line first). *)
Record world := World {
  generated : nat;
  batch : list Firestore.write;
  printed : list message
}.

Definition M (A : Type) : Type := world -> result A * world.

Definition ret {A} (a : A) : M A := fun w => (Ok a, w).

Definition raise {A} (e : exn) : M A := fun w => (Raise e, w).

Definition bind {A B} (m : M A) (k : A -> M B) : M B :=
  fun w =>
    match m w with
    | (Ok a, w') => k a w'
    | (Raise e, w') => (Raise e, w')
    end.

Definition lift {A} (r : result A) : M A := fun w => (r, w).

(** [try: m except KeyError as e: h e] *)
Definition try_except_KeyError {A} (m : M A) (h : string -> M A) : M A :=
  fun w =>
    match m w with
    | (Raise (KeyError k), w') => h k w'
    | r => r
    end.

Declare Scope py_scope.
Delimit Scope py_scope with py.
Notation "x <- m ;; k" := (bind m (fun x => k))
  (at level 100, m at next level, right associativity) : py_scope.
Notation "m ;; k" := (bind m (fun _ => k))
  (at level 100, right associativity) : py_scope.
Notation "x <~ r ;; k" := (rbind r (fun x => k))
  (at level 100, r at next level, right associativity) : py_scope.
Open Scope py_scope.

Definition print (m : message) : M unit :=
  fun w => (Ok tt, World (generated w) (batch w) (printed w ++ [m])%list).

Definition batch_add (wr : Firestore.write) : M unit :=
  fun w => (Ok tt, World (generated w) (batch w ++ [wr])%list (printed w)).

(** [d[k]] *)
Definition getitem (d : row) (k : string) : result string :=
  match d !! k with
  | Some v => Ok v
  | None => Raise (KeyError k)
  end.

(** [d.get(k)] on a row, as a value. *)
Definition row_get (d : row) (k : string) : Firestore.value :=
  match d !! k with
  | Some v => Firestore.VStr v
  | None => Firestore.VNone
  end.

(** ** The functions of [publishGames.py] *)

Section Publisher.
Import Firestore.

(** The id Firestore generates at the [n]-th call of
    [db.collection('games').document()] of a run. *)
Variable auto_id : nat -> string.

Definition batch_set (r : docref) (d : doc) : M unit := batch_add (WSet r d).
Definition batch_update (r : docref) (d : doc) : M unit :=
  batch_add (WUpdate r d).

(** [db.collection('games').document()]: a reference with a fresh id. *)
Definition new_game_document : M string :=
  fun w =>
    (Ok (auto_id (generated w)),
     World (S (generated w)) (batch w) (printed w)).

(** The file [write_csv] leaves on disk: the header and the rows given to
    the [DictWriter], in order. *)
Record csv_file := CsvFile {
  fieldnames : gset string;
  records : list row
}.

(** [write_csv(filepath, data, fieldnames)]: the [DictWriter] raises
    [ValueError] on a row that has a key outside [fieldnames]. *)
Definition write_csv (data : list row) (names : gset string)
  : result csv_file :=
  if forallb (fun r : row => bool_decide (dom r ⊆ names)) data
  then Ok (CsvFile names data)
  else Raise ValueError.

(** [fetch_existing_games(db)]: every document of [games], by id. *)
Definition fetch_existing_games (db : store) : gmap string doc := games db.

Definition keys_to_check : list string :=
  ["description"; "instructions"; "timeLimit"; "gameModeId"; "levelId";
   "letterPosition"; "targetLetter"; "answerBank"].

(** [has_game_changed(existing_game, new_game_data)] *)
Definition has_game_changed (existing_game new_game_data : doc) : bool :=
  existsb
    (fun key => py_ne (dict_get existing_game key) (dict_get new_game_data key))
    keys_to_check.

(** [float(s)], raising [ValueError]. *)
Definition py_float (s : string) : result value :=
  match PyNum.float_of_string s with
  | Some x => Ok (VFloat x)
  | None => Raise ValueError
  end.

(** [int(s)], raising [ValueError]. *)
Definition py_int (s : string) : result value :=
  match PyNum.int_of_digits s with
  | Some z => Ok (VInt z)
  | None => Raise ValueError
  end.

(** The conditional expression under ['timeLimit']. *)
Definition time_limit_of (time_limit : string) : result value :=
  if PyStr.truthy time_limit then py_float time_limit else Ok VNone.

(** The conditional expression under ['answerBank']. *)
Definition answer_bank_of (answer_bank : string) : value :=
  if PyStr.truthy answer_bank
  then VList (map (fun ans => VStr (PyStr.strip ans))
                (PyStr.split "," answer_bank))
  else VNone.

(** The [dict] literal that [build_game_data] returns. *)
Definition game_dict (name description instructions timeLimit gameModeId
    levelId letterPosition targetLetter answerBank : value) : doc :=
  <["name" := name]>
  (<["description" := description]>
  (<["instructions" := instructions]>
  (<["timeLimit" := timeLimit]>
  (<["gameModeId" := gameModeId]>
  (<["levelId" := levelId]>
  (<["letterPosition" := letterPosition]>
  (<["targetLetter" := targetLetter]>
  (<["answerBank" := answerBank]> ∅)))))))).

(** [build_game_data(game, game_mode_id, level_id)] *)
Definition build_game_data (game : row) (game_mode_id level_id : string)
  : result doc :=
  name <~ getitem game "name";;
  let description := row_get game "description" in
  instructions <~ getitem game "instructions";;
  time_limit <~ getitem game "timeLimit";;
  timeLimit <~ time_limit_of time_limit;;
  let letterPosition := row_get game "letterPosition" in
  let targetLetter := row_get game "targetLetter" in
  answer_bank <~ getitem game "answerBank";;
  let answerBank := answer_bank_of answer_bank in
  Ok (game_dict (VStr name) description (VStr instructions) timeLimit
        (VStr game_mode_id) (VStr level_id) letterPosition targetLetter
        answerBank).

(** Truth value of a [dict]: false exactly for the empty one. *)
Definition dict_truthy (d : doc) : bool := negb (Nat.eqb (size d) 0).

(** The conditional expression under ['sugTimeLimit']. *)
Definition suggested_of (suggested : string) : result value :=
  if PyStr.isdigit suggested then py_int suggested else Ok VNone.

(** The body of the loop over [structure_csv]. *)
Definition structure_step (db : store) (structure : row) : M unit :=
  game_mode_id <- lift (getitem structure "id");;
  level_id <- lift (getitem structure "levelId");;
  let game_mode_ref := GameModeRef game_mode_id in
  let level_ref := LevelRef game_mode_id level_id in
  name <- lift (getitem structure "name");;
  description <- lift (getitem structure "description");;
  let game_mode_data : doc :=
    <["name" := VStr name]> (<["description" := VStr description]> ∅) in
  (if doc_exists db game_mode_ref
   then batch_update game_mode_ref game_mode_data
   else (batch_set game_mode_ref game_mode_data;;
         print (CreatingGameMode game_mode_id)));;
  level_name <- lift (getitem structure "levelName");;
  level_description <- lift (getitem structure "levelDescription");;
  suggested <- lift (getitem structure "levelSuggestedTimeLimit");;
  sugTimeLimit <- lift (suggested_of suggested);;
  let level_data : doc :=
    <["name" := VStr level_name]>
    (<["description" := VStr level_description]>
    (<["sugTimeLimit" := sugTimeLimit]> ∅)) in
  if doc_exists db level_ref
  then batch_update level_ref level_data
  else
    let existing_level : doc := default ∅ (get_doc db level_ref) in
    let level_data :=
      <["gameRefs" := default (VList []) (existing_level !! "gameRefs")]>
        level_data in
    (batch_set level_ref level_data;;
     print (CreatingLevel level_id game_mode_id)).

Fixpoint structure_loop (db : store) (structure_csv : list row) : M unit :=
  match structure_csv with
  | [] => ret tt
  | structure :: rest =>
      (structure_step db structure;; structure_loop db rest)
  end.

(** [game.get('id')]; a missing id is read as the empty string, which is
    as false as [None], and the id is only used when it is true. *)
Definition row_id (game : row) : string := default "" (game !! "id").

(** The [try] block of the loop over [games_csv]; it returns the row as the
    block leaves it, the one appended to [updated_games_csv]. *)
Definition game_step (existing_games : gmap string doc) (game : row)
  : M row :=
  let game_id := row_id game in
  level_id <- lift (getitem game "levelId");;
  game_mode_id <- lift (getitem game "gameModeId");;
  let level_ref := LevelRef game_mode_id level_id in
  if negb (PyStr.truthy game_id) then
    new_id <- new_game_document;;
    game_data <- lift (build_game_data game game_mode_id level_id);;
    let game_data :=
      <["updatedAt" := ServerTimestamp]>
        (<["createdAt" := ServerTimestamp]> game_data) in
    (batch_set (GameRef new_id) game_data;;
     batch_update level_ref
       {["gameRefs" := ArrayUnion [VRef (GameRef new_id)]]};;
     print (NewGameCreated new_id);;
     ret (<["id" := new_id]> game))
  else
    match existing_games !! game_id with
    | Some existing_game =>
        if dict_truthy existing_game then
          game_data <- lift (build_game_data game game_mode_id level_id);;
          if has_game_changed existing_game game_data then
            let game_data := <["updatedAt" := ServerTimestamp]> game_data in
            (batch_update (GameRef game_id) game_data;;
             print (GameUpdated game_id);;
             ret game)
          else (print (NoChangesDetected game_id);; ret game)
        else (print (GameNotFound game_id);; ret game)
    | None => (print (GameNotFound game_id);; ret game)
    end.

(** One iteration of the loop over [games_csv]: the row as the iteration
    leaves it, and whether it was appended to [updated_games_csv]. *)
Definition game_iteration (existing_games : gmap string doc) (game : row)
  : M (row * bool) :=
  try_except_KeyError
    (game' <- game_step existing_games game;; ret (game', true))
    (fun k => (print (MissingField k game);; ret (game, false))).

(** The loop over [games_csv]: the rows of [games_csv] after the loop and
    [updated_games_csv]. *)
Fixpoint game_loop (existing_games : gmap string doc) (games_csv : list row)
  : M (list row * list row) :=
  match games_csv with
  | [] => ret ([], [])
  | game :: rest =>
      r <- game_iteration existing_games game;;
      rs <- game_loop existing_games rest;;
      ret (fst r :: fst rs,
           if snd r then fst r :: snd rs else snd rs)
  end.

(** [batch.commit()] at time [now]. *)
Definition batch_commit (now : Z) (db : store) : M store :=
  fun w =>
    match commit now (batch w) db with
    | Some db' => (Ok db', w)
    | None => (Raise CommitFailed, w)
    end.

(** [upload_games_from_csv], given what [read_csv] returned for the two
    files, the database and the time of the commit.  [None] is the early
    [return]; otherwise the database after the commit and the games file
    as rewritten. *)
Definition upload_games_from_csv
    (db : store) (now : Z) (games_csv structure_csv : list row)
  : M (option (store * csv_file)) :=
  match games_csv with
  | [] => (print WarnGamesEmpty;; ret None)
  | _ :: _ =>
      match structure_csv with
      | [] => (print WarnStructureEmpty;; ret None)
      | _ :: _ =>
          structure_loop db structure_csv;;
          let existing_games := fetch_existing_games db in
          r <- game_loop existing_games games_csv;;
          db' <- batch_commit now db;;
          print AllCommitted;;
          let names : gset string :=
            match fst r with first :: _ => dom first | [] => ∅ end in
          file <- lift (write_csv (snd r) names);;
          ret (Some (db', file))
      end
  end.

Definition start : world := World 0 [] [].

(** A run of the script from an empty batch. *)
Definition run (db : store) (now : Z) (games_csv structure_csv : list row)
  : result (option (store * csv_file)) * world :=
  upload_games_from_csv db now games_csv structure_csv start.

End Publisher.

(** ** Vocabulary of the specification *)

Section Vocabulary.
Import Firestore.

(** The two writes the script adds for a game it creates under the id
    [new]. *)
Definition creation_writes (new gm lvl : string) (data : doc) : list write :=
  [WSet (GameRef new)
     (<["updatedAt" := ServerTimestamp]>
        (<["createdAt" := ServerTimestamp]> data));
   WUpdate (LevelRef gm lvl)
     {["gameRefs" := ArrayUnion [VRef (GameRef new)]]}].

(** The write the script adds for an existing game whose tracked fields
    changed. *)
Definition update_write (game_id : string) (data : doc) : write :=
  WUpdate (GameRef game_id) (<["updatedAt" := ServerTimestamp]> data).

Definition is_game_ref (r : docref) : bool :=
  match r with GameRef _ => true | _ => false end.

(** The array a level document holds under [gameRefs]; empty when the
    document or the field is missing or the field is no array. *)
Definition refs_of (d : option doc) : list value :=
  match d with
  | Some fields =>
      match fields !! "gameRefs" with
      | Some (VList l) => l
      | _ => []
      end
  | None => []
  end.

Definition level_refs (db : store) (gm lvl : string) : list value :=
  refs_of (levels db !! (gm, lvl)).

(** The write of the structure pass for a game mode. *)
Definition mode_write (db : store) (gm name description : string) : write :=
  let data : doc :=
    <["name" := VStr name]> (<["description" := VStr description]> ∅) in
  if doc_exists db (GameModeRef gm)
  then WUpdate (GameModeRef gm) data
  else WSet (GameModeRef gm) data.

(** The three fields the structure pass builds for a level. *)
Definition level_fields (name description : string) (sugTimeLimit : value)
  : doc :=
  <["name" := VStr name]>
  (<["description" := VStr description]>
  (<["sugTimeLimit" := sugTimeLimit]> ∅)).

(** The write of the structure pass for a level. *)
Definition level_write (db : store) (gm lvl : string) (fields : doc) : write :=
  if doc_exists db (LevelRef gm lvl)
  then WUpdate (LevelRef gm lvl) fields
  else WSet (LevelRef gm lvl)
         (<["gameRefs" :=
              default (VList [])
                (default ∅ (get_doc db (LevelRef gm lvl)) !! "gameRefs")]>
            fields).

Definition targets_no_game (wr : write) : Prop :=
  is_game_ref (write_ref wr) = false.

(** The fixed list of fields the specification names as tracked. *)
Definition tracked_fields : list string :=
  ["description"; "instructions"; "timeLimit"; "gameModeId"; "levelId";
   "letterPosition"; "targetLetter"; "answerBank"].

(** Some tracked field differs ([!=]) between the stored document and the
    data built from the row. *)
Definition some_tracked_field_differs (stored data : doc) : Prop :=
  Exists (fun key => py_ne (dict_get stored key) (dict_get data key) = true)
    tracked_fields.

(** No tracked field differs: the two are equal ([==]) on each. *)
Definition tracked_fields_agree (stored data : doc) : Prop :=
  Forall (fun key => py_eq (dict_get stored key) (dict_get data key) = true)
    tracked_fields.

(** Why the [try] block of a game row raises [e]: a missing [levelId] or
    [gameModeId] column, or the failure to build the data of a row that
    has no id or whose document the snapshot holds with a field. *)
Definition raises (existing_games : gmap string doc) (game : row) (e : exn)
  : Prop :=
  (game !! "levelId" = None /\ e = KeyError "levelId")
  \/ (game !! "gameModeId" = None /\ e = KeyError "gameModeId")
  \/ (exists gm lvl,
        game !! "levelId" = Some lvl
        /\ game !! "gameModeId" = Some gm
        /\ build_game_data game gm lvl = Raise e
        /\ (PyStr.truthy (row_id game) = false
            \/ exists ex, existing_games !! row_id game = Some ex
                          /\ dict_truthy ex = true)).

(** What one iteration of the loop over [games_csv] that raises nothing
    does, as a relation: from the snapshot, the number [n] of ids generated
    so far and the row, to the row it leaves, whether that row was appended
    to [updated_games_csv], the number of ids generated and the writes
    added to the batch. *)
Inductive iteration_does (auto_id : nat -> string)
    (existing_games : gmap string doc) (n : nat) (game : row)
  : row -> bool -> nat -> list write -> Prop :=
| it_created gm lvl data :
    PyStr.truthy (row_id game) = false ->
    game !! "levelId" = Some lvl ->
    game !! "gameModeId" = Some gm ->
    build_game_data game gm lvl = Ok data ->
    iteration_does auto_id existing_games n game
      (<["id" := auto_id n]> game) true (S n)
      (creation_writes (auto_id n) gm lvl data)
| it_updated gm lvl ex data :
    PyStr.truthy (row_id game) = true ->
    game !! "levelId" = Some lvl ->
    game !! "gameModeId" = Some gm ->
    existing_games !! row_id game = Some ex ->
    dict_truthy ex = true ->
    build_game_data game gm lvl = Ok data ->
    has_game_changed ex data = true ->
    iteration_does auto_id existing_games n game
      game true n [update_write (row_id game) data]
| it_unchanged gm lvl ex data :
    PyStr.truthy (row_id game) = true ->
    game !! "levelId" = Some lvl ->
    game !! "gameModeId" = Some gm ->
    existing_games !! row_id game = Some ex ->
    dict_truthy ex = true ->
    build_game_data game gm lvl = Ok data ->
    has_game_changed ex data = false ->
    iteration_does auto_id existing_games n game game true n []
| it_not_found gm lvl :
    PyStr.truthy (row_id game) = true ->
    game !! "levelId" = Some lvl ->
    game !! "gameModeId" = Some gm ->
    (existing_games !! row_id game = None
     \/ exists ex, existing_games !! row_id game = Some ex
                   /\ dict_truthy ex = false) ->
    iteration_does auto_id existing_games n game game true n []
| it_skipped n' k :
    n <= n' <= S n ->
    raises existing_games game (KeyError k) ->
    iteration_does auto_id existing_games n game game false n' [].

(** The same for the whole loop: the rows appended to
    [updated_games_csv], the ids generated and the writes added. *)
Inductive loop_does (auto_id : nat -> string)
    (existing_games : gmap string doc)
  : nat -> list row -> list row -> nat -> list write -> Prop :=
| loop_nil n : loop_does auto_id existing_games n [] [] n []
| loop_cons n game rest game' kept n1 ws updated n2 ws' :
    iteration_does auto_id existing_games n game game' kept n1 ws ->
    loop_does auto_id existing_games n1 rest updated n2 ws' ->
    loop_does auto_id existing_games n (game :: rest)
      (if kept then game' :: updated else updated) n2 (ws ++ ws').

(** The rows of the games file a run wrote back, and the database it
    committed; [None] when the run ended before. *)
Definition written_rows (r : result (option (store * csv_file)) * world)
  : option (list row) :=
  match fst r with
  | Ok (Some (_, file)) => Some (records file)
  | _ => None
  end.

Definition committed_store (r : result (option (store * csv_file)) * world)
  : option store :=
  match fst r with
  | Ok (Some (db', _)) => Some db'
  | _ => None
  end.

(** The references of the games a batch creates under level [lvl] of game
    mode [gm]: one for each creation of a game document whose data names
    that level, in the order of the batch. *)
Definition created_for (gm lvl : string) (b : list write) : list value :=
  omap (fun wr =>
          match wr with
          | WSet (GameRef id) d =>
              if value_eqb (dict_get d "gameModeId") (VStr gm)
                 && value_eqb (dict_get d "levelId") (VStr lvl)
              then Some (VRef (GameRef id))
              else None
          | _ => None
          end) b.

(** The two writes a structure row can add. *)
Definition structure_write (db : store) (wr : write) : Prop :=
  (exists gm name description, wr = mode_write db gm name description)
  \/ (exists gm lvl name description sug,
        resolve 0 None sug = sug
        /\ wr = level_write db gm lvl (level_fields name description sug)).

Definition written_file (r : result (option (store * csv_file)) * world)
  : option csv_file :=
  match fst r with
  | Ok (Some (_, file)) => Some file
  | _ => None
  end.

(** The [levelId] a committed run left in a game document, and the
    [gameRefs] it left in a level. *)
Definition field_after (r : result (option (store * csv_file)) * world)
    (id key : string) : option value :=
  db' ← committed_store r; d ← games db' !! id; Some (dict_get d key).

Definition refs_after (r : result (option (store * csv_file)) * world)
    (gm lvl : string) : option (list value) :=
  db' ← committed_store r; Some (level_refs db' gm lvl).

(** A row is settled against a snapshot when its iteration adds no write,
    whatever the state of the run. *)
Definition settled (existing_games : gmap string doc) (game : row) : Prop :=
  forall (auto_id : nat -> string) (w : world),
    batch (snd (game_iteration auto_id existing_games game w)) = batch w.

(** The ids the rows of a games file carry. *)
Definition given_ids (games_csv : list row) : list string :=
  filter (fun id => id <> "") (row_id <$> games_csv).

(** The [timeLimit] of the row is no spelling of NaN. *)
Definition no_nan_time_limit (game : row) : Prop :=
  forall s, game !! "timeLimit" = Some s ->
            PyNum.float_of_string s <> Some S754_nan.

(** The generated ids are pairwise different, not empty and not among the
    ids the rows carry. *)
Definition fresh_ids (auto_id : nat -> string) (games_csv : list row) : Prop :=
  (forall i j, auto_id i = auto_id j -> i = j)
  /\ (forall i, auto_id i <> "")
  /\ (forall i game, game ∈ games_csv -> row_id game <> auto_id i).

(** The values [build_game_data] puts under the tracked fields: [None], a
    string, a float that is no NaN, or a list of strings. *)
Definition simple (v : value) : bool :=
  match v with
  | VNone | VStr _ => true
  | VFloat x => negb (PyNum.is_nan x)
  | VList l =>
      forallb (fun u => match u with VStr _ => true | _ => false end) l
  | _ => false
  end.

(** The game [id] of a collection of games declares level [lvl] of game mode
    [gm] as its parent. *)
Definition declares (games : gmap string doc) (id gm lvl : string) : Prop :=
  exists d, games !! id = Some d
            /\ dict_get d "gameModeId" = VStr gm
            /\ dict_get d "levelId" = VStr lvl.

(** The invariant of the data model: the [gameRefs] array of every level
    holds exactly one reference per game that declares the level, and
    nothing else. *)
Definition linked (db : store) : Prop :=
  forall gm lvl level,
    levels db !! (gm, lvl) = Some level ->
    NoDup (refs_of (Some level))
    /\ forall v, v ∈ refs_of (Some level) <->
                 exists id, v = VRef (GameRef id) /\ declares (games db) id gm lvl.

(** Every game declares a level that exists. *)
Definition housed (db : store) : Prop :=
  forall id gm lvl,
    declares (games db) id gm lvl -> is_Some (levels db !! (gm, lvl)).

(** No row names, for a game the collection holds, another parent than the
    one the game declares. *)
Definition no_moves (games : gmap string doc) (games_csv : list row) : Prop :=
  forall game d gm lvl,
    game ∈ games_csv ->
    PyStr.truthy (row_id game) = true ->
    games !! row_id game = Some d ->
    game !! "gameModeId" = Some gm ->
    game !! "levelId" = Some lvl ->
    dict_get d "gameModeId" = VStr gm /\ dict_get d "levelId" = VStr lvl.

(** The generated ids are pairwise different, and are the ids of no game of
    the database and of no row. *)
Definition unused_ids (auto_id : nat -> string) (db : store)
    (games_csv : list row) : Prop :=
  (forall i j, auto_id i = auto_id j -> i = j)
  /\ (forall i, games db !! auto_id i = None)
  /\ (forall i game, game ∈ games_csv -> row_id game <> auto_id i).

(** *** Examples: rows, databases and generated ids *)

Fixpoint tally (n : nat) : string :=
  match n with
  | O => ""
  | S k => String "I" (tally k)
  end.

(** A generator of ids: ["#"], ["#I"], ["#II"], ... *)
Definition example_auto_id (n : nat) : string := String "#" (tally n).

(** The row of the specification's example. *)
Definition example_row : row :=
  list_to_map
    [("id", ""); ("name", "Find A"); ("instructions", "tap A");
     ("timeLimit", "30"); ("gameModeId", "gm1"); ("levelId", "lvl1");
     ("answerBank", "A,a")].

(** A complete games row. *)
Definition game_row (id name description instructions timeLimit gameModeId
    levelId answerBank : string) : row :=
  list_to_map
    [("id", id); ("name", name); ("description", description);
     ("instructions", instructions); ("timeLimit", timeLimit);
     ("gameModeId", gameModeId); ("levelId", levelId);
     ("letterPosition", ""); ("targetLetter", "");
     ("answerBank", answerBank)].

(** A complete structure row. *)
Definition structure_row (id name description levelId levelName
    levelDescription levelSuggestedTimeLimit : string) : row :=
  list_to_map
    [("id", id); ("name", name); ("description", description);
     ("levelId", levelId); ("levelName", levelName);
     ("levelDescription", levelDescription);
     ("levelSuggestedTimeLimit", levelSuggestedTimeLimit)].

(** 30.0: [8444249301319680 = 30 * 2^48]. *)
Definition thirty : PyNum.float := S754_finite false 8444249301319680 (-48).

(** A stored game document. *)
Definition game_doc (name description instructions : string)
    (timeLimit : value) (gameModeId levelId : string) (answerBank : value)
  : doc :=
  <["createdAt" := VTime 1]> (<["updatedAt" := VTime 1]>
    (game_dict (VStr name) (VStr description) (VStr instructions) timeLimit
       (VStr gameModeId) (VStr levelId) (VStr "") (VStr "") answerBank)).

(** A stored level document. *)
Definition level_doc (name description : string) (sugTimeLimit : value)
    (gameRefs : list value) : doc :=
  <["name" := VStr name]> (<["description" := VStr description]>
    (<["sugTimeLimit" := sugTimeLimit]> {["gameRefs" := VList gameRefs]})).

Definition mode_doc (name description : string) : doc :=
  <["name" := VStr name]> {["description" := VStr description]}.

(** A database with one game mode [gm1], its levels [lvl1] and [lvl2], and
    one game [g1] of [lvl1], linked from it. *)
Definition example_db : store :=
  Store
    {["g1" := game_doc "Find A" "first" "tap A" (VFloat thirty) "gm1" "lvl1"
                (VList [VStr "A"; VStr "a"])]}
    {["gm1" := mode_doc "Letters" "letter games"]}
    (<[("gm1", "lvl1") := level_doc "One" "first level" (VInt 60)
                            [VRef (GameRef "g1")]]>
       {[("gm1", "lvl2") := level_doc "Two" "second level" VNone []]}).

Definition example_structure : list row :=
  [structure_row "gm1" "Letters" "letter games" "lvl1" "One" "first level" "60";
   structure_row "gm1" "Letters" "letter games" "lvl2" "Two" "second level" ""].

(** The data built from [example_row]. *)
Definition example_data : doc :=
  game_dict (VStr "Find A") VNone (VStr "tap A") (VFloat thirty)
    (VStr "gm1") (VStr "lvl1") VNone VNone (VList [VStr "A"; VStr "a"]).

(** The row of game [g1] with another name, and the data built from it. *)
Definition renamed_row : row :=
  game_row "g1" "Find the A" "first" "tap A" "30" "gm1" "lvl1" "A,a".

Definition renamed_data : doc :=
  game_dict (VStr "Find the A") (VStr "first") (VStr "tap A") (VFloat thirty)
    (VStr "gm1") (VStr "lvl1") (VStr "") (VStr "")
    (VList [VStr "A"; VStr "a"]).

(** A stored [g1] that differs from [renamed_row] in its description (and
    name), and one that differs in its name only. *)
Definition g1_other_description : doc :=
  game_doc "Find A" "older" "tap A" (VFloat thirty) "gm1" "lvl1"
    (VList [VStr "A"; VStr "a"]).

Definition g1_other_name : doc :=
  game_doc "Find A" "first" "tap A" (VFloat thirty) "gm1" "lvl1"
    (VList [VStr "A"; VStr "a"]).

(** The structure row of level [lvl1] with another suggested time limit,
    and the document of [lvl1] in [example_db]. *)
Definition lvl1_row_90 : row :=
  structure_row "gm1" "Letters" "letter games" "lvl1" "One" "first level" "90".

Definition lvl1_doc : doc :=
  level_doc "One" "first level" (VInt 60) [VRef (GameRef "g1")].


(** A games row whose id no document has, and a structure row that lacks
    the [levelName] column. *)
Definition ghost_row : row :=
  game_row "ghost" "Find B" "second" "tap B" "20" "gm1" "lvl1" "B,b".

Definition structure_row_without_level_name : row :=
  list_to_map
    [("id", "gm1"); ("name", "Letters"); ("description", "letter games");
     ("levelId", "lvl1"); ("levelDescription", "first level");
     ("levelSuggestedTimeLimit", "60")].

(** Games rows of a file that lacks the [instructions] column. *)
Definition game_row_without_instructions (id name : string) : row :=
  list_to_map
    [("id", id); ("name", name); ("description", "third");
     ("timeLimit", "10"); ("gameModeId", "gm1"); ("levelId", "lvl1");
     ("letterPosition", ""); ("targetLetter", ""); ("answerBank", "C,c")].

(** The row of game [g1] moved to level [lvl2], and a row without id for a
    new game of [lvl2]. *)
Definition moved_row : row :=
  game_row "g1" "Find A" "first" "tap A" "30" "gm1" "lvl2" "A,a".

Definition new_row : row :=
  game_row "" "Find B" "second" "tap B" "20" "gm1" "lvl2" "B,b".

(** A second row for the id [g1], with another description. *)
Definition g1_again_row : row :=
  game_row "g1" "Find the A" "other" "tap A" "30" "gm1" "lvl1" "A,a".

(** A row without id whose [timeLimit] is no number. *)
Definition bad_time_limit_row : row :=
  game_row "" "Find X" "" "tap X" "abc" "gm1" "lvl1" "X,x".

(** A row without id whose [timeLimit] spells NaN. *)
Definition nan_row : row :=
  game_row "" "Find N" "" "tap N" "nan" "gm1" "lvl1" "N,n".

End Vocabulary.

(** ** Vocabulary of the further properties *)

(** The number of occurrences of a character in a string. *)
Fixpoint count_char (c : ascii) (s : string) : nat :=
  match s with
  | EmptyString => 0
  | String a s' => (if Ascii.eqb a c then 1 else 0) + count_char c s'
  end.

(** [c.join(pieces)] for a one-character separator. *)
Fixpoint join_with (c : ascii) (pieces : list string) : string :=
  match pieces with
  | [] => EmptyString
  | [p] => p
  | p :: rest => (p ++ String c (join_with c rest))%string
  end.

(** The first and the last character of a string. *)
Definition first_char (s : string) : option ascii :=
  match s with
  | EmptyString => None
  | String a _ => Some a
  end.

Fixpoint last_char (s : string) : option ascii :=
  match s with
  | EmptyString => None
  | String a EmptyString => Some a
  | String _ s' => last_char s'
  end.

(** A string that is empty or has no whitespace at either end. *)
Definition trimmed (s : string) : Prop :=
  match first_char s, last_char s with
  | Some a, Some b => PyStr.is_space a = false /\ PyStr.is_space b = false
  | _, _ => s = EmptyString
  end.

Section FurtherVocabulary.
Import Firestore.

(** The columns the structure pass reads from a row, in the order it reads
    them. *)
Definition structure_columns : list string :=
  ["id"; "levelId"; "name"; "description"; "levelName"; "levelDescription";
   "levelSuggestedTimeLimit"].

(** The columns [build_game_data] reads with [game[...]]. *)
Definition required_game_columns : list string :=
  ["name"; "instructions"; "timeLimit"; "answerBank"].

(** The two writes a structure row adds when it raises nothing. *)
Definition row_writes (db : store) (structure : row) (ws : list write) : Prop :=
  exists gm lvl name description level_name level_description suggested sug,
    structure !! "id" = Some gm
    /\ structure !! "levelId" = Some lvl
    /\ structure !! "name" = Some name
    /\ structure !! "description" = Some description
    /\ structure !! "levelName" = Some level_name
    /\ structure !! "levelDescription" = Some level_description
    /\ structure !! "levelSuggestedTimeLimit" = Some suggested
    /\ suggested_of suggested = Ok sug
    /\ ws = [mode_write db gm name description;
             level_write db gm lvl
               (level_fields level_name level_description sug)].

Definition is_update (wr : write) : bool :=
  match wr with WUpdate _ _ => true | WSet _ _ => false end.

(** The ids of the game documents a batch creates, in its order. *)
Definition created_ids (b : list write) : list string :=
  omap (fun wr =>
          match wr with
          | WSet (GameRef id) _ => Some id
          | _ => None
          end) b.

(** The row takes a branch of the loop body that builds the game data: it
    has no id, or the snapshot holds its document with a field. *)
Definition reaches_build (existing_games : gmap string doc) (game : row)
  : Prop :=
  PyStr.truthy (row_id game) = false
  \/ exists ex, existing_games !! row_id game = Some ex
                /\ dict_truthy ex = true.

(** The [timeLimit] of the row is not empty and no float literal. *)
Definition bad_time_limit (game : row) : Prop :=
  exists s, game !! "timeLimit" = Some s
            /\ s <> "" /\ PyNum.float_of_string s = None.

(** The suggested time limit of the structure row passes [isdigit] and is
    refused by [int]: it holds a superscript digit, or it has more digits
    than [int] converts. *)
Definition bad_suggested_time_limit (structure : row) : Prop :=
  exists s, structure !! "levelSuggestedTimeLimit" = Some s
            /\ PyStr.isdigit s = true
            /\ (PyStr.forall_chars PyStr.is_decimal s = false
                \/ PyNum.max_str_digits < String.length s).

(** The exception a run ends with, if any. *)
Definition raised (r : result (option (store * csv_file)) * world)
  : option exn :=
  match fst r with
  | Raise e => Some e
  | Ok _ => None
  end.

(** The fields the script writes to a game document it updates. *)
Definition written_game_fields : list string :=
  ["updatedAt"; "name"; "description"; "instructions"; "timeLimit";
   "gameModeId"; "levelId"; "letterPosition"; "targetLetter"; "answerBank"].

(** The structure row names level [lvl] of game mode [gm]. *)
Definition names_level (structure : row) (gm lvl : string) : Prop :=
  structure !! "id" = Some gm /\ structure !! "levelId" = Some lvl.

(** Level [lvl] of game mode [gm] is in the database with the given name,
    description and suggested time limit. *)
Definition level_holds (db : store) (gm lvl name description : string)
    (sugTimeLimit : value) : Prop :=
  exists d, levels db !! (gm, lvl) = Some d
            /\ d !! "name" = Some (VStr name)
            /\ d !! "description" = Some (VStr description)
            /\ d !! "sugTimeLimit" = Some sugTimeLimit.

(** Game mode [gm] is in the database with the given name and
    description. *)
Definition mode_holds (db : store) (gm name description : string) : Prop :=
  exists d, gameModes db !! gm = Some d
            /\ d !! "name" = Some (VStr name)
            /\ d !! "description" = Some (VStr description).

(** A write that leaves the name, the description and the suggested time
    limit of level [lvl] of game mode [gm] as they are: a write to another
    document, or an update of the [gameRefs] of that level. *)
Definition spares_level (gm lvl : string) (wr : write) : Prop :=
  write_ref wr <> LevelRef gm lvl
  \/ exists v, wr = WUpdate (LevelRef gm lvl) {["gameRefs" := v]}.

(** The columns a games row needs to pass the loop body whatever branch
    it takes. *)
Definition game_columns : list string :=
  ["levelId"; "gameModeId"; "name"; "instructions"; "timeLimit"; "answerBank"].

(** The row [u] is the row [game] as the loop leaves it: the row itself,
    or, for a row without id, the row with a generated id. *)
Definition row_after (auto_id : nat -> string) (game u : row) : Prop :=
  u = game
  \/ (PyStr.truthy (row_id game) = false
      /\ exists i, u = <["id" := auto_id i]> game).

(** The line the loop over the games file prints for a row: one of the five
    it can print, about that row. *)
Definition line_of (game : row) (m : message) : Prop :=
  match m with
  | NewGameCreated _ => PyStr.truthy (row_id game) = false
  | GameUpdated id | NoChangesDetected id | GameNotFound id =>
      id = row_id game /\ PyStr.truthy (row_id game) = true
  | MissingField k g => g = game
  | _ => False
  end.

Definition is_creating (m : message) : Prop :=
  match m with
  | CreatingGameMode _ | CreatingLevel _ _ => True
  | _ => False
  end.

(** The fields the script writes to a document it finds in the database:
    the diff and the timestamp for a game, the name and the description for
    a game mode and, for a level, those, the suggested time limit and the
    references of the games. *)
Definition fields_written_to (r : docref) : list string :=
  match r with
  | GameRef _ => written_game_fields
  | GameModeRef _ => ["name"; "description"]
  | LevelRef _ _ => ["name"; "description"; "sugTimeLimit"; "gameRefs"]
  end.

(** A write that leaves the field [key] of the document [r] as it is: a
    write to another document, or an update of [r] that does not carry the
    field. *)
Definition spares_field (r : docref) (key : string) (wr : write) : Prop :=
  write_ref wr <> r
  \/ exists data, wr = WUpdate r data /\ data !! key = None.

(** [example_db] with two fields added by hand: an icon in the level
    [lvl1] and a colour in the game mode [gm1]. *)
Definition decorated_db : store :=
  put_doc
    (put_doc example_db (LevelRef "gm1" "lvl1")
       (<["icon" := VStr "star"]> lvl1_doc))
    (GameModeRef "gm1")
    (<["colour" := VStr "red"]> (mode_doc "Letters" "letter games")).

(** A row without id for a game of a level that neither [example_db] nor
    [example_structure] knows. *)
Definition orphan_row : row :=
  game_row "" "Find Z" "last" "tap Z" "20" "gm1" "lvl9" "Z,z".

(** A second complete row without id, for a game of [lvl1]. *)
Definition example_row_full : row :=
  game_row "" "Find C" "third" "tap C" "10" "gm1" "lvl1" "C,c".

End FurtherVocabulary.

(** * Verification *)

(** ** Python strings and numbers *)

Lemma truthy_nonempty (s : string) : PyStr.truthy s = true <-> s <> "".
Proof. destruct s; simpl; split; (congruence || discriminate || auto). Qed.

Lemma float_eq_refl (x : PyNum.float) :
  PyNum.is_nan x = false -> PyNum.float_eq x x = true.
Proof.
  destruct x as [s|s| |s m e]; simpl; try discriminate; intros _;
    unfold PyNum.float_eq, SFeqb; simpl.
  - reflexivity.
  - destruct s; reflexivity.
  - rewrite Z.compare_refl.
    change (Pos.compare_cont Eq m m) with (Pos.compare m m).
    rewrite Pos.compare_refl. destruct s; reflexivity.
Qed.

Lemma float_eq_nan (x : PyNum.float) : PyNum.float_eq S754_nan x = false.
Proof. reflexivity. Qed.

(** The example generator of ids is injective. *)
Lemma tally_inj (i j : nat) : tally i = tally j -> i = j.
Proof.
  revert j. induction i as [|i IH]; intros [|j]; simpl; try discriminate; auto.
  intros [= H]. f_equal. now apply IH.
Qed.

Lemma example_auto_id_inj (i j : nat) :
  example_auto_id i = example_auto_id j -> i = j.
Proof. unfold example_auto_id. intros [= H]. now apply tally_inj. Qed.

(** ** Effects: how each primitive acts on the world *)

Lemma getitem_Some (d : row) (k v : string) :
  d !! k = Some v -> getitem d k = Ok v.
Proof. unfold getitem. intros ->. reflexivity. Qed.

Lemma getitem_None (d : row) (k : string) :
  d !! k = None -> getitem d k = Raise (KeyError k).
Proof. unfold getitem. intros ->. reflexivity. Qed.

Lemma getitem_Ok_inv (d : row) (k v : string) :
  getitem d k = Ok v -> d !! k = Some v.
Proof. unfold getitem. destruct (d !! k); congruence. Qed.

Lemma getitem_cases (d : row) (k : string) :
  (exists v, d !! k = Some v /\ getitem d k = Ok v)
  \/ (d !! k = None /\ getitem d k = Raise (KeyError k)).
Proof.
  unfold getitem. destruct (d !! k) as [v|]; [left; eauto | right; auto].
Qed.

Lemma bind_lift_Ok {A B} (r : result A) (a : A) (k : A -> M B) (w : world) :
  r = Ok a -> bind (lift r) k w = k a w.
Proof. intros ->. reflexivity. Qed.

Lemma bind_lift_Raise {A B} (r : result A) (e : exn) (k : A -> M B) (w : world) :
  r = Raise e -> bind (lift r) k w = (Raise e, w).
Proof. intros ->. reflexivity. Qed.

Lemma world_eta (w : world) : World (generated w) (batch w) (printed w) = w.
Proof. destruct w; reflexivity. Qed.

(** ** One game row: the branches of the loop body *)

Section GameStep.
Import Firestore.
Variable auto_id : nat -> string.
Variable existing_games : gmap string doc.

Local Ltac run_getitem H :=
  rewrite (bind_lift_Ok _ _ _ _ (getitem_Some _ _ _ H)).

(** A row without id, with its columns in place: a new document and its
    link. *)
Lemma game_step_create (game : row) (gm lvl : string) (data : doc) (w : world) :
  PyStr.truthy (row_id game) = false ->
  game !! "levelId" = Some lvl ->
  game !! "gameModeId" = Some gm ->
  build_game_data game gm lvl = Ok data ->
  game_step auto_id existing_games game w =
    (Ok (<["id" := auto_id (generated w)]> game),
     World (S (generated w))
       (batch w ++ creation_writes (auto_id (generated w)) gm lvl data)
       (printed w ++ [NewGameCreated (auto_id (generated w))])).
Proof.
  intros Hid Hlvl Hgm Hdata. unfold game_step.
  run_getitem Hlvl. run_getitem Hgm. rewrite Hid. simpl.
  unfold bind at 1. unfold new_game_document.
  rewrite (bind_lift_Ok _ _ _ _ Hdata).
  unfold bind, batch_set, batch_update, batch_add, print, ret,
    creation_writes. simpl.
  rewrite <- app_assoc. reflexivity.
Qed.

(** A row with an id whose document is in the snapshot and has fields. *)
Lemma game_step_found (game : row) (gm lvl : string) (ex data : doc) (w : world) :
  PyStr.truthy (row_id game) = true ->
  game !! "levelId" = Some lvl ->
  game !! "gameModeId" = Some gm ->
  existing_games !! row_id game = Some ex ->
  dict_truthy ex = true ->
  build_game_data game gm lvl = Ok data ->
  game_step auto_id existing_games game w =
    (Ok game,
     if has_game_changed ex data
     then World (generated w) (batch w ++ [update_write (row_id game) data])
            (printed w ++ [GameUpdated (row_id game)])
     else World (generated w) (batch w)
            (printed w ++ [NoChangesDetected (row_id game)])).
Proof.
  intros Hid Hlvl Hgm Hex Htruthy Hdata. unfold game_step.
  run_getitem Hlvl. run_getitem Hgm. rewrite Hid, Hex, Htruthy. simpl.
  rewrite (bind_lift_Ok _ _ _ _ Hdata).
  destruct (has_game_changed ex data); reflexivity.
Qed.

(** A row with an id the snapshot does not hold, or holds with no field. *)
Lemma game_step_not_found (game : row) (gm lvl : string) (w : world) :
  PyStr.truthy (row_id game) = true ->
  game !! "levelId" = Some lvl ->
  game !! "gameModeId" = Some gm ->
  (existing_games !! row_id game = None
   \/ exists ex, existing_games !! row_id game = Some ex
                 /\ dict_truthy ex = false) ->
  game_step auto_id existing_games game w =
    (Ok game,
     World (generated w) (batch w) (printed w ++ [GameNotFound (row_id game)])).
Proof.
  intros Hid Hlvl Hgm Hex. unfold game_step.
  run_getitem Hlvl. run_getitem Hgm. rewrite Hid. simpl.
  destruct Hex as [-> | (ex & -> & ->)]; reflexivity.
Qed.

End GameStep.

(** ** One iteration, and the loop, as relations *)

Section GameLoop.
Import Firestore.
Variable auto_id : nat -> string.
Variable existing_games : gmap string doc.

Local Ltac frame_done :=
  repeat (split; [reflexivity || (simpl; lia)|]).

(** Every exception leaves the batch as it was. *)
Lemma game_step_raise (game : row) (e : exn) (w w' : world) :
  game_step auto_id existing_games game w = (Raise e, w') ->
  batch w' = batch w /\ printed w' = printed w
  /\ generated w <= generated w' <= S (generated w)
  /\ raises existing_games game e.
Proof.
  unfold game_step, raises.
  destruct (getitem_cases game "levelId") as [(lvl & Hl & ->)|[Hl ->]];
    [|intros [= <- <-]; frame_done; auto].
  destruct (getitem_cases game "gameModeId") as [(gm & Hg & ->)|[Hg ->]];
    [|intros [= <- <-]; frame_done; auto].
  unfold bind at 1 2, lift at 1 2.
  destruct (PyStr.truthy (row_id game)); simpl.
  - destruct (existing_games !! row_id game) as [ex|]; [|discriminate].
    destruct (dict_truthy ex) eqn:Htr; [|discriminate].
    unfold bind at 1, lift.
    destruct (build_game_data game gm lvl) as [data|e'] eqn:Hb.
    + destruct (has_game_changed ex data); discriminate.
    + intros [= <- <-]. frame_done. right; right. exists gm, lvl. eauto 8.
  - unfold bind at 1, new_game_document. unfold bind at 1, lift.
    destruct (build_game_data game gm lvl) as [data|e'] eqn:Hb;
      [discriminate|].
    intros [= <- <-]. simpl. frame_done. right; right. exists gm, lvl. auto.
Qed.

Lemma game_step_ok (game game' : row) (w w' : world) :
  game_step auto_id existing_games game w = (Ok game', w') ->
  exists ws,
    iteration_does auto_id existing_games (generated w) game
      game' true (generated w') ws
    /\ batch w' = batch w ++ ws.
Proof.
  intros Hstep.
  destruct (getitem_cases game "levelId") as [(lvl & Hl & El)|[Hl El]];
    [|unfold game_step in Hstep; rewrite El in Hstep; discriminate].
  destruct (getitem_cases game "gameModeId") as [(gm & Hg & Eg)|[Hg Eg]];
    [|unfold game_step in Hstep; rewrite El, Eg in Hstep; discriminate].
  destruct (PyStr.truthy (row_id game)) eqn:Hid.
  - destruct (existing_games !! row_id game) as [ex|] eqn:Hex.
    + destruct (dict_truthy ex) eqn:Ht.
      * destruct (build_game_data game gm lvl) as [data|e] eqn:Hb.
        -- rewrite (game_step_found _ _ _ _ _ _ _ _ Hid Hl Hg Hex Ht Hb)
             in Hstep.
           destruct (has_game_changed ex data) eqn:Hc;
             injection Hstep as <- <-; simpl.
           ++ eexists; split; [eapply it_updated; eauto | reflexivity].
           ++ exists []; split; [eapply it_unchanged; eauto |].
              now rewrite app_nil_r.
        -- unfold game_step in Hstep.
           rewrite El, Eg, Hid, Hex, Ht in Hstep. simpl in Hstep.
           unfold bind, lift in Hstep. rewrite Hb in Hstep. discriminate.
      * rewrite (game_step_not_found _ _ _ gm lvl) in Hstep; eauto.
        injection Hstep as <- <-; simpl.
        exists []; split; [eapply it_not_found; eauto |].
        now rewrite app_nil_r.
    + rewrite (game_step_not_found _ _ _ gm lvl) in Hstep; eauto.
      injection Hstep as <- <-; simpl.
      exists []; split; [eapply it_not_found; eauto |].
      now rewrite app_nil_r.
  - destruct (build_game_data game gm lvl) as [data|e] eqn:Hb.
    + rewrite (game_step_create _ _ _ _ _ _ _ Hid Hl Hg Hb) in Hstep.
      injection Hstep as <- <-; simpl.
      eexists; split; [eapply it_created; eauto | reflexivity].
    + unfold game_step in Hstep.
      rewrite El, Eg, Hid in Hstep. simpl in Hstep.
      unfold bind, lift, new_game_document in Hstep.
      rewrite Hb in Hstep. discriminate.
Qed.

(** An iteration either ends normally, and then does what
    [iteration_does] says, or raises; in both cases the batch only grows. *)
Lemma game_iteration_ok (game game' : row) (kept : bool) (w w' : world) :
  game_iteration auto_id existing_games game w = (Ok (game', kept), w') ->
  exists ws,
    iteration_does auto_id existing_games (generated w) game
      game' kept (generated w') ws
    /\ batch w' = batch w ++ ws.
Proof.
  unfold game_iteration, try_except_KeyError. unfold bind at 1.
  destruct (game_step auto_id existing_games game w) as [[g|e] w1] eqn:Hstep.
  - unfold ret. intros [= <- <- <-]. eapply game_step_ok; eauto.
  - apply game_step_raise in Hstep as (Hb & Hp & Hn & Hwhy).
    destruct e; try discriminate.
    unfold bind, print, ret. intros [= <- <- <-]. simpl.
    exists []. split; [eapply it_skipped; [lia | exact Hwhy]
                      | now rewrite app_nil_r].
Qed.

Lemma game_iteration_raise (game : row) (e : exn) (w w' : world) :
  game_iteration auto_id existing_games game w = (Raise e, w') ->
  batch w' = batch w.
Proof.
  unfold game_iteration, try_except_KeyError. unfold bind at 1.
  destruct (game_step auto_id existing_games game w) as [[g|e'] w1] eqn:Hstep.
  - discriminate.
  - apply game_step_raise in Hstep as (Hb & Hp & Hn & _).
    destruct e'; intros [= <- <-]; assumption.
Qed.

(** No [KeyError] leaves an iteration: the [try] catches it. *)
Lemma game_iteration_catches_KeyError (game : row) (e : exn) (w w' : world) :
  game_iteration auto_id existing_games game w = (Raise e, w') ->
  forall k, e <> KeyError k.
Proof.
  unfold game_iteration, try_except_KeyError. unfold bind at 1.
  destruct (game_step auto_id existing_games game w) as [[g|e'] w1];
    [discriminate|].
  destruct e'; intros [= <- <-] k'; discriminate.
Qed.

Lemma game_loop_ok (games_csv rows' updated : list row) (w w' : world) :
  game_loop auto_id existing_games games_csv w = (Ok (rows', updated), w') ->
  exists ws,
    loop_does auto_id existing_games (generated w) games_csv updated
      (generated w') ws
    /\ batch w' = batch w ++ ws.
Proof.
  revert rows' updated w w'.
  induction games_csv as [|game rest IH]; intros rows' updated w w'; simpl.
  - unfold ret. intros [= <- <- <-]. exists []. split; [constructor|].
    now rewrite app_nil_r.
  - unfold bind at 1.
    destruct (game_iteration auto_id existing_games game w)
      as [[[g kept]|e] w1] eqn:Hit; [|discriminate].
    unfold bind at 1.
    destruct (game_loop auto_id existing_games rest w1)
      as [[[rs us]|e] w2] eqn:Hloop; [|discriminate].
    unfold ret. simpl. intros [= <- <- <-].
    apply game_iteration_ok in Hit as (ws1 & Hdo & Hb1).
    apply IH in Hloop as (ws2 & Hloop & Hb2).
    exists (ws1 ++ ws2). split.
    + econstructor; eauto.
    + rewrite Hb2, Hb1. now rewrite app_assoc.
Qed.

End GameLoop.

(** ** Firestore: what a write stores *)

Section FirestoreFacts.
Import Firestore.

Lemma lookup_resolve_fields (now : Z) (old d : doc) (k : string) :
  resolve_fields now old d !! k = resolve now (old !! k) <$> d !! k.
Proof.
  unfold resolve_fields. rewrite map_lookup_imap.
  destruct (d !! k); reflexivity.
Qed.

(** The fields of a document after an update: the written fields are
    replaced, every other field stays. *)
Lemma lookup_updated (now : Z) (old d : doc) (k : string) :
  (resolve_fields now old d ∪ old) !! k =
    match d !! k with
    | Some v => Some (resolve now (old !! k) v)
    | None => old !! k
    end.
Proof.
  rewrite lookup_union, lookup_resolve_fields.
  destruct (d !! k); simpl; [|apply (left_id_L None _)].
  destruct (old !! k); reflexivity.
Qed.

Lemma get_put_doc_eq (db : store) (r : docref) (d : doc) :
  get_doc (put_doc db r d) r = Some d.
Proof. destruct r; simpl; apply lookup_insert_eq. Qed.

Lemma get_put_doc_ne (db : store) (r r' : docref) (d : doc) :
  r <> r' -> get_doc (put_doc db r d) r' = get_doc db r'.
Proof.
  intros Hne. destruct r, r'; simpl; try reflexivity;
    apply lookup_insert_ne; congruence.
Qed.

Lemma dict_truthy_lookup (d : doc) (k : string) (v : value) :
  d !! k = Some v -> dict_truthy d = true.
Proof.
  intros Hk. unfold dict_truthy.
  destruct (Nat.eqb_spec (size d) 0) as [Hz|]; [|reflexivity].
  apply map_size_empty_iff in Hz. subst d.
  rewrite lookup_empty in Hk. discriminate.
Qed.

Lemma dict_truthy_empty : dict_truthy ∅ = false.
Proof. reflexivity. Qed.

Lemma array_union_cons (old : list value) (x : value) (xs : list value) :
  array_union old (x :: xs) = array_union (array_union old [x]) xs.
Proof. reflexivity. Qed.

Lemma array_union_nil (old : list value) : array_union old [] = old.
Proof. reflexivity. Qed.

Lemma array_union_app (old xs ys : list value) :
  array_union old (xs ++ ys) = array_union (array_union old xs) ys.
Proof. unfold array_union. apply fold_left_app. Qed.

(** Set-union semantics on one element: it is appended exactly when the
    array does not hold it. *)
Lemma array_union_one (old : list value) (x : value) :
  array_union old [x] =
    if existsb (value_eqb x) old then old else old ++ [x].
Proof. reflexivity. Qed.

End FirestoreFacts.

(** ** The data built from a row *)

Section BuildGameData.
Import Firestore.

Local Ltac keys :=
  unfold dict_get, game_dict;
  repeat (rewrite lookup_insert_ne by discriminate);
  rewrite ?lookup_insert_eq, ?lookup_empty; reflexivity.

Lemma game_dict_name (name description instructions timeLimit gameModeId levelId
    letterPosition targetLetter answerBank : value) :
  game_dict name description instructions timeLimit gameModeId levelId
    letterPosition targetLetter answerBank
  !! "name" = Some name.
Proof. keys. Qed.

Lemma game_dict_description (name description instructions timeLimit gameModeId levelId
    letterPosition targetLetter answerBank : value) :
  game_dict name description instructions timeLimit gameModeId levelId
    letterPosition targetLetter answerBank
  !! "description" = Some description.
Proof. keys. Qed.

Lemma game_dict_instructions (name description instructions timeLimit gameModeId levelId
    letterPosition targetLetter answerBank : value) :
  game_dict name description instructions timeLimit gameModeId levelId
    letterPosition targetLetter answerBank
  !! "instructions" = Some instructions.
Proof. keys. Qed.

Lemma game_dict_timeLimit (name description instructions timeLimit gameModeId levelId
    letterPosition targetLetter answerBank : value) :
  game_dict name description instructions timeLimit gameModeId levelId
    letterPosition targetLetter answerBank
  !! "timeLimit" = Some timeLimit.
Proof. keys. Qed.

Lemma game_dict_gameModeId (name description instructions timeLimit gameModeId levelId
    letterPosition targetLetter answerBank : value) :
  game_dict name description instructions timeLimit gameModeId levelId
    letterPosition targetLetter answerBank
  !! "gameModeId" = Some gameModeId.
Proof. keys. Qed.

Lemma game_dict_levelId (name description instructions timeLimit gameModeId levelId
    letterPosition targetLetter answerBank : value) :
  game_dict name description instructions timeLimit gameModeId levelId
    letterPosition targetLetter answerBank
  !! "levelId" = Some levelId.
Proof. keys. Qed.

Lemma game_dict_letterPosition (name description instructions timeLimit gameModeId levelId
    letterPosition targetLetter answerBank : value) :
  game_dict name description instructions timeLimit gameModeId levelId
    letterPosition targetLetter answerBank
  !! "letterPosition" = Some letterPosition.
Proof. keys. Qed.

Lemma game_dict_targetLetter (name description instructions timeLimit gameModeId levelId
    letterPosition targetLetter answerBank : value) :
  game_dict name description instructions timeLimit gameModeId levelId
    letterPosition targetLetter answerBank
  !! "targetLetter" = Some targetLetter.
Proof. keys. Qed.

Lemma game_dict_answerBank (name description instructions timeLimit gameModeId levelId
    letterPosition targetLetter answerBank : value) :
  game_dict name description instructions timeLimit gameModeId levelId
    letterPosition targetLetter answerBank
  !! "answerBank" = Some answerBank.
Proof. keys. Qed.

Lemma game_dict_createdAt (name description instructions timeLimit gameModeId levelId
    letterPosition targetLetter answerBank : value) :
  game_dict name description instructions timeLimit gameModeId levelId
    letterPosition targetLetter answerBank
  !! "createdAt" = None.
Proof. keys. Qed.

Lemma game_dict_updatedAt (name description instructions timeLimit gameModeId levelId
    letterPosition targetLetter answerBank : value) :
  game_dict name description instructions timeLimit gameModeId levelId
    letterPosition targetLetter answerBank
  !! "updatedAt" = None.
Proof. keys. Qed.

Lemma game_dict_gameRefs (name description instructions timeLimit gameModeId levelId
    letterPosition targetLetter answerBank : value) :
  game_dict name description instructions timeLimit gameModeId levelId
    letterPosition targetLetter answerBank
  !! "gameRefs" = None.
Proof. keys. Qed.

(** What a successful [build_game_data] read and built. *)
Lemma build_game_data_inv (game : row) (gm lvl : string) (data : doc) :
  build_game_data game gm lvl = Ok data ->
  exists name instructions time_limit answer_bank timeLimit,
    game !! "name" = Some name
    /\ game !! "instructions" = Some instructions
    /\ game !! "timeLimit" = Some time_limit
    /\ game !! "answerBank" = Some answer_bank
    /\ time_limit_of time_limit = Ok timeLimit
    /\ data = game_dict (VStr name) (row_get game "description")
                (VStr instructions) timeLimit (VStr gm) (VStr lvl)
                (row_get game "letterPosition") (row_get game "targetLetter")
                (answer_bank_of answer_bank).
Proof.
  unfold build_game_data, rbind.
  destruct (getitem game "name") as [name|] eqn:Hn; [|discriminate].
  destruct (getitem game "instructions") as [ins|] eqn:Hi; [|discriminate].
  destruct (getitem game "timeLimit") as [tl|] eqn:Ht; [|discriminate].
  destruct (time_limit_of tl) as [tlv|] eqn:Hv; [|discriminate].
  destruct (getitem game "answerBank") as [ab|] eqn:Ha; [|discriminate].
  intros [= <-]. exists name, ins, tl, ab, tlv.
  repeat split; auto using getitem_Ok_inv.
Qed.

(** The only exceptions of [build_game_data]. *)
Lemma build_game_data_raises (game : row) (gm lvl : string) (e : exn) :
  build_game_data game gm lvl = Raise e ->
  e = ValueError \/ exists k, e = KeyError k.
Proof.
  unfold build_game_data, rbind.
  destruct (getitem_cases game "name") as [(? & _ & ->)|[_ ->]];
    [|intros [= <-]; eauto].
  destruct (getitem_cases game "instructions") as [(? & _ & ->)|[_ ->]];
    [|intros [= <-]; eauto].
  destruct (getitem_cases game "timeLimit") as [(tl & _ & ->)|[_ ->]];
    [|intros [= <-]; eauto].
  destruct (time_limit_of tl) as [tlv|e'] eqn:Hv.
  - destruct (getitem_cases game "answerBank") as [(? & _ & ->)|[_ ->]];
      [discriminate | intros [= <-]; eauto].
  - intros [= <-]. left. unfold time_limit_of, py_float in Hv.
    destruct (PyStr.truthy tl); [|discriminate].
    destruct (PyNum.float_of_string tl); [discriminate|]. congruence.
Qed.

(** The id of the row is not among the columns the data is built from. *)
Lemma build_game_data_insert_id (game : row) (gm lvl x : string) :
  build_game_data (<["id" := x]> game) gm lvl = build_game_data game gm lvl.
Proof.
  unfold build_game_data, getitem, row_get.
  repeat (rewrite lookup_insert_ne by discriminate). reflexivity.
Qed.

End BuildGameData.

(** ** Rows whose id the snapshot does not hold *)

Section UnknownId.
Import Firestore.
Variable auto_id : nat -> string.

(** C6.  A game row whose id is present but absent from the snapshot of the
    existing games is skipped with a warning and adds no write to the
    batch: the iteration leaves the batch and the count of generated ids as
    they were, leaves the row unchanged and prints one line, the "not
    found" warning when the row has its [levelId] and [gameModeId] columns
    and the "missing field" warning otherwise. *)
Theorem C6_unknown_id_adds_no_write
    (existing_games : gmap string doc) (game : row) (w : world) :
  PyStr.truthy (row_id game) = true ->
  existing_games !! row_id game = None ->
  exists kept msg,
    game_iteration auto_id existing_games game w =
      (Ok (game, kept),
       World (generated w) (batch w) (printed w ++ [msg]))
    /\ ((kept = true /\ msg = GameNotFound (row_id game))
        \/ (kept = false /\ exists k, msg = MissingField k game)).
Proof.
  intros Hid Hex. unfold game_iteration, try_except_KeyError.
  unfold bind at 1.
  destruct (getitem_cases game "levelId") as [(lvl & Hl & El)|[Hl El]].
  - destruct (getitem_cases game "gameModeId") as [(gm & Hg & Eg)|[Hg Eg]].
    + rewrite (game_step_not_found _ _ _ gm lvl) by auto.
      exists true, (GameNotFound (row_id game)). split; [reflexivity|auto].
    + unfold game_step. rewrite El, Eg. simpl.
      exists false, (MissingField "gameModeId" game).
      split; [reflexivity | eauto].
  - unfold game_step. rewrite El. simpl.
    exists false, (MissingField "levelId" game).
    split; [reflexivity | eauto].
Qed.

End UnknownId.

Lemma C6_unknown_id_witness :
  exists kept msg,
    game_iteration example_auto_id (Firestore.games example_db)
      (game_row "ghost" "Find B" "" "tap B" "20" "gm1" "lvl1" "B,b") start =
      (Ok (game_row "ghost" "Find B" "" "tap B" "20" "gm1" "lvl1" "B,b", kept),
       World 0 [] [msg])
    /\ ((kept = true /\ msg = GameNotFound "ghost")
        \/ (kept = false
            /\ exists k, msg = MissingField k
                 (game_row "ghost" "Find B" "" "tap B" "20" "gm1" "lvl1" "B,b"))).
Proof.
  apply (C6_unknown_id_adds_no_write example_auto_id
           (Firestore.games example_db)
           (game_row "ghost" "Find B" "" "tap B" "20" "gm1" "lvl1" "B,b") start);
    reflexivity.
Defined.

(** ** Creating a game *)

Section Creation.
Import Firestore.
Variable auto_id : nat -> string.

Lemma game_iteration_of_step (existing_games : gmap string doc)
    (game game' : row) (w w' : world) :
  game_step auto_id existing_games game w = (Ok game', w') ->
  game_iteration auto_id existing_games game w = (Ok (game', true), w').
Proof.
  intros Hstep. unfold game_iteration, try_except_KeyError, bind.
  rewrite Hstep. reflexivity.
Qed.

(** The array of a level after [ArrayUnion] of one reference. *)
Lemma refs_of_union (now : Z) (old : doc) (x : value) :
  refs_of (Some (resolve_fields now old {["gameRefs" := ArrayUnion [x]]} ∪ old))
  = array_union (refs_of (Some old)) [x].
Proof.
  unfold refs_of. rewrite lookup_updated, lookup_singleton_eq. reflexivity.
Qed.

(** Committing the two writes of a creation, when the level exists. *)
Lemma commit_creation_writes (now : Z) (db : store)
    (new gm lvl : string) (data old : doc) :
  levels db !! (gm, lvl) = Some old ->
  commit now (creation_writes new gm lvl data) db =
    Some (Store
            (<[new := resolve_fields now ∅
                        (<["updatedAt" := ServerTimestamp]>
                           (<["createdAt" := ServerTimestamp]> data))]>
               (games db))
            (gameModes db)
            (<[(gm, lvl) :=
                 resolve_fields now old
                   {["gameRefs" := ArrayUnion [VRef (GameRef new)]]} ∪ old]>
               (levels db))).
Proof. intros Hold. simpl. rewrite Hold. reflexivity. Qed.

(** The stored form of a created document keeps every built field and has
    both timestamps. *)
Lemma created_doc_lookup (now : Z) (data : doc) (k : string) :
  resolve_fields now ∅
    (<["updatedAt" := ServerTimestamp]>
       (<["createdAt" := ServerTimestamp]> data)) !! k =
    if decide (k = "updatedAt") then Some (VTime now)
    else if decide (k = "createdAt") then Some (VTime now)
    else resolve now None <$> data !! k.
Proof.
  rewrite lookup_resolve_fields, lookup_empty.
  destruct (decide (k = "updatedAt")) as [->|Hu].
  { now rewrite lookup_insert_eq. }
  rewrite lookup_insert_ne by congruence.
  destruct (decide (k = "createdAt")) as [->|Hc].
  { now rewrite lookup_insert_eq. }
  now rewrite lookup_insert_ne by congruence.
Qed.


End Creation.

(** ** The diff over the tracked fields *)

Section Diff.
Import Firestore.

Lemma has_game_changed_true (stored data : doc) :
  has_game_changed stored data = true <-> some_tracked_field_differs stored data.
Proof.
  unfold has_game_changed, some_tracked_field_differs.
  change keys_to_check with tracked_fields.
  rewrite existsb_exists, Exists_exists.
  split; intros (key & Hin & Hne); exists key; split; auto;
    now apply list_elem_of_In.
Qed.

Lemma has_game_changed_false (stored data : doc) :
  has_game_changed stored data = false <-> tracked_fields_agree stored data.
Proof.
  unfold has_game_changed, tracked_fields_agree.
  change keys_to_check with tracked_fields.
  rewrite <- not_true_iff_false, existsb_exists, Forall_forall.
  split.
  - intros Hno key Hin.
    destruct (py_eq (dict_get stored key) (dict_get data key)) eqn:E; auto.
    exfalso. apply Hno. exists key. split; [now apply list_elem_of_In|].
    unfold py_ne. now rewrite E.
  - intros Hall (key & Hin & Hne). apply list_elem_of_In in Hin.
    specialize (Hall key Hin). unfold py_ne in Hne. rewrite Hall in Hne.
    discriminate.
Qed.

(** The name is no tracked field: the diff does not look at it. *)
Lemma has_game_changed_ignores_name (stored data : doc) (v : value) :
  has_game_changed (<["name" := v]> stored) data = has_game_changed stored data.
Proof.
  unfold has_game_changed, keys_to_check, dict_get. simpl.
  repeat (rewrite lookup_insert_ne by discriminate). reflexivity.
Qed.

End Diff.

(** ** Rows whose id the snapshot holds *)

Section ExistingGame.
Import Firestore.
Variable auto_id : nat -> string.

(** A document that agrees with the built data on the tracked fields has a
    field, since the built [gameModeId] is never [None]. *)
Lemma agree_truthy (game : row) (gm lvl : string) (stored data : doc) :
  build_game_data game gm lvl = Ok data ->
  tracked_fields_agree stored data ->
  dict_truthy stored = true.
Proof.
  intros Hb Hagree.
  apply build_game_data_inv in Hb as (? & ? & ? & ? & ? & _ & _ & _ & _ & _ & ->).
  unfold tracked_fields_agree, tracked_fields in Hagree.
  rewrite Forall_forall in Hagree.
  assert (Hk : py_eq (dict_get stored "gameModeId") (VStr gm) = true).
  { specialize (Hagree "gameModeId").
    unfold dict_get at 2 in Hagree.
    rewrite game_dict_gameModeId in Hagree. apply Hagree.
    repeat constructor. }
  unfold dict_get in Hk.
  destruct (stored !! "gameModeId") as [v|] eqn:E; [|discriminate].
  eapply dict_truthy_lookup; eauto.
Qed.

(** C10.  When a row of an existing game triggers an update (its document
    in the snapshot has a tracked field that differs), the single write
    added is an update of that game carrying the whole rebuilt data, the
    [name] of the row included, and a fresh [updatedAt]; committed, it
    leaves the row's name in the document.  Conversely, when the document
    in the snapshot agrees with the built data on every tracked field,
    whatever its name, the row adds no write: the name alone is never
    synchronised. *)
Theorem C10_update_carries_name_and_name_alone_is_ignored
    (changed_games same_games : gmap string doc) (game : row)
    (gm lvl : string) (changed same data : doc) (w : world)
    (db : store) (now : Z) :
  PyStr.truthy (row_id game) = true ->
  game !! "levelId" = Some lvl ->
  game !! "gameModeId" = Some gm ->
  build_game_data game gm lvl = Ok data ->
  changed_games !! row_id game = Some changed ->
  dict_truthy changed = true ->
  some_tracked_field_differs changed data ->
  same_games !! row_id game = Some same ->
  tracked_fields_agree same data ->
  exists name written stored db',
    game !! "name" = Some name
    /\ game_iteration auto_id changed_games game w =
         (Ok (game, true),
          World (generated w)
            (batch w ++ [WUpdate (GameRef (row_id game)) written])
            (printed w ++ [GameUpdated (row_id game)]))
    /\ written = <["updatedAt" := ServerTimestamp]> data
    /\ data ⊆ written
    /\ written !! "name" = Some (VStr name)
    /\ apply_write now (put_doc db (GameRef (row_id game)) changed)
         (WUpdate (GameRef (row_id game)) written) = Some db'
    /\ games db' !! row_id game = Some stored
    /\ stored !! "name" = Some (VStr name)
    /\ stored !! "updatedAt" = Some (VTime now)
    /\ game_iteration auto_id same_games game w =
         (Ok (game, true),
          World (generated w) (batch w)
            (printed w ++ [NoChangesDetected (row_id game)])).
Proof.
  intros Hid Hl Hg Hb Hch Htr Hdiff Hsame Hagree.
  pose proof (agree_truthy _ _ _ _ _ Hb Hagree) as Htr'.
  apply has_game_changed_true in Hdiff.
  apply has_game_changed_false in Hagree.
  pose proof Hb as Hinv.
  apply build_game_data_inv in Hinv
    as (name & ins & tl & ab & tlv & Hn & _ & _ & _ & _ & Hdata).
  assert (Hname : data !! "name" = Some (VStr name))
    by (rewrite Hdata; apply game_dict_name).
  assert (Hnone : data !! "updatedAt" = None)
    by (rewrite Hdata; apply game_dict_updatedAt).
  exists name, (<["updatedAt" := ServerTimestamp]> data).
  eexists _, _.
  split; [exact Hn|]. split.
  { apply game_iteration_of_step.
    rewrite (game_step_found _ _ _ gm lvl changed data) by auto.
    rewrite Hdiff. reflexivity. }
  split; [reflexivity|].
  split; [now apply insert_subseteq|].
  split; [now rewrite lookup_insert_ne by discriminate|].
  split.
  { unfold apply_write. rewrite get_put_doc_eq. reflexivity. }
  split; [simpl; apply lookup_insert_eq|].
  split.
  { rewrite lookup_updated, lookup_insert_ne by discriminate.
    rewrite Hname. reflexivity. }
  split.
  { rewrite lookup_updated, lookup_insert_eq. reflexivity. }
  apply game_iteration_of_step.
  rewrite (game_step_found _ _ _ gm lvl same data) by auto.
  rewrite Hagree. reflexivity.
Qed.

End ExistingGame.

Lemma C10_update_witness :
  exists name written stored db',
    renamed_row !! "name" = Some name
    /\ game_iteration example_auto_id {["g1" := g1_other_description]}
         renamed_row start =
         (Ok (renamed_row, true),
          World (generated start)
            (batch start
               ++ [Firestore.WUpdate (Firestore.GameRef (row_id renamed_row))
                     written])
            (printed start ++ [GameUpdated (row_id renamed_row)]))
    /\ written = <["updatedAt" := Firestore.ServerTimestamp]> renamed_data
    /\ renamed_data ⊆ written
    /\ written !! "name" = Some (Firestore.VStr name)
    /\ Firestore.apply_write 7
         (Firestore.put_doc example_db
            (Firestore.GameRef (row_id renamed_row)) g1_other_description)
         (Firestore.WUpdate (Firestore.GameRef (row_id renamed_row)) written)
       = Some db'
    /\ Firestore.games db' !! row_id renamed_row = Some stored
    /\ stored !! "name" = Some (Firestore.VStr name)
    /\ stored !! "updatedAt" = Some (Firestore.VTime 7)
    /\ game_iteration example_auto_id {["g1" := g1_other_name]}
         renamed_row start =
         (Ok (renamed_row, true),
          World (generated start) (batch start)
            (printed start ++ [NoChangesDetected (row_id renamed_row)])).
Proof.
  apply (C10_update_carries_name_and_name_alone_is_ignored example_auto_id
           {["g1" := g1_other_description]} {["g1" := g1_other_name]}
           renamed_row "gm1" "lvl1" g1_other_description g1_other_name
           renamed_data start example_db 7).
  - reflexivity.
  - reflexivity.
  - reflexivity.
  - reflexivity.
  - reflexivity.
  - reflexivity.
  - apply Exists_cons_hd. reflexivity.
  - reflexivity.
  - unfold tracked_fields_agree, tracked_fields.
    repeat (constructor; [reflexivity|]). constructor.
Defined.

(** The diff decides the update, for a document of the snapshot that has a
    field: the row adds the update of its game exactly when a tracked field
    differs, and nothing otherwise. *)
Lemma existing_row_updated_iff_differs (auto_id : nat -> string)
    (existing_games : gmap string Firestore.doc) (game : row)
    (gm lvl : string) (stored data : Firestore.doc) (w : world) :
  PyStr.truthy (row_id game) = true ->
  game !! "levelId" = Some lvl ->
  game !! "gameModeId" = Some gm ->
  existing_games !! row_id game = Some stored ->
  dict_truthy stored = true ->
  build_game_data game gm lvl = Ok data ->
  (some_tracked_field_differs stored data ->
   batch (snd (game_iteration auto_id existing_games game w))
   = batch w ++ [update_write (row_id game) data])
  /\ (tracked_fields_agree stored data ->
      batch (snd (game_iteration auto_id existing_games game w)) = batch w).
Proof.
  intros Hid Hl Hg Hex Htr Hb.
  rewrite (game_iteration_of_step _ _ _ _ _ _
             (game_step_found auto_id _ _ gm lvl stored data w Hid Hl Hg Hex Htr Hb)).
  split; intros H.
  - apply has_game_changed_true in H. rewrite H. reflexivity.
  - apply has_game_changed_false in H. rewrite H. reflexivity.
Qed.

(** C1.  The claim fails on a document of the snapshot that has no field: the
    script tests [if existing_game:], an empty [dict] is false, and the row is
    handled as if its id were not found.  Here the snapshot holds [g1] with
    no field, the data built from the row differs from it on a tracked
    field, and yet the iteration adds no write and prints "not found". *)
Lemma C1_empty_document_is_not_diffed :
  let existing_games : gmap string Firestore.doc := {["g1" := ∅]} in
  build_game_data renamed_row "gm1" "lvl1" = Ok renamed_data
  /\ existing_games !! row_id renamed_row = Some ∅
  /\ some_tracked_field_differs ∅ renamed_data
  /\ game_iteration example_auto_id existing_games renamed_row start =
       (Ok (renamed_row, true), World 0 [] [GameNotFound "g1"]).
Proof.
  cbv zeta. split; [reflexivity|].
  split; [reflexivity|].
  split; [apply Exists_cons_hd; reflexivity|].
  reflexivity.
Qed.

Section IterationBatch.
Import Firestore.
Variable auto_id : nat -> string.

(** The writes an iteration adds, whatever its outcome. *)
Lemma game_iteration_batch (existing_games : gmap string doc)
    (game : row) (w : world) :
  exists ws,
    batch (snd (game_iteration auto_id existing_games game w)) = batch w ++ ws
    /\ (ws = []
        \/ (PyStr.truthy (row_id game) = false
            /\ exists gm lvl data,
                 game !! "levelId" = Some lvl
                 /\ game !! "gameModeId" = Some gm
                 /\ build_game_data game gm lvl = Ok data
                 /\ ws = creation_writes (auto_id (generated w)) gm lvl data)
        \/ (PyStr.truthy (row_id game) = true
            /\ exists data, ws = [update_write (row_id game) data])).
Proof.
  destruct (game_iteration auto_id existing_games game w)
    as [[[g kept]|e] w'] eqn:Hit; simpl.
  - apply game_iteration_ok in Hit as (ws & Hdo & Hb).
    exists ws. split; [exact Hb|].
    inversion Hdo; subst; auto.
    + right; left. split; [assumption|]. exists gm, lvl, data. auto.
    + right; right. split; [assumption|]. exists data. reflexivity.
  - apply game_iteration_raise in Hit. exists []. rewrite app_nil_r. auto.
Qed.

End IterationBatch.

Section CreationClaim.
Import Firestore.
Variable auto_id : nat -> string.

(** C2, as stated, fails: not every game row with no id gives a new
    document.  A row with no id that lacks a column [build_game_data] reads
    is skipped, and one whose [timeLimit] is no float literal ends the run:
    in both cases the id is generated, nothing is added to the batch and no
    id is written into the row. *)
Lemma C2_row_without_id_may_create_nothing :
  PyStr.truthy (row_id (game_row_without_instructions "" "Find C")) = false
  /\ game_iteration example_auto_id (Firestore.games example_db)
       (game_row_without_instructions "" "Find C") start
     = (Ok (game_row_without_instructions "" "Find C", false),
        World 1 []
          [MissingField "instructions"
             (game_row_without_instructions "" "Find C")])
  /\ PyStr.truthy (row_id bad_time_limit_row) = false
  /\ game_iteration example_auto_id (Firestore.games example_db)
       bad_time_limit_row start
     = (Raise ValueError, World 1 [] [])
  /\ batch (snd (run example_auto_id example_db 7 [bad_time_limit_row]
                   example_structure))
     = batch (snd (structure_loop example_db example_structure start))
  /\ committed_store (run example_auto_id example_db 7 [bad_time_limit_row]
                        example_structure) = None.
Proof. repeat split; reflexivity. Qed.

(** C2, amended.  For a game row with no id that has its [levelId] and
    [gameModeId] columns and whose data can be built (its [name],
    [instructions], [timeLimit] and [answerBank] columns are in place and
    its [timeLimit] is empty or a float literal), when the id Firestore
    generates is not empty, the iteration adds to the batch exactly two writes:
    the creation of one new game document, carrying the creation and update
    timestamps, and one [ArrayUnion] of the reference to that document into
    [gameRefs] of the level the row names; it writes the new id into the
    row.  Committed, the union appends the reference exactly when the array
    does not hold it, so no duplicate arises; and a later iteration on the
    row with the id now assigned adds no creation and no append, at most an
    update of that game document. *)
Theorem C2_row_without_id_creates_and_links
    (existing_games : gmap string doc) (game : row) (gm lvl : string)
    (data : doc) (w : world) (db : store) (level : doc) (now : Z)
    (rerun_id : nat -> string) (rerun_games : gmap string doc)
    (rerun_w : world) :
  PyStr.truthy (row_id game) = false ->
  game !! "levelId" = Some lvl ->
  game !! "gameModeId" = Some gm ->
  build_game_data game gm lvl = Ok data ->
  auto_id (generated w) <> "" ->
  let new := auto_id (generated w) in
  exists db' stored ws,
    game_iteration auto_id existing_games game w =
      (Ok (<["id" := new]> game, true),
       World (S (generated w))
         (batch w
            ++ [WSet (GameRef new)
                  (<["updatedAt" := ServerTimestamp]>
                     (<["createdAt" := ServerTimestamp]> data));
                WUpdate (LevelRef gm lvl)
                  {["gameRefs" := ArrayUnion [VRef (GameRef new)]]}])
         (printed w ++ [NewGameCreated new]))
    /\ (<["id" := new]> game) !! "id" = Some new
    /\ commit now (creation_writes new gm lvl data)
         (put_doc db (LevelRef gm lvl) level) = Some db'
    /\ games db' !! new = Some stored
    /\ stored !! "createdAt" = Some (VTime now)
    /\ stored !! "updatedAt" = Some (VTime now)
    /\ level_refs db' gm lvl =
         (if existsb (value_eqb (VRef (GameRef new))) (refs_of (Some level))
          then refs_of (Some level)
          else refs_of (Some level) ++ [VRef (GameRef new)])
    /\ batch (snd (game_iteration rerun_id rerun_games
                     (<["id" := new]> game) rerun_w))
       = batch rerun_w ++ ws
    /\ (ws = [] \/ exists d, ws = [WUpdate (GameRef new) d]).
Proof.
  intros Hid Hl Hg Hb Hnew new.
  assert (Hlevel : levels (put_doc db (LevelRef gm lvl) level) !! (gm, lvl)
                   = Some level) by apply lookup_insert_eq.
  assert (Hrow : row_id (<["id" := new]> game) = new).
  { unfold row_id. now rewrite lookup_insert_eq. }
  assert (Htruthy : PyStr.truthy new = true) by now apply truthy_nonempty.
  destruct (game_iteration_batch rerun_id rerun_games
              (<["id" := new]> game) rerun_w) as (ws & Hws & Hshape).
  rewrite Hrow in Hshape.
  eexists _, _, ws.
  split.
  { apply game_iteration_of_step. now apply game_step_create. }
  split; [apply lookup_insert_eq|].
  split; [apply (commit_creation_writes now _ new gm lvl data level Hlevel)|].
  cbn [games levels].
  split; [apply lookup_insert_eq|].
  rewrite !created_doc_lookup.
  repeat (destruct (decide _) as [?|_]; [discriminate|]).
  repeat (destruct (decide _) as [_|?]; [|congruence]).
  split; [reflexivity|]. split; [reflexivity|].
  split.
  { unfold level_refs. cbn [levels]. rewrite lookup_insert_eq.
    rewrite refs_of_union. apply array_union_one. }
  split; [exact Hws|].
  destruct Hshape as [->|[[Hfalse _]|[_ (d & ->)]]].
  - now left.
  - congruence.
  - right. unfold update_write. eauto.
Qed.

End CreationClaim.

Lemma C2_creation_witness :
  let new := example_auto_id (generated start) in
  exists db' stored ws,
    game_iteration example_auto_id ∅ example_row start =
      (Ok (<["id" := new]> example_row, true),
       World (S (generated start))
         (batch start
            ++ [Firestore.WSet (Firestore.GameRef new)
                  (<["updatedAt" := Firestore.ServerTimestamp]>
                     (<["createdAt" := Firestore.ServerTimestamp]>
                        example_data));
                Firestore.WUpdate (Firestore.LevelRef "gm1" "lvl1")
                  {["gameRefs" :=
                      Firestore.ArrayUnion
                        [Firestore.VRef (Firestore.GameRef new)]]}])
         (printed start ++ [NewGameCreated new]))
    /\ (<["id" := new]> example_row) !! "id" = Some new
    /\ Firestore.commit 7 (creation_writes new "gm1" "lvl1" example_data)
         (Firestore.put_doc example_db (Firestore.LevelRef "gm1" "lvl1")
            (level_doc "One" "first level" (Firestore.VInt 60) []))
       = Some db'
    /\ Firestore.games db' !! new = Some stored
    /\ stored !! "createdAt" = Some (Firestore.VTime 7)
    /\ stored !! "updatedAt" = Some (Firestore.VTime 7)
    /\ level_refs db' "gm1" "lvl1" =
         (if existsb
               (Firestore.value_eqb (Firestore.VRef (Firestore.GameRef new)))
               (refs_of (Some (level_doc "One" "first level"
                                 (Firestore.VInt 60) [])))
          then refs_of (Some (level_doc "One" "first level"
                                (Firestore.VInt 60) []))
          else refs_of (Some (level_doc "One" "first level"
                                (Firestore.VInt 60) []))
               ++ [Firestore.VRef (Firestore.GameRef new)])
    /\ batch (snd (game_iteration example_auto_id ∅
                     (<["id" := new]> example_row) start))
       = batch start ++ ws
    /\ (ws = [] \/ exists d, ws = [Firestore.WUpdate (Firestore.GameRef new) d]).
Proof.
  apply (C2_row_without_id_creates_and_links example_auto_id ∅ example_row
           "gm1" "lvl1" example_data start example_db
           (level_doc "One" "first level" (Firestore.VInt 60) []) 7
           example_auto_id ∅ start).
  - reflexivity.
  - reflexivity.
  - reflexivity.
  - reflexivity.
  - discriminate.
Defined.

(** ** The structure pass *)

Section StructurePass.
Import Firestore.

Lemma batch_add_run (wr : write) (w : world) :
  batch_add wr w = (Ok tt, World (generated w) (batch w ++ [wr]) (printed w)).
Proof. reflexivity. Qed.

Lemma print_run (m : message) (w : world) :
  print m w = (Ok tt, World (generated w) (batch w) (printed w ++ [m])).
Proof. reflexivity. Qed.

Lemma bind_batch_add {B} (wr : write) (k : unit -> M B) (w : world) :
  bind (batch_add wr) k w =
    k tt (World (generated w) (batch w ++ [wr]) (printed w)).
Proof. reflexivity. Qed.

Lemma bind_print {B} (m : message) (k : unit -> M B) (w : world) :
  bind (print m) k w =
    k tt (World (generated w) (batch w) (printed w ++ [m])).
Proof. reflexivity. Qed.

Lemma bind_assoc {A B C} (m : M A) (f : A -> M B) (g : B -> M C) (w : world) :
  bind (bind m f) g w = bind m (fun x => bind (f x) g) w.
Proof. unfold bind. destruct (m w) as [[a|e] w1]; reflexivity. Qed.

(** The game mode write of a structure row, run before the level fields
    are read. *)
Lemma structure_mode_write {B} (db : store) (gm name description : string)
    (k : unit -> M B) (w : world) :
  exists ms,
    bind (if doc_exists db (GameModeRef gm)
          then batch_update (GameModeRef gm)
                 (<["name" := VStr name]>
                    (<["description" := VStr description]> ∅))
          else (batch_set (GameModeRef gm)
                  (<["name" := VStr name]>
                     (<["description" := VStr description]> ∅));;
                print (CreatingGameMode gm))) k w =
      k tt (World (generated w)
              (batch w ++ [mode_write db gm name description])
              (printed w ++ ms)).
Proof.
  unfold mode_write, batch_update, batch_set.
  destruct (doc_exists db (GameModeRef gm)).
  - exists []. rewrite bind_batch_add, app_nil_r. reflexivity.
  - exists [CreatingGameMode gm].
    rewrite bind_assoc, bind_batch_add, bind_print. reflexivity.
Qed.

Lemma structure_level_write (db : store) (gm lvl : string) (fields : doc)
    (w : world) :
  exists ms,
    (if doc_exists db (LevelRef gm lvl)
     then batch_update (LevelRef gm lvl) fields
     else
       (batch_set (LevelRef gm lvl)
          (<["gameRefs" :=
               default (VList [])
                 (default ∅ (get_doc db (LevelRef gm lvl)) !! "gameRefs")]>
             fields);;
        print (CreatingLevel lvl gm))) w =
      (Ok tt,
       World (generated w) (batch w ++ [level_write db gm lvl fields])
         (printed w ++ ms)).
Proof.
  unfold level_write, batch_update, batch_set.
  destruct (doc_exists db (LevelRef gm lvl)).
  - exists []. rewrite batch_add_run, app_nil_r. reflexivity.
  - exists [CreatingLevel lvl gm].
    rewrite bind_batch_add, print_run. reflexivity.
Qed.

Local Ltac run_getitem H row key v Hv :=
  let E := fresh "E" in
  destruct (getitem_cases row key) as [(v & Hv & E)|[Hv E]];
  [rewrite (bind_lift_Ok _ _ _ _ E) in H
  |rewrite (bind_lift_Raise _ _ _ _ E) in H].

(** What a structure row that raises nothing adds to the batch. *)
Lemma structure_step_ok (db : store) (structure : row) (w w' : world) :
  structure_step db structure w = (Ok tt, w') ->
  exists gm lvl name description level_name level_description suggested sug,
    structure !! "id" = Some gm
    /\ structure !! "levelId" = Some lvl
    /\ structure !! "name" = Some name
    /\ structure !! "description" = Some description
    /\ structure !! "levelName" = Some level_name
    /\ structure !! "levelDescription" = Some level_description
    /\ structure !! "levelSuggestedTimeLimit" = Some suggested
    /\ suggested_of suggested = Ok sug
    /\ batch w' =
         batch w ++ [mode_write db gm name description;
                     level_write db gm lvl
                       (level_fields level_name level_description sug)].
Proof.
  unfold structure_step. intros H.
  run_getitem H structure "id" gm Hgm; [|discriminate].
  run_getitem H structure "levelId" lvl Hlvl; [|discriminate].
  run_getitem H structure "name" name Hname; [|discriminate].
  run_getitem H structure "description" description Hdesc; [|discriminate].
  destruct (structure_mode_write db gm name description
              (fun _ =>
                 level_name <- lift (getitem structure "levelName");;
                 level_description <-
                   lift (getitem structure "levelDescription");;
                 suggested <-
                   lift (getitem structure "levelSuggestedTimeLimit");;
                 sugTimeLimit <- lift (suggested_of suggested);;
                 if doc_exists db (LevelRef gm lvl)
                 then batch_update (LevelRef gm lvl)
                        (level_fields level_name level_description
                           sugTimeLimit)
                 else
                   (batch_set (LevelRef gm lvl)
                      (<["gameRefs" :=
                           default (VList [])
                             (default ∅ (get_doc db (LevelRef gm lvl))
                                !! "gameRefs")]>
                         (level_fields level_name level_description
                            sugTimeLimit));;
                    print (CreatingLevel lvl gm))) w) as (ms & Hmode).
  unfold level_fields in Hmode.
  rewrite Hmode in H. clear Hmode.
  run_getitem H structure "levelName" ln Hln; [|discriminate].
  run_getitem H structure "levelDescription" ld Hld; [|discriminate].
  run_getitem H structure "levelSuggestedTimeLimit" sg Hsg; [|discriminate].
  destruct (suggested_of sg) as [sug|e] eqn:Hsug;
    [rewrite (bind_lift_Ok _ sug) in H by reflexivity
    |rewrite (bind_lift_Raise _ e) in H by reflexivity; discriminate].
  destruct (structure_level_write db gm lvl (level_fields ln ld sug)
              (World (generated w)
                 (batch w ++ [mode_write db gm name description])
                 (printed w ++ ms))) as (ms' & Hlevel).
  unfold level_fields in Hlevel at 1 2.
  rewrite Hlevel in H. injection H as <-. cbn [batch].
  rewrite <- app_assoc.
  exists gm, lvl, name, description, ln, ld, sg, sug. auto 12.
Qed.

Lemma mode_write_no_game (db : store) (gm name description : string) :
  targets_no_game (mode_write db gm name description).
Proof. unfold mode_write. destruct (doc_exists _ _); reflexivity. Qed.

Lemma level_write_no_game (db : store) (gm lvl : string) (fields : doc) :
  targets_no_game (level_write db gm lvl fields).
Proof. unfold level_write. destruct (doc_exists _ _); reflexivity. Qed.

Local Ltac no_more :=
  exists []; rewrite app_nil_r; split; [reflexivity|constructor].

Local Ltac one_more :=
  cbn [batch]; eexists; split;
  [reflexivity | repeat constructor; apply mode_write_no_game].

(** Whatever its outcome, a structure row adds no write to a game. *)
Lemma structure_step_batch (db : store) (structure : row) (w : world) :
  exists ws,
    batch (snd (structure_step db structure w)) = batch w ++ ws
    /\ Forall targets_no_game ws.
Proof.
  destruct (structure_step db structure w) as [[[]|e] w'] eqn:H; cbn [snd].
  - apply structure_step_ok in H
      as (gm & lvl & n & d & ln & ld & sg & sug & _ & _ & _ & _ & _ & _ & _ & _ & ->).
    eexists. split; [reflexivity|].
    repeat constructor;
      [apply mode_write_no_game | apply level_write_no_game].
  - unfold structure_step in H.
    run_getitem H structure "id" gm Hgm;
      [|injection H as <- <-; no_more].
    run_getitem H structure "levelId" lvl Hlvl;
      [|injection H as <- <-; no_more].
    run_getitem H structure "name" name Hname;
      [|injection H as <- <-; no_more].
    run_getitem H structure "description" description Hdesc;
      [|injection H as <- <-; no_more].
    match type of H with
    | bind _ ?k w = _ =>
        destruct (structure_mode_write db gm name description k w)
          as (ms & Hmode)
    end.
    rewrite Hmode in H. clear Hmode.
    run_getitem H structure "levelName" ln Hln;
      [|injection H as <- <-; one_more].
    run_getitem H structure "levelDescription" ld Hld;
      [|injection H as <- <-; one_more].
    run_getitem H structure "levelSuggestedTimeLimit" sg Hsg;
      [|injection H as <- <-; one_more].
    destruct (suggested_of sg) as [sug|e'] eqn:Hsug;
      [rewrite (bind_lift_Ok _ sug) in H by reflexivity
      |rewrite (bind_lift_Raise _ e') in H by reflexivity;
       injection H as <- <-; one_more].
    match type of H with
    | _ ?w1 = _ =>
        destruct (structure_level_write db gm lvl (level_fields ln ld sug) w1)
          as (ms' & Hlevel)
    end.
    unfold level_fields in Hlevel at 1 2.
    rewrite Hlevel in H. discriminate.
Qed.

Lemma structure_loop_batch (db : store) (structure_csv : list row) (w : world) :
  exists ws,
    batch (snd (structure_loop db structure_csv w)) = batch w ++ ws
    /\ Forall targets_no_game ws.
Proof.
  revert w. induction structure_csv as [|structure rest IH]; intros w; simpl.
  - exists []. rewrite app_nil_r. split; [reflexivity|constructor].
  - destruct (structure_step_batch db structure w) as (ws1 & Hb1 & Hf1).
    unfold bind.
    destruct (structure_step db structure w) as [[[]|e] w1]; simpl in *.
    + destruct (IH w1) as (ws2 & Hb2 & Hf2).
      exists (ws1 ++ ws2). rewrite Hb2, Hb1, app_assoc.
      split; [reflexivity | now apply Forall_app].
    + eauto.
Qed.

End StructurePass.

(** ** A structure row for a level that exists *)

Section ExistingLevel.
Import Firestore.




Lemma level_fields_lookup (name description : string) (sug : value) :
  level_fields name description sug !! "name" = Some (VStr name)
  /\ level_fields name description sug !! "description" = Some (VStr description)
  /\ level_fields name description sug !! "sugTimeLimit" = Some sug
  /\ level_fields name description sug !! "gameRefs" = None.
Proof.
  unfold level_fields.
  repeat split;
    repeat (rewrite lookup_insert_ne by discriminate);
    rewrite ?lookup_insert_eq, ?lookup_empty; reflexivity.
Qed.

Lemma suggested_of_plain (suggested : string) (sug : value) :
  suggested_of suggested = Ok sug ->
  forall now old, resolve now old sug = sug.
Proof.
  unfold suggested_of, py_int. intros H now old.
  destruct (PyStr.isdigit suggested).
  - destruct (PyNum.int_of_digits suggested); [|discriminate].
    injection H as <-. reflexivity.
  - injection H as <-. reflexivity.
Qed.



End ExistingLevel.


(** The rerun of the specification's example: only the suggested time limit
    of [lvl1] changes, from 60 to 90, and its [gameRefs] stay. *)
Example rerun_changes_suggested_time_limit_only :
  exists db',
    Firestore.commit 7 (batch (snd (structure_step example_db lvl1_row_90 start)))
      example_db = Some db'
    /\ Firestore.levels db' !! ("gm1", "lvl1")
       = Some (level_doc "One" "first level" (Firestore.VInt 90)
                 [Firestore.VRef (Firestore.GameRef "g1")]).
Proof. eexists. split; reflexivity. Qed.

(** ** A whole run *)

Section WholeRun.
Import Firestore.
Variable auto_id : nat -> string.

(** The stages of a run that reaches its end. *)
Lemma run_finished (db : store) (now : Z) (games_csv structure_csv : list row)
    (db' : store) (file : csv_file) (w : world) :
  run auto_id db now games_csv structure_csv = (Ok (Some (db', file)), w) ->
  exists w_s w_g rows' updated,
    structure_loop db structure_csv start = (Ok tt, w_s)
    /\ game_loop auto_id (games db) games_csv w_s = (Ok (rows', updated), w_g)
    /\ commit now (batch w_g) db = Some db'
    /\ records file = updated
    /\ batch w = batch w_g.
Proof.
  unfold run, upload_games_from_csv.
  destruct games_csv as [|g gs]; [discriminate|].
  destruct structure_csv as [|s ss]; [discriminate|].
  unfold bind at 1.
  destruct (structure_loop db (s :: ss) start) as [[[]|e] w_s] eqn:Hs;
    [|discriminate].
  unfold fetch_existing_games. unfold bind at 1.
  destruct (game_loop auto_id (games db) (g :: gs) w_s)
    as [[[rows' updated]|e] w_g] eqn:Hg; [|discriminate].
  unfold bind at 1, batch_commit.
  destruct (commit now (batch w_g) db) as [db1|] eqn:Hc; [|discriminate].
  rewrite bind_print. unfold bind, lift, write_csv. cbn [fst snd].
  destruct (forallb _ updated); [|discriminate].
  unfold ret. intros [= <- <- <-]. exists w_s, w_g, rows', updated.
  repeat split; auto.
Qed.

(** A not-found row that has its [levelId] and [gameModeId] columns is
    kept by the loop. *)
Lemma loop_keeps_unknown_id (n n' : nat) (games_csv updated : list row)
    (ws : list write) (existing_games : gmap string doc) (game : row)
    (gm lvl : string) :
  loop_does auto_id existing_games n games_csv updated n' ws ->
  game ∈ games_csv ->
  PyStr.truthy (row_id game) = true ->
  existing_games !! row_id game = None ->
  game !! "levelId" = Some lvl ->
  game !! "gameModeId" = Some gm ->
  game ∈ updated.
Proof.
  intros Hloop Hin Hid Hex Hl Hg.
  induction Hloop as [|n g rest g' kept n1 ws1 upd n2 ws2 Hit Hrest IH].
  - inversion Hin.
  - apply elem_of_cons in Hin as [<-|Hin].
    + inversion Hit; subst; try congruence.
      * left.
      * exfalso.
        match goal with
        | H : raises _ _ _ |- _ =>
            destruct H as [[? _]|[[? _]|(gm' & lvl' & _ & _ & _ & [?|(ex & ? & _)])]]
        end; congruence.
    + destruct kept; [right|]; auto.
Qed.

End WholeRun.

(** C4.  The claim fails on structure rows: the loop over the structure rows
    has no [try], so a structure row that lacks a column the script reads
    raises [KeyError] out of the run.  Here the structure file has no
    [levelName] column: the run ends with that exception at its first row,
    nothing is committed and no file is written, although the game row is
    well formed. *)
Lemma C4_structure_row_missing_field_aborts :
  let r := run example_auto_id example_db 7 [renamed_row]
             [structure_row_without_level_name] in
  structure_row_without_level_name !! "levelName" = None
  /\ fst r = Raise (KeyError "levelName")
  /\ committed_store r = None
  /\ written_rows r = None
  /\ printed (snd r) = [].
Proof. repeat split; reflexivity. Qed.

(** By contrast a game row that lacks a column the script reads is skipped
    with a warning and the run goes on: here the games file has no
    [instructions] column; the row without id and the row of the existing
    game [g1] are skipped, the row with the unknown id, whose data is never
    built, is kept, and the run commits and rewrites the file. *)
Example game_row_missing_field_is_skipped :
  let r := run example_auto_id example_db 7
             [game_row_without_instructions "" "Find C";
              game_row_without_instructions "g1" "Find A";
              game_row_without_instructions "ghost" "Find D"]
             example_structure in
  written_rows r = Some [game_row_without_instructions "ghost" "Find D"]
  /\ printed (snd r)
     = [MissingField "instructions" (game_row_without_instructions "" "Find C");
        MissingField "instructions" (game_row_without_instructions "g1" "Find A");
        GameNotFound "ghost"; AllCommitted].
Proof. split; reflexivity. Qed.

(** A [timeLimit] that is no number is not caught: [float] raises
    [ValueError] out of the run, and nothing is committed. *)
Example bad_time_limit_aborts :
  let r := run example_auto_id example_db 7 [bad_time_limit_row; renamed_row]
             example_structure in
  fst r = Raise ValueError /\ committed_store r = None /\ written_rows r = None.
Proof. repeat split; reflexivity. Qed.

(** The row of the specification's example in a whole run: the game is
    created under a generated id, linked from [lvl1] after [g1], and the row
    is written back with the id. *)
Example example_row_in_a_run :
  let r := run example_auto_id example_db 7 [example_row] example_structure in
  written_rows r = Some [<["id" := "#"]> example_row]
  /\ field_after r "#" "answerBank"
     = Some (Firestore.VList [Firestore.VStr "A"; Firestore.VStr "a"])
  /\ field_after r "#" "timeLimit" = Some (Firestore.VFloat thirty)
  /\ refs_after r "gm1" "lvl1"
     = Some [Firestore.VRef (Firestore.GameRef "g1");
             Firestore.VRef (Firestore.GameRef "#")].
Proof. repeat split; reflexivity. Qed.

(** ** The rewritten games file *)

(** C5, as stated, fails: a game row whose id the snapshot does not hold is
    not dropped.  Here the games file holds one row, with the id [ghost] that
    no document has; the run ends normally and the rewritten file holds that
    row. *)
Lemma C5_unknown_id_row_is_kept_example :
  Firestore.games example_db !! row_id ghost_row = None
  /\ written_rows (run example_auto_id example_db 7 [ghost_row] example_structure)
     = Some [ghost_row].
Proof. split; reflexivity. Qed.

(** C5, amended.  In a run that reaches its end, every game row whose id is
    present and absent from the snapshot, and that has its [levelId] and
    [gameModeId] columns, is in the rewritten games file, unchanged. *)
Theorem C5_unknown_id_row_is_written_back
    (auto_id : nat -> string) (db db' : Firestore.store) (now : Z)
    (games_csv structure_csv : list row) (file : csv_file) (w : world)
    (game : row) (gm lvl : string) :
  run auto_id db now games_csv structure_csv = (Ok (Some (db', file)), w) ->
  game ∈ games_csv ->
  PyStr.truthy (row_id game) = true ->
  Firestore.games db !! row_id game = None ->
  game !! "levelId" = Some lvl ->
  game !! "gameModeId" = Some gm ->
  game ∈ records file.
Proof.
  intros Hrun Hin Hid Hex Hl Hg.
  apply run_finished in Hrun
    as (w_s & w_g & rows' & updated & _ & Hloop & _ & -> & _).
  apply game_loop_ok in Hloop as (ws & Hloop & _).
  eapply loop_keeps_unknown_id; eauto.
Qed.

Lemma C5_written_back_witness : ghost_row ∈ [ghost_row].
Proof.
  apply (C5_unknown_id_row_is_written_back example_auto_id example_db
           (Firestore.Store (Firestore.games example_db)
              (Firestore.gameModes example_db)
              (<[("gm1", "lvl1") := level_doc "One" "first level"
                                      (Firestore.VInt 60)
                                      [Firestore.VRef (Firestore.GameRef "g1")]]>
                 (<[("gm1", "lvl2") := level_doc "Two" "second level"
                                         Firestore.VNone []]>
                    (Firestore.levels example_db))))
           7 [ghost_row] example_structure
           (CsvFile (dom ghost_row) [ghost_row])
           (World 0
              (batch (snd (run example_auto_id example_db 7 [ghost_row]
                             example_structure)))
              [GameNotFound "ghost"; AllCommitted])
           ghost_row "gm1" "lvl1").
  - reflexivity.
  - apply list_elem_of_here.
  - reflexivity.
  - reflexivity.
  - reflexivity.
  - reflexivity.
Defined.

(** ** The [gameRefs] arrays across a run *)

Section GameRefs.
Import Firestore.
Variable auto_id : nat -> string.

Lemma commit_app (now : Z) (a b : list write) (db : store) :
  commit now (a ++ b) db =
    match commit now a db with
    | Some db1 => commit now b db1
    | None => None
    end.
Proof.
  revert db. induction a as [|wr a IH]; intros db; simpl; [reflexivity|].
  destruct (apply_write now db wr); [apply IH | reflexivity].
Qed.

Lemma created_for_app (gm lvl : string) (a b : list write) :
  created_for gm lvl (a ++ b) = created_for gm lvl a ++ created_for gm lvl b.
Proof. unfold created_for. apply omap_app. Qed.

Lemma structure_loop_ok (db : store) (structure_csv : list row) (w w' : world) :
  structure_loop db structure_csv w = (Ok tt, w') ->
  exists ws, batch w' = batch w ++ ws /\ Forall (structure_write db) ws.
Proof.
  revert w. induction structure_csv as [|s rest IH]; intros w; simpl.
  - unfold ret. intros [= <-]. exists []. rewrite app_nil_r.
    split; [reflexivity|constructor].
  - unfold bind.
    destruct (structure_step db s w) as [[[]|e] w1] eqn:Hstep; [|discriminate].
    intros Hrest. apply IH in Hrest as (ws2 & Hb2 & Hf2).
    pose proof Hstep as Hstep'.
    apply structure_step_ok in Hstep
      as (gm & lvl & n & d & ln & ld & sg & sug
          & _ & _ & _ & _ & _ & _ & _ & Hsug & Hb1).
    eexists. rewrite Hb2, Hb1, <- app_assoc. split; [reflexivity|].
    apply Forall_app. split; [|exact Hf2].
    constructor; [|constructor; [|constructor]].
    + left. eauto.
    + right. exists gm, lvl, ln, ld, sug.
      split; [apply (suggested_of_plain _ _ Hsug)|reflexivity].
Qed.

(** A write of the structure pass leaves every game and every [gameRefs]
    array as the run found them. *)
Lemma apply_structure_write (now : Z) (db dbi dbi' : store) (wr : write) :
  structure_write db wr ->
  apply_write now dbi wr = Some dbi' ->
  games dbi = games db ->
  (forall gm lvl, level_refs dbi gm lvl = level_refs db gm lvl) ->
  games dbi' = games db
  /\ (forall gm lvl, level_refs dbi' gm lvl = level_refs db gm lvl).
Proof.
  intros Hwr Happ Hgames Hrefs.
  destruct Hwr as [(gm & n & d & ->)|(gm & lvl & n & d & sug & Hsug & ->)].
  - unfold mode_write in Happ.
    destruct (doc_exists db (GameModeRef gm)); simpl in Happ.
    + destruct (gameModes dbi !! gm); [|discriminate].
      injection Happ as <-. split; [exact Hgames | exact Hrefs].
    + injection Happ as <-. split; [exact Hgames | exact Hrefs].
  - destruct (level_fields_lookup n d sug) as (_ & _ & _ & Fg).
    unfold level_write in Happ.
    destruct (doc_exists db (LevelRef gm lvl)) eqn:Hex; simpl in Happ.
    + destruct (levels dbi !! (gm, lvl)) as [old|] eqn:Hold; [|discriminate].
      injection Happ as <-. split; [exact Hgames|].
      intros gm' lvl'. rewrite <- Hrefs. unfold level_refs. cbn [levels].
      destruct (decide ((gm, lvl) = (gm', lvl'))) as [<-|Hne].
      * rewrite lookup_insert_eq, Hold. unfold refs_of.
        now rewrite lookup_updated, Fg.
      * now rewrite lookup_insert_ne.
    + injection Happ as <-. split; [exact Hgames|].
      intros gm' lvl'. unfold level_refs. cbn [levels].
      destruct (decide ((gm, lvl) = (gm', lvl'))) as [<-|Hne].
      * rewrite lookup_insert_eq.
        unfold doc_exists in Hex. apply bool_decide_eq_false in Hex.
        simpl in Hex.
        destruct (levels db !! (gm, lvl)) as [?|] eqn:Hdb.
        { exfalso. apply Hex. eauto. }
        unfold refs_of. rewrite lookup_resolve_fields, lookup_insert_eq.
        reflexivity.
      * rewrite lookup_insert_ne by exact Hne. apply Hrefs.
Qed.

Lemma commit_structure_writes (now : Z) (db : store) (ws : list write) :
  Forall (structure_write db) ws ->
  forall dbi dbi',
    commit now ws dbi = Some dbi' ->
    games dbi = games db ->
    (forall gm lvl, level_refs dbi gm lvl = level_refs db gm lvl) ->
    games dbi' = games db
    /\ (forall gm lvl, level_refs dbi' gm lvl = level_refs db gm lvl).
Proof.
  induction 1 as [|wr ws Hwr _ IH]; intros dbi dbi'; simpl.
  - intros [= <-]. auto.
  - destruct (apply_write now dbi wr) as [dbi1|] eqn:Happ; [|discriminate].
    intros Hc Hg Hr.
    destruct (apply_structure_write _ _ _ _ _ Hwr Happ Hg Hr) as [Hg1 Hr1].
    eauto.
Qed.

Lemma created_for_other (gm lvl : string) (wr : write) (ws : list write) :
  is_game_ref (write_ref wr) = false ->
  created_for gm lvl (wr :: ws) = created_for gm lvl ws.
Proof. destruct wr as [[]|[]]; (discriminate || reflexivity). Qed.

Lemma created_for_update (gm lvl : string) (r : docref) (d : doc)
    (ws : list write) :
  created_for gm lvl (WUpdate r d :: ws) = created_for gm lvl ws.
Proof. reflexivity. Qed.

Lemma created_for_structure (db : store) (gm lvl : string) (ws : list write) :
  Forall (structure_write db) ws -> created_for gm lvl ws = [].
Proof.
  induction 1 as [|wr ws Hwr _ IH]; [reflexivity|].
  rewrite created_for_other; [exact IH|].
  destruct Hwr as [(? & ? & ? & ->)|(? & ? & ? & ? & ? & _ & ->)];
    [apply mode_write_no_game | apply level_write_no_game].
Qed.

Lemma string_eqb_refl (s : string) : String.eqb s s = true.
Proof. apply String.eqb_refl. Qed.

(** The references the creation of a game adds for a level: its own, when
    the row names that level. *)
Lemma created_for_creation (game : row) (gm0 lvl0 : string) (data : doc)
    (new gm lvl : string) :
  build_game_data game gm0 lvl0 = Ok data ->
  created_for gm lvl (creation_writes new gm0 lvl0 data) =
    if decide ((gm0, lvl0) = (gm, lvl)) then [VRef (GameRef new)] else [].
Proof.
  intros Hb.
  apply build_game_data_inv in Hb as (? & ? & ? & ? & ? & _ & _ & _ & _ & _ & ->).
  unfold created_for, creation_writes. cbn [omap list_omap].
  unfold dict_get.
  rewrite !(lookup_insert_ne _ "updatedAt") by discriminate.
  rewrite !(lookup_insert_ne _ "createdAt") by discriminate.
  rewrite game_dict_gameModeId, game_dict_levelId.
  cbn [default from_option id value_eqb].
  destruct (decide ((gm0, lvl0) = (gm, lvl))) as [[= -> ->]|Hne].
  - now rewrite !string_eqb_refl.
  - destruct (String.eqb_spec gm0 gm) as [->|]; [|reflexivity].
    destruct (String.eqb_spec lvl0 lvl) as [->|]; [|reflexivity].
    congruence.
Qed.

(** What committing the writes of one iteration does to the [gameRefs]
    arrays. *)
Lemma commit_iteration_refs (now : Z) (existing_games : gmap string doc)
    (n n' : nat) (game game' : row) (kept : bool) (ws : list write)
    (dbi dbi1 : store) (gm lvl : string) :
  iteration_does auto_id existing_games n game game' kept n' ws ->
  commit now ws dbi = Some dbi1 ->
  level_refs dbi1 gm lvl
  = array_union (level_refs dbi gm lvl) (created_for gm lvl ws).
Proof.
  intros Hit Hc. inversion Hit; subst.
  - match goal with
    | H : build_game_data game ?g ?l = Ok ?d |- _ =>
        rewrite (created_for_creation _ _ _ _ _ gm lvl H);
        rename g into gm0; rename l into lvl0; rename d into data
    end.
    unfold creation_writes in Hc. cbn [commit apply_write] in Hc.
    cbn [get_doc put_doc levels games gameModes] in Hc.
    destruct (levels dbi !! (gm0, lvl0)) as [old|] eqn:Hold; [|discriminate].
    injection Hc as <-. unfold level_refs. cbn [levels].
    destruct (decide ((gm0, lvl0) = (gm, lvl))) as [[= <- <-]|Hne].
    + rewrite lookup_insert_eq, Hold. apply refs_of_union.
    + now rewrite lookup_insert_ne.
  - unfold update_write in Hc. cbn [commit apply_write get_doc] in Hc.
    destruct (games dbi !! row_id game'); [|discriminate].
    injection Hc as <-. reflexivity.
  - injection Hc as <-. reflexivity.
  - injection Hc as <-. reflexivity.
  - injection Hc as <-. reflexivity.
Qed.

Lemma commit_loop_refs (now : Z) (existing_games : gmap string doc)
    (n n' : nat) (games_csv updated : list row) (ws : list write) :
  loop_does auto_id existing_games n games_csv updated n' ws ->
  forall dbi db' gm lvl,
    commit now ws dbi = Some db' ->
    level_refs db' gm lvl
    = array_union (level_refs dbi gm lvl) (created_for gm lvl ws).
Proof.
  induction 1 as [|n g rest g' kept n1 ws1 upd n2 ws2 Hit Hrest IH];
    intros dbi db' gm lvl Hc.
  - injection Hc as <-. reflexivity.
  - rewrite commit_app in Hc.
    destruct (commit now ws1 dbi) as [dbi1|] eqn:Hc1; [|discriminate].
    rewrite created_for_app, array_union_app.
    rewrite <- (commit_iteration_refs _ _ _ _ _ _ _ _ _ _ gm lvl Hit Hc1).
    now apply IH.
Qed.

(** A run that commits leaves in the [gameRefs] array of every level the
    array the level held before, with the references of the games the run
    creates under that level appended by set union; nothing else changes the
    array. *)
Lemma gameRefs_grow_by_created_games
    (db db' : store) (now : Z) (games_csv structure_csv : list row)
    (file : csv_file) (w : world) (gm lvl : string) :
  run auto_id db now games_csv structure_csv = (Ok (Some (db', file)), w) ->
  level_refs db' gm lvl
  = array_union (level_refs db gm lvl) (created_for gm lvl (batch w)).
Proof.
  intros Hrun.
  apply run_finished in Hrun
    as (w_s & w_g & rows' & updated & Hs & Hg & Hc & _ & ->).
  apply structure_loop_ok in Hs as (bs & Hbs & Hfs). simpl in Hbs.
  apply game_loop_ok in Hg as (bg & Hloop & Hbg).
  rewrite Hbg, Hbs in *. clear Hbg Hbs.
  rewrite commit_app in Hc.
  destruct (commit now bs db) as [db_s|] eqn:Hcs; [|discriminate].
  destruct (commit_structure_writes now db bs Hfs db db_s Hcs)
    as [_ Hrefs]; [reflexivity | reflexivity |].
  rewrite created_for_app, (created_for_structure db _ _ _ Hfs).
  rewrite (commit_loop_refs _ _ _ _ _ _ _ Hloop _ _ gm lvl Hc).
  now rewrite Hrefs.
Qed.

End GameRefs.

(** C7, as stated, fails: [levelId] is a tracked field, and an update that
    changes it writes the game document only.  Here [g1] is a game of level
    [lvl1], linked from it, and its row now names [lvl2]: after the run the
    document of [g1] declares [lvl2], the array of [lvl1] still holds the
    reference, and the array of [lvl2] does not hold it. *)
Lemma C7_moved_game_leaves_stale_reference :
  let r := run example_auto_id example_db 7 [moved_row] example_structure in
  level_refs example_db "gm1" "lvl1" = [Firestore.VRef (Firestore.GameRef "g1")]
  /\ field_after r "g1" "levelId" = Some (Firestore.VStr "lvl2")
  /\ refs_after r "gm1" "lvl1" = Some [Firestore.VRef (Firestore.GameRef "g1")]
  /\ refs_after r "gm1" "lvl2" = Some [].
Proof. repeat split; reflexivity. Qed.

(** A run that creates one game under [lvl2] appends its reference there;
    the array of [lvl1] is as before. *)
Example created_game_is_linked_once :
  let r := run example_auto_id example_db 7 [new_row; renamed_row]
             example_structure in
  refs_after r "gm1" "lvl2" = Some [Firestore.VRef (Firestore.GameRef "#")]
  /\ refs_after r "gm1" "lvl1" = Some [Firestore.VRef (Firestore.GameRef "g1")]
  /\ written_rows r = Some [<["id" := "#"]> new_row; renamed_row].
Proof. repeat split; reflexivity. Qed.

(** ** A second run on unchanged inputs *)

Section SimpleValues.
Import Firestore.

Lemma simple_py_eq (v : value) : simple v = true -> py_eq v v = true.
Proof.
  destruct v as [|s|z|x|l|r|t| |l]; simpl; try discriminate; auto.
  - intros _. apply String.eqb_refl.
  - intros Hx. apply float_eq_refl. now destruct (PyNum.is_nan x).
  - induction l as [|u l IH]; [reflexivity|]. simpl.
    destruct u; try discriminate. intros Hl. simpl.
    rewrite String.eqb_refl. simpl. now apply IH.
Qed.

Lemma simple_resolve (now : Z) (old : option value) (v : value) :
  simple v = true -> resolve now old v = v.
Proof. destruct v; simpl; (discriminate || reflexivity). Qed.

Lemma row_get_simple (game : row) (k : string) : simple (row_get game k) = true.
Proof. unfold row_get. destruct (game !! k); reflexivity. Qed.

Lemma answer_bank_simple (s : string) : simple (answer_bank_of s) = true.
Proof.
  unfold answer_bank_of. destruct (PyStr.truthy s); [|reflexivity].
  simpl. induction (PyStr.split "," s) as [|a l IH]; [reflexivity|].
  simpl. exact IH.
Qed.

Lemma time_limit_simple (s : string) (v : value) :
  PyNum.float_of_string s <> Some S754_nan ->
  time_limit_of s = Ok v -> simple v = true.
Proof.
  unfold time_limit_of, py_float. intros Hnan.
  destruct (PyStr.truthy s); [|intros [= <-]; reflexivity].
  destruct (PyNum.float_of_string s) as [x|]; [|discriminate].
  intros [= <-]. simpl. destruct x; try reflexivity.
  exfalso. now apply Hnan.
Qed.

(** Every tracked field of the built data is present and simple. *)
Lemma built_tracked_simple (game : row) (gm lvl : string) (data : doc)
    (key : string) :
  build_game_data game gm lvl = Ok data ->
  no_nan_time_limit game ->
  key ∈ tracked_fields ->
  exists v, data !! key = Some v /\ simple v = true.
Proof.
  intros Hb Hnan Hkey.
  apply build_game_data_inv in Hb
    as (name & ins & tl & ab & tlv & _ & _ & Htl & _ & Hv & ->).
  unfold tracked_fields in Hkey.
  repeat (apply elem_of_cons in Hkey as [->|Hkey]).
  - rewrite game_dict_description. eauto using row_get_simple.
  - rewrite game_dict_instructions. eauto.
  - rewrite game_dict_timeLimit. eauto using time_limit_simple.
  - rewrite game_dict_gameModeId. eauto.
  - rewrite game_dict_levelId. eauto.
  - rewrite game_dict_letterPosition. eauto using row_get_simple.
  - rewrite game_dict_targetLetter. eauto using row_get_simple.
  - rewrite game_dict_answerBank. eauto using answer_bank_simple.
  - inversion Hkey.
Qed.

(** A stored document whose tracked fields are those of the built data
    agrees with it. *)
Lemma stored_agrees (game : row) (gm lvl : string) (data stored : doc) :
  build_game_data game gm lvl = Ok data ->
  no_nan_time_limit game ->
  (forall key v, key ∈ tracked_fields -> data !! key = Some v ->
                 simple v = true -> stored !! key = Some v) ->
  has_game_changed stored data = false.
Proof.
  intros Hb Hnan Hstored. apply has_game_changed_false.
  unfold tracked_fields_agree. apply Forall_forall. intros key Hkey.
  destruct (built_tracked_simple _ _ _ _ _ Hb Hnan Hkey) as (v & Hv & Hs).
  unfold dict_get. rewrite (Hstored key v Hkey Hv Hs), Hv. simpl.
  now apply simple_py_eq.
Qed.

End SimpleValues.

Section Settled.
Import Firestore.

Lemma settled_found (st : gmap string doc) (game : row) (gm lvl : string)
    (stored data : doc) :
  PyStr.truthy (row_id game) = true ->
  game !! "levelId" = Some lvl ->
  game !! "gameModeId" = Some gm ->
  st !! row_id game = Some stored ->
  dict_truthy stored = true ->
  build_game_data game gm lvl = Ok data ->
  has_game_changed stored data = false ->
  settled st game.
Proof.
  intros Hid Hl Hg Hst Htr Hb Hsame aid w.
  rewrite (game_iteration_of_step _ _ _ _ _ _
             (game_step_found aid st game gm lvl stored data w
                Hid Hl Hg Hst Htr Hb)).
  rewrite Hsame. reflexivity.
Qed.

Lemma settled_not_found (st : gmap string doc) (game : row) (gm lvl : string) :
  PyStr.truthy (row_id game) = true ->
  game !! "levelId" = Some lvl ->
  game !! "gameModeId" = Some gm ->
  (st !! row_id game = None
   \/ exists ex, st !! row_id game = Some ex /\ dict_truthy ex = false) ->
  settled st game.
Proof.
  intros Hid Hl Hg Hst aid w.
  rewrite (game_iteration_of_step _ _ _ _ _ _
             (game_step_not_found aid st game gm lvl w Hid Hl Hg Hst)).
  reflexivity.
Qed.

(** Over settled rows the loop adds nothing to the batch. *)
Lemma game_loop_settled (auto_id : nat -> string) (st : gmap string doc)
    (games_csv : list row) (w : world) :
  Forall (settled st) games_csv ->
  batch (snd (game_loop auto_id st games_csv w)) = batch w.
Proof.
  intros Hall. revert w.
  induction Hall as [|game rest Hgame _ IH]; intros w; [reflexivity|].
  simpl. unfold bind at 1. specialize (Hgame auto_id w).
  destruct (game_iteration auto_id st game w) as [[r|e] w1];
    simpl in Hgame; [|exact Hgame].
  unfold bind. specialize (IH w1).
  destruct (game_loop auto_id st rest w1) as [[rs|e] w2]; simpl in *;
    congruence.
Qed.

(** And so does the run. *)
Lemma run_settled (auto_id : nat -> string) (db : store) (now : Z)
    (games_csv structure_csv : list row) :
  Forall (settled (games db)) games_csv ->
  Forall targets_no_game
    (batch (snd (run auto_id db now games_csv structure_csv))).
Proof.
  intros Hall. unfold run, upload_games_from_csv.
  destruct games_csv as [|g gs]; [constructor|].
  destruct structure_csv as [|s ss]; [constructor|].
  destruct (structure_loop_batch db (s :: ss) start) as (ws & Hws & Hno).
  change (batch start) with (@nil write) in Hws. rewrite app_nil_l in Hws.
  unfold bind at 1.
  destruct (structure_loop db (s :: ss) start) as [[[]|e] w_s];
    cbn [snd] in Hws; [|cbn [snd]; now rewrite Hws].
  pose proof (game_loop_settled auto_id (games db) (g :: gs) w_s Hall) as Hg.
  unfold fetch_existing_games. unfold bind at 1.
  destruct (game_loop auto_id (games db) (g :: gs) w_s) as [[r|e] w_g];
    cbn [snd] in Hg; [|cbn [snd]; now rewrite Hg, Hws].
  unfold bind at 1, batch_commit.
  destruct (commit now (batch w_g) db) as [db1|];
    [|cbn [snd]; now rewrite Hg, Hws].
  rewrite bind_print. unfold bind, lift.
  destruct (write_csv _ _); cbn [snd batch ret]; now rewrite Hg, Hws.
Qed.

End Settled.

Section SecondRun.
Import Firestore.
Variable auto_id : nat -> string.
Variable existing_games : gmap string doc.
Variable now : Z.

Lemma iteration_counts (n n' : nat) (game game' : row) (kept : bool)
    (ws : list write) :
  iteration_does auto_id existing_games n game game' kept n' ws ->
  n <= n' <= S n.
Proof. inversion 1; lia. Qed.

(** The writes of an iteration reach one game document at most: the one
    created, or the one of the id of the row. *)
Lemma iteration_touches (n n' : nat) (game game' : row) (kept : bool)
    (ws : list write) (dbi dbi1 : store) (x : string) :
  iteration_does auto_id existing_games n game game' kept n' ws ->
  commit now ws dbi = Some dbi1 ->
  x <> auto_id n ->
  (PyStr.truthy (row_id game) = true -> x <> row_id game) ->
  games dbi1 !! x = games dbi !! x.
Proof.
  intros Hit Hc Hnew Hown. inversion Hit; subst.
  - unfold creation_writes in Hc. cbn [commit apply_write] in Hc.
    cbn [get_doc put_doc levels games gameModes] in Hc.
    destruct (levels dbi !! (gm, lvl)); [|discriminate].
    injection Hc as <-. cbn [games]. now rewrite lookup_insert_ne.
  - unfold update_write in Hc. cbn [commit apply_write get_doc] in Hc.
    destruct (games dbi !! row_id game'); [|discriminate].
    injection Hc as <-. cbn [put_doc games].
    rewrite lookup_insert_ne; auto. intros Heq. now apply Hown.
  - injection Hc as <-. reflexivity.
  - injection Hc as <-. reflexivity.
  - injection Hc as <-. reflexivity.
Qed.

(** After the writes of its iteration are committed, a kept row is settled
    against any snapshot that holds, under its id, what the database holds
    then. *)
Lemma iteration_settles (n n' : nat) (game game' : row) (ws : list write)
    (dbi dbi1 : store) (st : gmap string doc) :
  iteration_does auto_id existing_games n game game' true n' ws ->
  commit now ws dbi = Some dbi1 ->
  (PyStr.truthy (row_id game) = true ->
   games dbi !! row_id game = existing_games !! row_id game) ->
  no_nan_time_limit game ->
  auto_id n <> "" ->
  st !! row_id game' = games dbi1 !! row_id game' ->
  settled st game'.
Proof.
  intros Hit Hc Hinv Hnan Hnew Hst. inversion Hit; subst.
  - (* created *)
    assert (Hrow : row_id (<["id" := auto_id n]> game) = auto_id n).
    { unfold row_id. now rewrite lookup_insert_eq. }
    rewrite Hrow in Hst.
    unfold creation_writes in Hc. cbn [commit apply_write] in Hc.
    cbn [get_doc put_doc levels games gameModes] in Hc.
    destruct (levels dbi !! (gm, lvl)); [|discriminate].
    injection Hc as <-. cbn [games] in Hst. rewrite lookup_insert_eq in Hst.
    eapply (settled_found st _ gm lvl _ data).
    + rewrite Hrow. now apply truthy_nonempty.
    + now rewrite lookup_insert_ne by discriminate.
    + now rewrite lookup_insert_ne by discriminate.
    + rewrite Hrow. exact Hst.
    + apply (dict_truthy_lookup _ "updatedAt" (VTime now)).
      rewrite created_doc_lookup. reflexivity.
    + now rewrite build_game_data_insert_id.
    + eapply stored_agrees; eauto.
      intros key v Hkey Hv Hs. rewrite created_doc_lookup.
      destruct (decide (key = "updatedAt")) as [->|_].
      { match goal with
        | H : build_game_data _ _ _ = Ok _ |- _ =>
            apply build_game_data_inv in H
              as (? & ? & ? & ? & ? & _ & _ & _ & _ & _ & ->)
        end.
        rewrite game_dict_updatedAt in Hv. discriminate. }
      destruct (decide (key = "createdAt")) as [->|_].
      { match goal with
        | H : build_game_data _ _ _ = Ok _ |- _ =>
            apply build_game_data_inv in H
              as (? & ? & ? & ? & ? & _ & _ & _ & _ & _ & ->)
        end.
        rewrite game_dict_createdAt in Hv. discriminate. }
      rewrite Hv. simpl. now rewrite simple_resolve.
  - (* updated *)
    unfold update_write in Hc. cbn [commit apply_write get_doc] in Hc.
    destruct (games dbi !! row_id game') as [old|] eqn:Hold; [|discriminate].
    injection Hc as <-. cbn [put_doc games] in Hst.
    rewrite lookup_insert_eq in Hst.
    eapply (settled_found st _ gm lvl _ data); eauto.
    + apply (dict_truthy_lookup _ "updatedAt" (VTime now)).
      rewrite lookup_updated, lookup_insert_eq. reflexivity.
    + eapply stored_agrees; eauto.
      intros key v Hkey Hv Hs. rewrite lookup_updated.
      destruct (decide (key = "updatedAt")) as [->|Hne].
      { match goal with
        | H : build_game_data _ _ _ = Ok _ |- _ =>
            apply build_game_data_inv in H
              as (? & ? & ? & ? & ? & _ & _ & _ & _ & _ & ->)
        end.
        rewrite game_dict_updatedAt in Hv. discriminate. }
      rewrite lookup_insert_ne by congruence.
      rewrite Hv. now rewrite simple_resolve.
  - (* unchanged *)
    injection Hc as <-.
    eapply (settled_found st _ gm lvl ex data); eauto.
    rewrite Hst, Hinv; auto.
  - (* not found *)
    injection Hc as <-.
    eapply (settled_not_found st _ gm lvl); eauto.
    rewrite Hst, Hinv; auto.
Qed.

Lemma kept_row_id (n n' : nat) (game game' : row) (ws : list write) :
  iteration_does auto_id existing_games n game game' true n' ws ->
  (PyStr.truthy (row_id game) = false
   /\ row_id game' = auto_id n /\ n' = S n)
  \/ (PyStr.truthy (row_id game) = true /\ game' = game /\ n' = n).
Proof.
  inversion 1; subst; auto.
  left. unfold row_id at 2. rewrite lookup_insert_eq. auto.
Qed.

Lemma given_ids_cons (game : row) (rest : list row) :
  given_ids (game :: rest) =
    if PyStr.truthy (row_id game) then row_id game :: given_ids rest
    else given_ids rest.
Proof.
  unfold given_ids. rewrite fmap_cons.
  destruct (PyStr.truthy (row_id game)) eqn:Hid.
  - apply filter_cons_True. now apply truthy_nonempty.
  - apply filter_cons_False. intros Hne. apply truthy_nonempty in Hne.
    congruence.
Qed.

Lemma given_ids_elem (game : row) (rows : list row) :
  game ∈ rows -> PyStr.truthy (row_id game) = true ->
  row_id game ∈ given_ids rows.
Proof.
  intros Hin Hid. unfold given_ids. apply list_elem_of_filter.
  split; [now apply truthy_nonempty|].
  apply list_elem_of_fmap. eauto.
Qed.

(** The loop reaches no game document other than those of the ids of its
    rows and of the ids it generates. *)
Lemma loop_touches (n n' : nat) (games_csv updated : list row)
    (ws : list write) :
  loop_does auto_id existing_games n games_csv updated n' ws ->
  forall dbi db' x,
    commit now ws dbi = Some db' ->
    (forall g, g ∈ games_csv -> PyStr.truthy (row_id g) = true ->
               x <> row_id g) ->
    (forall i, n <= i -> x <> auto_id i) ->
    games db' !! x = games dbi !! x.
Proof.
  induction 1 as [|n g rest g' kept n1 ws1 upd n2 ws2 Hit Hrest IH];
    intros dbi db' x Hc Hrows Hgen.
  - injection Hc as <-. reflexivity.
  - rewrite commit_app in Hc.
    destruct (commit now ws1 dbi) as [dbi1|] eqn:Hc1; [|discriminate].
    pose proof (iteration_counts _ _ _ _ _ _ Hit) as Hn.
    rewrite (IH dbi1 db' x Hc).
    + eapply iteration_touches; eauto.
      intros Hid. apply Hrows; [left | exact Hid].
    + intros r Hr. apply Hrows. now right.
    + intros i Hi. apply Hgen. lia.
Qed.

(** Every row the loop keeps is settled against the games the commit
    leaves. *)
Lemma loop_settles (n n' : nat) (games_csv updated : list row)
    (ws : list write) :
  loop_does auto_id existing_games n games_csv updated n' ws ->
  forall dbi db',
    commit now ws dbi = Some db' ->
    (forall g, g ∈ games_csv -> PyStr.truthy (row_id g) = true ->
               games dbi !! row_id g = existing_games !! row_id g) ->
    NoDup (given_ids games_csv) ->
    fresh_ids auto_id games_csv ->
    Forall no_nan_time_limit games_csv ->
    Forall (settled (games db')) updated.
Proof.
  induction 1 as [|n g rest g' kept n1 ws1 upd n2 ws2 Hit Hrest IH];
    intros dbi db' Hc Hinv Hnodup Hfresh Hnan; [constructor|].
  destruct Hfresh as (Hinj & Hne & Hout).
  apply Forall_cons in Hnan as [Hnan_g Hnan_rest].
  rewrite commit_app in Hc.
  destruct (commit now ws1 dbi) as [dbi1|] eqn:Hc1; [|discriminate].
  rewrite given_ids_cons in Hnodup.
  assert (Hnodup_rest : NoDup (given_ids rest)).
  { destruct (PyStr.truthy (row_id g)); [now apply NoDup_cons in Hnodup|auto]. }
  assert (Hothers : PyStr.truthy (row_id g) = true ->
                    forall r, r ∈ rest -> PyStr.truthy (row_id r) = true ->
                              row_id r <> row_id g).
  { intros Hid r Hr Hrid Heq. rewrite Hid in Hnodup.
    apply NoDup_cons in Hnodup as [Hnotin _]. apply Hnotin.
    rewrite <- Heq. now apply given_ids_elem. }
  assert (Htail : Forall (settled (games db')) upd).
  { apply (IH dbi1 db' Hc); auto.
    - intros r Hr Hrid.
      rewrite (iteration_touches _ _ _ _ _ _ _ _ _ Hit Hc1).
      + apply Hinv; [now right | exact Hrid].
      + apply Hout. now right.
      + intros Hid. now apply Hothers.
    - repeat split; auto. intros i r Hr. apply Hout. now right. }
  destruct kept; [|exact Htail].
  constructor; [|exact Htail].
  eapply (iteration_settles n n1 g g' ws1 dbi dbi1); eauto.
  { intros Hid. apply Hinv; [left | exact Hid]. }
  apply (loop_touches _ _ _ _ _ Hrest dbi1 db' _ Hc).
  - intros r Hr Hrid.
    destruct (kept_row_id _ _ _ _ _ Hit) as [(_ & -> & _)|(Hid & -> & _)].
    + intros Heq. eapply Hout; [right; exact Hr | symmetry; exact Heq].
    + intros Heq. eapply Hothers; eauto.
  - intros i Hi.
    destruct (kept_row_id _ _ _ _ _ Hit) as [(_ & -> & ->)|(Hid & -> & _)].
    + intros Heq. apply Hinj in Heq. lia.
    + apply Hout. left.
Qed.

End SecondRun.

(** C3, as stated, fails when two rows carry the same id: both are compared
    with the one snapshot, the later write wins, and the earlier row differs
    again in the next run.  Here both rows carry [g1]; the first run ends
    normally and writes the two rows back unchanged, and the second run, on
    the same rows and the database the first one left, adds an update of
    [g1] to its batch, after the four writes of the structure pass. *)
Lemma C3_repeated_id_is_updated_again :
  let rows := [renamed_row; g1_again_row] in
  let r1 := run example_auto_id example_db 7 rows example_structure in
  let r2 := run example_auto_id (default example_db (committed_store r1)) 8
              rows example_structure in
  written_rows r1 = Some rows
  /\ is_Some (committed_store r1)
  /\ Firestore.write_ref <$> batch (snd r2)
     = [Firestore.GameModeRef "gm1"; Firestore.LevelRef "gm1" "lvl1";
        Firestore.GameModeRef "gm1"; Firestore.LevelRef "gm1" "lvl2";
        Firestore.GameRef "g1"].
Proof.
  cbv zeta. split; [reflexivity|]. split; [|reflexivity].
  eexists. reflexivity.
Qed.

(** It fails as well on a [timeLimit] that spells NaN, which differs from
    itself: the game created by the first run is updated by the second. *)
Example nan_time_limit_is_updated_again :
  let r1 := run example_auto_id example_db 7 [nan_row] example_structure in
  let r2 := run example_auto_id (default example_db (committed_store r1)) 8
              (default [] (written_rows r1)) example_structure in
  written_rows r1 = Some [<["id" := "#"]> nan_row]
  /\ Firestore.write_ref <$> batch (snd r2)
     = [Firestore.GameModeRef "gm1"; Firestore.LevelRef "gm1" "lvl1";
        Firestore.GameModeRef "gm1"; Firestore.LevelRef "gm1" "lvl2";
        Firestore.GameRef "#"].
Proof. cbv zeta. split; reflexivity. Qed.

(** C3, amended.  When no id occurs in two rows of the games file and no
    [timeLimit] spells NaN (and the ids Firestore generates are new), a run
    that reaches its end leaves every row it writes back settled: in a
    second run on the rewritten file, the same structure file and the
    database the first run left, the diff finds no difference for any row
    and the batch holds no write to a game document. *)
Theorem C3_second_run_adds_no_game_write
    (auto_id : nat -> string) (db db1 : Firestore.store) (now : Z)
    (games_csv structure_csv : list row) (file : csv_file) (w1 : world)
    (auto_id2 : nat -> string) (now2 : Z) :
  run auto_id db now games_csv structure_csv = (Ok (Some (db1, file)), w1) ->
  NoDup (given_ids games_csv) ->
  Forall no_nan_time_limit games_csv ->
  fresh_ids auto_id games_csv ->
  Forall (settled (Firestore.games db1)) (records file)
  /\ Forall targets_no_game
       (batch (snd (run auto_id2 db1 now2 (records file) structure_csv))).
Proof.
  intros Hrun Hnodup Hnan Hfresh.
  apply run_finished in Hrun
    as (w_s & w_g & rows' & updated & Hs & Hg & Hc & -> & _).
  apply structure_loop_ok in Hs as (bs & Hbs & Hfs). simpl in Hbs.
  apply game_loop_ok in Hg as (bg & Hloop & Hbg).
  rewrite Hbg, Hbs in Hc. clear Hbg Hbs.
  rewrite commit_app in Hc.
  destruct (Firestore.commit now bs db) as [db_s|] eqn:Hcs; [|discriminate].
  destruct (commit_structure_writes now db bs Hfs db db_s Hcs)
    as [Hgames _]; [reflexivity | reflexivity |].
  assert (Hsettled : Forall (settled (Firestore.games db1)) updated).
  { eapply loop_settles; eauto. intros g _ _. now rewrite Hgames. }
  split; [exact Hsettled | now apply run_settled].
Qed.

Lemma C3_second_run_witness :
  let rows := [new_row; renamed_row] in
  let r1 := run example_auto_id example_db 7 rows example_structure in
  let db1 := default example_db (committed_store r1) in
  let file := default (CsvFile ∅ []) (written_file r1) in
  Forall (settled (Firestore.games db1)) (records file)
  /\ Forall targets_no_game
       (batch (snd (run example_auto_id db1 8 (records file) example_structure))).
Proof.
  intros rows r1 db1 file.
  apply (C3_second_run_adds_no_game_write example_auto_id example_db db1 7
           rows example_structure file (snd r1) example_auto_id 8).
  - reflexivity.
  - change (NoDup ["g1"]). apply NoDup_singleton.
  - constructor; [|constructor; [|constructor]];
      intros s Hs; injection Hs as <-; discriminate.
  - split; [exact example_auto_id_inj|]. split; [discriminate|].
    intros i game Hin.
    apply elem_of_cons in Hin as [->|Hin];
      [|apply elem_of_cons in Hin as [->|Hin]; [|inversion Hin]];
      discriminate.
Defined.

(** ** The invariant of the [gameRefs] arrays *)

Section LinkInvariant.
Import Firestore.
Variable auto_id : nat -> string.
Variable existing_games : gmap string doc.
Variable now : Z.

Lemma docref_eqb_eq (a b : docref) : docref_eqb a b = true <-> a = b.
Proof.
  destruct a, b; simpl; try (split; [discriminate | congruence]).
  - rewrite String.eqb_eq. split; congruence.
  - rewrite String.eqb_eq. split; congruence.
  - rewrite andb_true_iff, !String.eqb_eq. split; [intros [-> ->]|intros [= -> ->]]; auto.
Qed.

Lemma value_eqb_ref (r : docref) (u : value) :
  value_eqb (VRef r) u = true <-> u = VRef r.
Proof.
  destruct u; simpl; try (split; [discriminate | congruence]).
  rewrite docref_eqb_eq. split; congruence.
Qed.

Lemma existsb_ref (r : docref) (l : list value) :
  existsb (value_eqb (VRef r)) l = true <-> VRef r ∈ l.
Proof.
  rewrite existsb_exists. split.
  - intros (u & Hin & Hu). apply value_eqb_ref in Hu as ->.
    now apply list_elem_of_In.
  - intros Hin. exists (VRef r). split; [now apply list_elem_of_In|].
    now apply value_eqb_ref.
Qed.

Lemma array_union_refs_elem (xs old : list value) (v : value) :
  Forall (fun x => exists r, x = VRef r) xs ->
  v ∈ array_union old xs <-> v ∈ old \/ v ∈ xs.
Proof.
  intros Hxs. revert old.
  induction Hxs as [|x xs [r ->] _ IH]; intros old.
  - rewrite array_union_nil. rewrite elem_of_nil. tauto.
  - rewrite array_union_cons, IH, array_union_one, elem_of_cons.
    destruct (existsb (value_eqb (VRef r)) old) eqn:Hex.
    + apply existsb_ref in Hex. split; [tauto|].
      intros [?|[->|?]]; auto.
    + rewrite elem_of_app, list_elem_of_singleton. tauto.
Qed.

Lemma array_union_refs_NoDup (xs old : list value) :
  Forall (fun x => exists r, x = VRef r) xs ->
  NoDup old -> NoDup (array_union old xs).
Proof.
  intros Hxs. revert old.
  induction Hxs as [|x xs [r ->] _ IH]; intros old Hold; [exact Hold|].
  rewrite array_union_cons. apply IH. rewrite array_union_one.
  destruct (existsb (value_eqb (VRef r)) old) eqn:Hex; [exact Hold|].
  apply NoDup_app. split; [exact Hold|]. split; [|apply NoDup_singleton].
  intros v Hv Hv'. apply list_elem_of_singleton in Hv' as ->.
  apply existsb_ref in Hv. congruence.
Qed.

Lemma created_for_elem (gm lvl : string) (b : list write) (v : value) :
  v ∈ created_for gm lvl b ->
  exists id d, v = VRef (GameRef id) /\ WSet (GameRef id) d ∈ b
               /\ dict_get d "gameModeId" = VStr gm
               /\ dict_get d "levelId" = VStr lvl.
Proof.
  unfold created_for. rewrite list_elem_of_omap.
  intros (wr & Hin & Hv). destruct wr as [[id| |] d|]; try discriminate.
  destruct (value_eqb (dict_get d "gameModeId") (VStr gm)) eqn:Hg;
    [|discriminate].
  destruct (value_eqb (dict_get d "levelId") (VStr lvl)) eqn:Hl;
    [|discriminate].
  injection Hv as <-. exists id, d. repeat split; auto.
  - destruct (dict_get d "gameModeId"); try discriminate.
    apply String.eqb_eq in Hg. congruence.
  - destruct (dict_get d "levelId"); try discriminate.
    apply String.eqb_eq in Hl. congruence.
Qed.

Lemma created_for_refs (gm lvl : string) (b : list write) :
  Forall (fun x => exists r, x = VRef r) (created_for gm lvl b).
Proof.
  apply Forall_forall. intros v Hv.
  apply created_for_elem in Hv as (id & d & -> & _). eauto.
Qed.

(** The parent a stored game declares after a write of built data. *)
Lemma built_parent (game : row) (gm lvl : string) (data : doc) :
  build_game_data game gm lvl = Ok data ->
  data !! "gameModeId" = Some (VStr gm) /\ data !! "levelId" = Some (VStr lvl)
  /\ data !! "updatedAt" = None /\ data !! "createdAt" = None.
Proof.
  intros Hb.
  apply build_game_data_inv in Hb as (? & ? & ? & ? & ? & _ & _ & _ & _ & _ & ->).
  rewrite game_dict_gameModeId, game_dict_levelId, game_dict_updatedAt,
    game_dict_createdAt. auto.
Qed.

Lemma declares_insert_same (games : gmap string doc) (id : string) (d : doc)
    (gm0 lvl0 gm lvl : string) :
  dict_get d "gameModeId" = VStr gm0 ->
  dict_get d "levelId" = VStr lvl0 ->
  declares (<[id := d]> games) id gm lvl <-> (gm0, lvl0) = (gm, lvl).
Proof.
  intros Hg Hl. unfold declares. rewrite lookup_insert_eq. split.
  - intros (d' & [= <-] & Hg' & Hl'). congruence.
  - intros [= <- <-]. eauto.
Qed.

Lemma declares_insert_other (games : gmap string doc) (id id' : string)
    (d : doc) (gm lvl : string) :
  id <> id' ->
  declares (<[id := d]> games) id' gm lvl <-> declares games id' gm lvl.
Proof. intros Hne. unfold declares. now rewrite lookup_insert_ne. Qed.

(** What committing the writes of one iteration does to the parents the
    games declare. *)
Lemma iteration_declares (n n' : nat) (game game' : row) (kept : bool)
    (ws : list write) (dbi dbi1 : store) (id gm lvl : string) :
  iteration_does auto_id existing_games n game game' kept n' ws ->
  commit now ws dbi = Some dbi1 ->
  games dbi !! auto_id n = None ->
  no_moves (games dbi) [game] ->
  declares (games dbi1) id gm lvl
  <-> declares (games dbi) id gm lvl
      \/ VRef (GameRef id) ∈ created_for gm lvl ws.
Proof.
  intros Hit Hc Hfree Hmoves. inversion Hit; subst.
  - (* created *)
    match goal with
    | H : build_game_data game ?g ?l = Ok ?d |- _ =>
        rewrite (created_for_creation _ _ _ _ _ gm lvl H);
        destruct (built_parent _ _ _ _ H) as (Dg & Dl & Du & Dc);
        rename g into gm0; rename l into lvl0; rename d into data
    end.
    unfold creation_writes in Hc. cbn [commit apply_write] in Hc.
    cbn [get_doc put_doc levels games gameModes] in Hc.
    destruct (levels dbi !! (gm0, lvl0)); [|discriminate].
    injection Hc as <-. cbn [games].
    destruct (decide (id = auto_id n)) as [->|Hne].
    + rewrite (declares_insert_same _ _ _ gm0 lvl0).
      * destruct (decide ((gm0, lvl0) = (gm, lvl))).
        -- rewrite list_elem_of_singleton. tauto.
        -- rewrite elem_of_nil. split; [tauto|].
           intros [(d & Hd & _)|[]]. congruence.
      * unfold dict_get. rewrite created_doc_lookup.
        repeat (destruct (decide _) as [?|_]; [discriminate|]).
        now rewrite Dg.
      * unfold dict_get. rewrite created_doc_lookup.
        repeat (destruct (decide _) as [?|_]; [discriminate|]).
        now rewrite Dl.
    + rewrite declares_insert_other by congruence.
      destruct (decide ((gm0, lvl0) = (gm, lvl)));
        [rewrite list_elem_of_singleton | rewrite elem_of_nil];
        split; auto; intros [?|?]; auto; [congruence | contradiction].
  - (* updated *)
    match goal with
    | H : build_game_data game' ?g ?l = Ok ?d |- _ =>
        destruct (built_parent _ _ _ _ H) as (Dg & Dl & Du & Dc);
        rename g into gm0; rename l into lvl0; rename d into data
    end.
    unfold update_write in Hc |- *. cbn [commit apply_write get_doc] in Hc.
    destruct (games dbi !! row_id game') as [old|] eqn:Hold; [|discriminate].
    injection Hc as <-. cbn [put_doc games].
    rewrite created_for_update. change (created_for gm lvl []) with (@nil value).
    rewrite elem_of_nil.
    destruct (Hmoves game' old gm0 lvl0) as [Og Ol]; auto; [left|].
    destruct (decide (id = row_id game')) as [->|Hne].
    + rewrite (declares_insert_same _ _ _ gm0 lvl0).
      * split; [intros [= <- <-]; left; exists old; auto|].
        intros [(d & Hd & Hg' & Hl')|[]]. congruence.
      * unfold dict_get. rewrite lookup_updated.
        rewrite lookup_insert_ne by discriminate. now rewrite Dg.
      * unfold dict_get. rewrite lookup_updated.
        rewrite lookup_insert_ne by discriminate. now rewrite Dl.
    + rewrite declares_insert_other by congruence. tauto.
  - injection Hc as <-. change (created_for gm lvl []) with (@nil value).
    rewrite elem_of_nil. tauto.
  - injection Hc as <-. change (created_for gm lvl []) with (@nil value).
    rewrite elem_of_nil. tauto.
  - injection Hc as <-. change (created_for gm lvl []) with (@nil value).
    rewrite elem_of_nil. tauto.
Qed.

(** The ids not generated yet stay free. *)
Lemma iteration_keeps_free (n n' : nat) (game game' : row) (kept : bool)
    (ws : list write) (dbi dbi1 : store) (i : nat) :
  iteration_does auto_id existing_games n game game' kept n' ws ->
  commit now ws dbi = Some dbi1 ->
  (forall i j, auto_id i = auto_id j -> i = j) ->
  (forall j, n <= j -> games dbi !! auto_id j = None) ->
  n' <= i ->
  games dbi1 !! auto_id i = None.
Proof.
  intros Hit Hc Hinj Hfree Hi.
  pose proof (iteration_counts _ _ _ _ _ _ _ _ Hit) as Hn.
  inversion Hit; subst.
  - unfold creation_writes in Hc. cbn [commit apply_write] in Hc.
    cbn [get_doc put_doc levels games gameModes] in Hc.
    destruct (levels dbi !! (gm, lvl)); [|discriminate].
    injection Hc as <-. cbn [games].
    rewrite lookup_insert_ne; [apply Hfree; lia|].
    intros Heq. apply Hinj in Heq. lia.
  - unfold update_write in Hc. cbn [commit apply_write get_doc] in Hc.
    destruct (games dbi !! row_id game') as [old|] eqn:Hold; [|discriminate].
    injection Hc as <-. cbn [put_doc games].
    rewrite lookup_insert_ne; [now apply Hfree|].
    intros Heq. rewrite Heq, Hfree in Hold by lia. discriminate.
  - injection Hc as <-. apply Hfree. lia.
  - injection Hc as <-. apply Hfree. lia.
  - injection Hc as <-. apply Hfree. lia.
Qed.

(** The rows to come still name the parents their games declare. *)
Lemma iteration_no_moves (n n' : nat) (game game' : row) (kept : bool)
    (ws : list write) (dbi dbi1 : store) (rest : list row) :
  iteration_does auto_id existing_games n game game' kept n' ws ->
  commit now ws dbi = Some dbi1 ->
  no_moves (games dbi) (game :: rest) ->
  (forall r, r ∈ rest -> row_id r <> auto_id n) ->
  no_moves (games dbi1) rest.
Proof.
  intros Hit Hc Hmoves Hfresh r d gm_r lvl_r Hr Hid Hd Hg Hl.
  assert (Hr_old : forall d0, games dbi !! row_id r = Some d0 ->
            dict_get d0 "gameModeId" = VStr gm_r
            /\ dict_get d0 "levelId" = VStr lvl_r).
  { intros d0 Hd0. apply (Hmoves r d0); auto. now right. }
  inversion Hit; subst.
  - unfold creation_writes in Hc. cbn [commit apply_write] in Hc.
    cbn [get_doc put_doc levels games gameModes] in Hc.
    destruct (levels dbi !! (gm, lvl)); [|discriminate].
    injection Hc as <-. cbn [games] in Hd.
    rewrite lookup_insert_ne in Hd; [now apply Hr_old|].
    intros Heq. now apply (Hfresh r Hr).
  - match goal with
    | H : build_game_data game' ?g ?l = Ok ?dd |- _ =>
        destruct (built_parent _ _ _ _ H) as (Dg & Dl & Du & Dc);
        rename g into gm0; rename l into lvl0; rename dd into data
    end.
    unfold update_write in Hc. cbn [commit apply_write get_doc] in Hc.
    destruct (games dbi !! row_id game') as [old|] eqn:Hold; [|discriminate].
    injection Hc as <-. cbn [put_doc games] in Hd.
    destruct (decide (row_id game' = row_id r)) as [Heq|Hne].
    + rewrite Heq, lookup_insert_eq in Hd. injection Hd as <-.
      rewrite Heq in Hold. destruct (Hr_old old Hold) as [Rg Rl].
      destruct (Hmoves game' old gm0 lvl0) as [Og Ol]; auto;
        [left | now rewrite Heq |].
      unfold dict_get. rewrite !lookup_updated.
      rewrite !lookup_insert_ne by discriminate. rewrite Dg, Dl.
      cbn [default from_option id resolve]. split; congruence.
    + rewrite lookup_insert_ne in Hd by exact Hne. now apply Hr_old.
  - injection Hc as <-. now apply Hr_old.
  - injection Hc as <-. now apply Hr_old.
  - injection Hc as <-. now apply Hr_old.
Qed.

Lemma no_moves_head (games : gmap string doc) (game : row) (rest : list row) :
  no_moves games (game :: rest) -> no_moves games [game].
Proof.
  intros H g d gm lvl Hin. apply list_elem_of_singleton in Hin as ->.
  apply H. left.
Qed.

(** The parents the games declare after the loop is committed: those they
    declared, and those of the games created. *)
Lemma loop_declares (n n' : nat) (games_csv updated : list row)
    (ws : list write) :
  loop_does auto_id existing_games n games_csv updated n' ws ->
  forall dbi db',
    commit now ws dbi = Some db' ->
    (forall i j, auto_id i = auto_id j -> i = j) ->
    (forall j, n <= j -> games dbi !! auto_id j = None) ->
    (forall i g, g ∈ games_csv -> row_id g <> auto_id i) ->
    no_moves (games dbi) games_csv ->
    forall id gm lvl,
      declares (games db') id gm lvl
      <-> declares (games dbi) id gm lvl
          \/ VRef (GameRef id) ∈ created_for gm lvl ws.
Proof.
  induction 1 as [|n g rest g' kept n1 ws1 upd n2 ws2 Hit Hrest IH];
    intros dbi db' Hc Hinj Hfree Hout Hmoves id gm lvl.
  - injection Hc as <-. change (created_for gm lvl []) with (@nil value).
    rewrite elem_of_nil. tauto.
  - rewrite commit_app in Hc.
    destruct (commit now ws1 dbi) as [dbi1|] eqn:Hc1; [|discriminate].
    rewrite created_for_app, elem_of_app.
    rewrite (IH dbi1 db' Hc Hinj).
    + rewrite (iteration_declares _ _ _ _ _ _ _ _ id gm lvl Hit Hc1).
      * tauto.
      * apply Hfree. lia.
      * eapply no_moves_head; eauto.
    + intros j Hj. eapply iteration_keeps_free; eauto.
    + intros i r Hr. apply Hout. now right.
    + eapply iteration_no_moves; eauto.
      intros r Hr. apply Hout. now right.
Qed.

Lemma apply_keeps_level (wr : write) (dbi dbi1 : store) (k : string * string) :
  apply_write now dbi wr = Some dbi1 ->
  is_Some (levels dbi !! k) -> is_Some (levels dbi1 !! k).
Proof.
  destruct wr as [r d|r d]; simpl.
  - intros [= <-]. destruct r; simpl; auto.
    destruct (decide ((gm, lvl) = k)) as [<-|Hne];
      [rewrite lookup_insert_eq; eauto | now rewrite lookup_insert_ne].
  - destruct (get_doc dbi r); [|discriminate].
    intros [= <-]. destruct r; simpl; auto.
    destruct (decide ((gm, lvl) = k)) as [<-|Hne];
      [rewrite lookup_insert_eq; eauto | now rewrite lookup_insert_ne].
Qed.

Lemma commit_keeps_level (ws : list write) (dbi db' : store)
    (k : string * string) :
  commit now ws dbi = Some db' ->
  is_Some (levels dbi !! k) -> is_Some (levels db' !! k).
Proof.
  revert dbi. induction ws as [|wr ws IH]; intros dbi; simpl.
  - now intros [= <-].
  - destruct (apply_write now dbi wr) as [dbi1|] eqn:Happ; [|discriminate].
    intros Hc Hk. apply (IH dbi1 Hc). eapply apply_keeps_level; eauto.
Qed.

(** The level of a game the loop creates exists when the loop is committed. *)
Lemma loop_created_level (n n' : nat) (games_csv updated : list row)
    (ws : list write) :
  loop_does auto_id existing_games n games_csv updated n' ws ->
  forall dbi db' id gm lvl,
    commit now ws dbi = Some db' ->
    VRef (GameRef id) ∈ created_for gm lvl ws ->
    is_Some (levels db' !! (gm, lvl)).
Proof.
  induction 1 as [|n g rest g' kept n1 ws1 upd n2 ws2 Hit Hrest IH];
    intros dbi db' id gm lvl Hc Hin.
  - inversion Hin.
  - rewrite commit_app in Hc.
    destruct (commit now ws1 dbi) as [dbi1|] eqn:Hc1; [|discriminate].
    rewrite created_for_app, elem_of_app in Hin.
    destruct Hin as [Hin|Hin]; [|eapply IH; eauto].
    apply (commit_keeps_level _ _ _ _ Hc).
    inversion Hit; subst; try (inversion Hin; fail).
    match goal with
    | H : build_game_data g ?gg ?l = Ok ?d |- _ =>
        rewrite (created_for_creation _ _ _ _ _ gm lvl H) in Hin;
        rename gg into gm0; rename l into lvl0
    end.
    destruct (decide ((gm0, lvl0) = (gm, lvl))) as [[= <- <-]|];
      [|inversion Hin].
    unfold creation_writes in Hc1. cbn [commit apply_write] in Hc1.
    cbn [get_doc put_doc levels games gameModes] in Hc1.
    destruct (levels dbi !! (gm0, lvl0)); [|discriminate].
    injection Hc1 as <-. cbn [levels]. rewrite lookup_insert_eq. eauto.
Qed.

End LinkInvariant.

Section LinkClaim.
Import Firestore.

(** C7, amended.  Suppose that, before the run, the [gameRefs] array of
    every level holds exactly one reference per game that declares the level
    as its parent and nothing else, and every game declares a level that
    exists.  Then after any run that commits and in which no row names, for a
    game that exists, another parent than the one the game declares (the ids
    Firestore generates being new), the same holds again.  In any case the
    array of a level after the run is the array before it with, appended by
    set union, the references of the games the run creates under that level:
    a reference is added once, and only at the creation of its game. *)
Theorem C7_links_preserved
    (auto_id : nat -> string) (now : Z)
    (db db' : store) (games_csv structure_csv : list row)
    (file : csv_file) (w : world) :
  run auto_id db now games_csv structure_csv = (Ok (Some (db', file)), w) ->
  linked db ->
  housed db ->
  unused_ids auto_id db games_csv ->
  no_moves (games db) games_csv ->
  linked db' /\ housed db'
  /\ forall gm lvl,
       level_refs db' gm lvl
       = array_union (level_refs db gm lvl) (created_for gm lvl (batch w)).
Proof.
  intros Hrun Hlinked Hhoused (Hinj & Hfree & Hout) Hmoves.
  assert (Hgrow : forall gm lvl,
            level_refs db' gm lvl
            = array_union (level_refs db gm lvl) (created_for gm lvl (batch w)))
    by (intros gm lvl; eapply gameRefs_grow_by_created_games; eauto).
  apply run_finished in Hrun
    as (w_s & w_g & rows' & updated & Hs & Hg & Hc & _ & Hbw).
  apply structure_loop_ok in Hs as (bs & Hbs & Hfs). simpl in Hbs.
  apply game_loop_ok in Hg as (bg & Hloop & Hbg).
  rewrite Hbg, Hbs in Hc, Hbw. clear Hbg Hbs.
  rewrite commit_app in Hc.
  destruct (commit now bs db) as [db_s|] eqn:Hcs; [|discriminate].
  destruct (commit_structure_writes now db bs Hfs db db_s Hcs)
    as [Hgames _]; [reflexivity | reflexivity |].
  assert (Hcf : forall gm lvl,
            created_for gm lvl (batch w) = created_for gm lvl bg).
  { intros gm lvl.
    now rewrite Hbw, created_for_app, (created_for_structure db _ _ _ Hfs). }
  assert (Hdecl : forall id gm lvl,
            declares (games db') id gm lvl
            <-> declares (games db) id gm lvl
                \/ VRef (GameRef id) ∈ created_for gm lvl bg).
  { intros id gm lvl. rewrite <- Hgames.
    apply (loop_declares _ _ _ _ _ _ _ _ Hloop db_s db' Hc Hinj); auto.
    - intros j _. rewrite Hgames. apply Hfree.
    - now rewrite Hgames. }
  assert (Hold : forall gm lvl v,
            v ∈ level_refs db gm lvl
            <-> exists id, v = VRef (GameRef id)
                           /\ declares (games db) id gm lvl).
  { intros gm lvl v. unfold level_refs.
    destruct (levels db !! (gm, lvl)) as [level|] eqn:Hlevel.
    - now apply (Hlinked gm lvl level).
    - simpl. rewrite elem_of_nil. split; [tauto|].
      intros (id & _ & Hd). apply Hhoused in Hd as [? Hd]. congruence. }
  assert (Hnodup : forall gm lvl, NoDup (level_refs db gm lvl)).
  { intros gm lvl. unfold level_refs.
    destruct (levels db !! (gm, lvl)) as [level|] eqn:Hlevel.
    - now apply (Hlinked gm lvl level).
    - apply NoDup_nil_2. }
  split; [|split; [|exact Hgrow]].
  - intros gm lvl level Hlevel.
    assert (Hrefs : refs_of (Some level) = level_refs db' gm lvl)
      by (unfold level_refs; now rewrite Hlevel).
    rewrite Hrefs, Hgrow, Hcf. split.
    + apply array_union_refs_NoDup; [apply created_for_refs | apply Hnodup].
    + intros v. rewrite array_union_refs_elem by apply created_for_refs.
      rewrite Hold. split.
      * intros [(id & -> & Hd)|Hin].
        -- exists id. split; [reflexivity|]. apply Hdecl. now left.
        -- destruct (created_for_elem _ _ _ _ Hin) as (id & d & -> & _).
           exists id. split; [reflexivity|]. apply Hdecl. now right.
      * intros (id & -> & Hd). apply Hdecl in Hd as [Hd|Hin]; eauto.
  - intros id gm lvl Hd. apply Hdecl in Hd as [Hd|Hin].
    + apply (commit_keeps_level _ _ _ _ _ Hc).
      apply (commit_keeps_level _ _ _ _ _ Hcs). now apply (Hhoused id).
    + eapply loop_created_level; eauto.
Qed.


End LinkClaim.

(** The example database satisfies the invariant. *)
Lemma example_db_declares (id gm lvl : string) :
  declares (Firestore.games example_db) id gm lvl
  <-> id = "g1" /\ gm = "gm1" /\ lvl = "lvl1".
Proof.
  unfold declares, example_db. cbn [Firestore.games]. split.
  - intros (d & Hd & Hg & Hl).
    apply lookup_singleton_Some in Hd as [<- <-].
    injection Hg as <-. injection Hl as <-. auto.
  - intros (-> & -> & ->). eexists. split; [apply lookup_singleton_eq|].
    split; reflexivity.
Qed.

Lemma example_db_linked : linked example_db.
Proof.
  intros gm lvl level Hlevel. unfold example_db in Hlevel.
  cbn [Firestore.levels] in Hlevel.
  apply lookup_insert_Some in Hlevel as [[[= <- <-] <-]|[Hne Hlevel]].
  - split; [apply NoDup_singleton|].
    intros v. change (refs_of (Some (level_doc "One" "first level"
                                       (Firestore.VInt 60)
                                       [Firestore.VRef (Firestore.GameRef "g1")])))
      with [Firestore.VRef (Firestore.GameRef "g1")].
    rewrite list_elem_of_singleton. split.
    + intros ->. exists "g1". split; [reflexivity|].
      now apply example_db_declares.
    + intros (id & -> & Hd). apply example_db_declares in Hd as (-> & _).
      reflexivity.
  - apply lookup_singleton_Some in Hlevel as [[= <- <-] <-].
    split; [apply NoDup_nil_2|].
    intros v. change (refs_of (Some (level_doc "Two" "second level"
                                       Firestore.VNone [])))
      with (@nil Firestore.value).
    rewrite elem_of_nil. split; [tauto|].
    intros (id & _ & Hd). apply example_db_declares in Hd as (_ & _ & [=]).
Qed.

Lemma example_db_housed : housed example_db.
Proof.
  intros id gm lvl Hd. apply example_db_declares in Hd as (_ & -> & ->).
  eexists. reflexivity.
Qed.

Lemma C7_links_witness :
  let r := run example_auto_id example_db 7 [new_row; renamed_row]
             example_structure in
  let db' := default example_db (committed_store r) in
  linked db' /\ housed db'
  /\ forall gm lvl,
       level_refs db' gm lvl
       = Firestore.array_union (level_refs example_db gm lvl)
           (created_for gm lvl (batch (snd r))).
Proof.
  intros r db'.
  apply (C7_links_preserved example_auto_id 7 example_db db'
           [new_row; renamed_row] example_structure
           (default (CsvFile ∅ []) (written_file r)) (snd r)).
  - reflexivity.
  - exact example_db_linked.
  - exact example_db_housed.
  - split; [exact example_auto_id_inj|]. split.
    + intros i. apply lookup_singleton_ne. discriminate.
    + intros i game Hin.
      apply elem_of_cons in Hin as [->|Hin];
        [|apply list_elem_of_singleton in Hin as ->]; discriminate.
  - intros game d gm lvl Hin Hid Hd Hg Hl.
    apply elem_of_cons in Hin as [->|Hin];
      [discriminate | apply list_elem_of_singleton in Hin as ->].
    unfold example_db in Hd. cbn [Firestore.games] in Hd.
    apply lookup_singleton_Some in Hd as [_ <-].
    injection Hg as <-. injection Hl as <-. split; reflexivity.
Defined.

(** * Further properties of the code *)

(** ** Strings: [split] and [strip] *)

Lemma split_nonempty (c : ascii) (s : string) : PyStr.split c s <> [].
Proof.
  induction s as [|a s IH]; simpl; [discriminate|].
  destruct (Ascii.eqb a c); [discriminate|].
  destruct (PyStr.split c s); discriminate.
Qed.

Lemma split_length (c : ascii) (s : string) :
  length (PyStr.split c s) = S (count_char c s).
Proof.
  induction s as [|a s IH]; simpl; [reflexivity|].
  destruct (Ascii.eqb a c); simpl; [now rewrite IH|].
  destruct (PyStr.split c s); simpl in *; [discriminate|exact IH].
Qed.

Lemma split_join (c : ascii) (s : string) :
  join_with c (PyStr.split c s) = s.
Proof.
  induction s as [|a s IH]; simpl; [reflexivity|].
  destruct (Ascii.eqb a c) eqn:E.
  - apply Ascii.eqb_eq in E; subst a.
    pose proof (split_nonempty c s) as Hne.
    destruct (PyStr.split c s) as [|p rest] eqn:Hs; [congruence|].
    change (join_with c ("" :: p :: rest))
      with (String c (join_with c (p :: rest))).
    now rewrite IH.
  - pose proof (split_nonempty c s) as Hne.
    destruct (PyStr.split c s) as [|p rest] eqn:Hs; [congruence|].
    rewrite <- IH. destruct rest as [|q rest]; reflexivity.
Qed.

Lemma split_pieces_without (c : ascii) (s : string) :
  Forall (fun piece => count_char c piece = 0) (PyStr.split c s).
Proof.
  induction s as [|a s IH]; simpl.
  - constructor; [reflexivity|constructor].
  - destruct (Ascii.eqb a c) eqn:E.
    + constructor; [reflexivity|exact IH].
    + destruct (PyStr.split c s) as [|p rest].
      * constructor; [simpl; now rewrite E|constructor].
      * inversion IH; subst.
        constructor; [simpl; rewrite E; simpl; assumption|assumption].
Qed.

Lemma count_char_lstrip (c : ascii) (s : string) :
  count_char c s = 0 -> count_char c (PyStr.lstrip s) = 0.
Proof.
  induction s as [|a s IH]; simpl; [auto|].
  intros H. destruct (PyStr.is_space a); [apply IH; lia|exact H].
Qed.

Lemma count_char_rstrip (c : ascii) (s : string) :
  count_char c s = 0 -> count_char c (PyStr.rstrip s) = 0.
Proof.
  induction s as [|a s IH]; simpl; [auto|].
  intros H.
  destruct (PyStr.is_space a && PyStr.is_empty (PyStr.rstrip s)); simpl;
    [reflexivity|].
  rewrite IH by lia. lia.
Qed.

Lemma lstrip_trimmed_head (s : string) :
  match first_char (PyStr.lstrip s) with
  | Some a => PyStr.is_space a = false
  | None => PyStr.lstrip s = ""
  end.
Proof.
  induction s as [|a s IH]; simpl; [reflexivity|].
  destruct (PyStr.is_space a) eqn:E; [exact IH|simpl; exact E].
Qed.

Lemma rstrip_first_char (s : string) (a : ascii) :
  first_char s = Some a -> PyStr.is_space a = false ->
  first_char (PyStr.rstrip s) = Some a.
Proof.
  destruct s as [|b s]; simpl; [discriminate|].
  intros [= ->] ->. reflexivity.
Qed.

Lemma rstrip_last_char (s : string) :
  match last_char (PyStr.rstrip s) with
  | Some a => PyStr.is_space a = false
  | None => PyStr.rstrip s = ""
  end.
Proof.
  induction s as [|a s IH]; simpl; [reflexivity|].
  destruct (PyStr.rstrip s) as [|b r] eqn:Hr.
  - simpl. destruct (PyStr.is_space a) eqn:E; simpl; [reflexivity|exact E].
  - rewrite andb_false_r.
    change (last_char (String a (String b r))) with (last_char (String b r)).
    destruct (last_char (String b r)); [exact IH|discriminate IH].
Qed.

Lemma strip_trimmed (s : string) : trimmed (PyStr.strip s).
Proof.
  unfold trimmed, PyStr.strip.
  pose proof (lstrip_trimmed_head s) as Hh.
  pose proof (rstrip_last_char (PyStr.lstrip s)) as Hl.
  destruct (first_char (PyStr.lstrip s)) as [a|] eqn:Ha.
  - rewrite (rstrip_first_char _ _ Ha Hh).
    destruct (last_char (PyStr.rstrip (PyStr.lstrip s))) as [b|] eqn:Hb.
    + split; assumption.
    + exact Hl.
  - rewrite Hh. reflexivity.
Qed.

(** Stripping removes whitespace only: the string is the stripped one
    between two runs of whitespace. *)
Lemma lstrip_decompose (s : string) :
  exists pre, s = (pre ++ PyStr.lstrip s)%string
              /\ PyStr.forall_chars PyStr.is_space pre = true.
Proof.
  induction s as [|a s (pre & IH & Hp)]; simpl.
  - exists "". split; reflexivity.
  - destruct (PyStr.is_space a) eqn:E.
    + exists (String a pre). simpl. rewrite E, Hp.
      split; [change (String a s = String a (pre ++ PyStr.lstrip s)%string); now rewrite <- IH|reflexivity].
    + exists "". split; reflexivity.
Qed.

Lemma rstrip_decompose (s : string) :
  exists post, s = (PyStr.rstrip s ++ post)%string
               /\ PyStr.forall_chars PyStr.is_space post = true.
Proof.
  induction s as [|a s (post & IH & Hp)]; simpl.
  - exists "". split; reflexivity.
  - destruct (PyStr.is_space a && PyStr.is_empty (PyStr.rstrip s)) eqn:E.
    + apply andb_true_iff in E as [Ea Ee].
      destruct (PyStr.rstrip s); [|discriminate]. simpl in IH.
      exists (String a post). simpl. rewrite Ea, Hp.
      split; [now rewrite IH at 1|reflexivity].
    + exists post.
      split; [change (String a s = String a (PyStr.rstrip s ++ post)%string); now rewrite <- IH|exact Hp].
Qed.

Lemma strip_decompose (s : string) :
  exists pre post,
    s = (pre ++ PyStr.strip s ++ post)%string
    /\ PyStr.forall_chars PyStr.is_space pre = true
    /\ PyStr.forall_chars PyStr.is_space post = true.
Proof.
  destruct (lstrip_decompose s) as (pre & H1 & Hp).
  destruct (rstrip_decompose (PyStr.lstrip s)) as (post & H2 & Hq).
  exists pre, post. unfold PyStr.strip. rewrite <- H2. auto.
Qed.

(** ** The outcomes of a run *)

Section Outcomes.
Import Firestore.
Variable auto_id : nat -> string.

Local Ltac read_column H row key v Hv :=
  let E := fresh "E" in
  destruct (getitem_cases row key) as [(v & Hv & E)|[Hv E]];
  [rewrite (bind_lift_Ok _ _ _ _ E) in H
  |rewrite (bind_lift_Raise _ _ _ _ E) in H].

Local Ltac missing_column :=
  left; eexists; split; [reflexivity|];
  split; [unfold structure_columns; set_solver|assumption].

(** Why a structure row raises: a column is missing, or [int] refuses the
    suggested time limit. *)
Lemma structure_step_raise (db : store) (structure : row) (e : exn)
    (w w' : world) :
  structure_step db structure w = (Raise e, w') ->
  (exists k, e = KeyError k /\ k ∈ structure_columns /\ structure !! k = None)
  \/ (e = ValueError /\ bad_suggested_time_limit structure).
Proof.
  unfold structure_step. intros H.
  read_column H structure "id" gm Hgm;
    [|injection H as <- <-; missing_column].
  read_column H structure "levelId" lvl Hlvl;
    [|injection H as <- <-; missing_column].
  read_column H structure "name" name Hname;
    [|injection H as <- <-; missing_column].
  read_column H structure "description" description Hdesc;
    [|injection H as <- <-; missing_column].
  match type of H with
  | bind _ ?k w = _ =>
      destruct (structure_mode_write db gm name description k w)
        as (ms & Hmode)
  end.
  rewrite Hmode in H. clear Hmode.
  read_column H structure "levelName" ln Hln;
    [|injection H as <- <-; missing_column].
  read_column H structure "levelDescription" ld Hld;
    [|injection H as <- <-; missing_column].
  read_column H structure "levelSuggestedTimeLimit" sg Hsg;
    [|injection H as <- <-; missing_column].
  destruct (suggested_of sg) as [sug|e'] eqn:Hsug;
    [rewrite (bind_lift_Ok _ sug) in H by reflexivity
    |rewrite (bind_lift_Raise _ e') in H by reflexivity].
  - match type of H with
    | _ ?w1 = _ =>
        destruct (structure_level_write db gm lvl (level_fields ln ld sug) w1)
          as (ms' & Hlevel)
    end.
    unfold level_fields in Hlevel at 1 2.
    rewrite Hlevel in H. discriminate.
  - injection H as <- <-. right.
    unfold suggested_of, py_int, PyNum.int_of_digits in Hsug.
    destruct (PyStr.isdigit sg) eqn:Hd; [|discriminate].
    destruct (PyStr.forall_chars PyStr.is_decimal sg) eqn:Hdec.
    + destruct (Nat.leb_spec (String.length sg) PyNum.max_str_digits)
        as [Hlen|Hlen]; [discriminate|].
      injection Hsug as <-. split; [reflexivity|]. exists sg. auto.
    + injection Hsug as <-. split; [reflexivity|]. exists sg. auto.
Qed.

Lemma structure_loop_raise (db : store) (structure_csv : list row) (e : exn)
    (w w' : world) :
  structure_loop db structure_csv w = (Raise e, w') ->
  exists structure w1 w2,
    structure ∈ structure_csv
    /\ structure_step db structure w1 = (Raise e, w2).
Proof.
  revert w. induction structure_csv as [|s rest IH]; intros w; simpl.
  - discriminate.
  - unfold bind.
    destruct (structure_step db s w) as [[[]|e1] w1] eqn:Hstep.
    + intros Hrest. apply IH in Hrest as (s' & wa & wb & Hin & Hs').
      exists s', wa, wb. split; [now right|exact Hs'].
    + intros [= <- <-]. exists s, w, w1. split; [left|exact Hstep].
Qed.

(** A structure row asks Firestore for no id. *)
Lemma structure_step_generated (db : store) (structure : row) (w w' : world) :
  structure_step db structure w = (Ok tt, w') ->
  generated w' = generated w.
Proof.
  unfold structure_step. intros H.
  read_column H structure "id" gm Hgm; [|discriminate].
  read_column H structure "levelId" lvl Hlvl; [|discriminate].
  read_column H structure "name" name Hname; [|discriminate].
  read_column H structure "description" description Hdesc; [|discriminate].
  match type of H with
  | bind _ ?k w = _ =>
      destruct (structure_mode_write db gm name description k w)
        as (ms & Hmode)
  end.
  rewrite Hmode in H. clear Hmode.
  read_column H structure "levelName" ln Hln; [|discriminate].
  read_column H structure "levelDescription" ld Hld; [|discriminate].
  read_column H structure "levelSuggestedTimeLimit" sg Hsg; [|discriminate].
  destruct (suggested_of sg) as [sug|e'] eqn:Hsug;
    [rewrite (bind_lift_Ok _ sug) in H by reflexivity
    |rewrite (bind_lift_Raise _ e') in H by reflexivity; discriminate].
  match type of H with
  | _ ?w1 = _ =>
      destruct (structure_level_write db gm lvl (level_fields ln ld sug) w1)
        as (ms' & Hlevel)
  end.
  unfold level_fields in Hlevel at 1 2.
  rewrite Hlevel in H. injection H as <-. reflexivity.
Qed.

(** The batch after a structure pass that raises nothing: the two writes
    of each row, row after row. *)
Lemma structure_loop_rows (db : store) (structure_csv : list row)
    (w w' : world) :
  structure_loop db structure_csv w = (Ok tt, w') ->
  exists wss,
    batch w' = batch w ++ concat wss
    /\ Forall2 (row_writes db) structure_csv wss
    /\ generated w' = generated w.
Proof.
  revert w. induction structure_csv as [|s rest IH]; intros w; simpl.
  - unfold ret. intros [= <-]. exists []. simpl. rewrite app_nil_r.
    split; [reflexivity|]. split; [constructor|reflexivity].
  - unfold bind.
    destruct (structure_step db s w) as [[[]|e] w1] eqn:Hstep; [|discriminate].
    intros Hrest. apply IH in Hrest as (wss & Hb2 & Hf2 & Hg2).
    pose proof (structure_step_generated _ _ _ _ Hstep) as Hg1.
    apply structure_step_ok in Hstep
      as (gm & lvl & n & d & ln & ld & sg & sug
          & H1 & H2 & H3 & H4 & H5 & H6 & H7 & Hsug & Hb1).
    eexists (_ :: wss). simpl. rewrite Hb2, Hb1, <- app_assoc.
    split; [reflexivity|]. split; [|congruence].
    constructor; [|exact Hf2].
    exists gm, lvl, n, d, ln, ld, sg, sug. auto 12.
Qed.

(** Why [build_game_data] raises: a column it reads with [game[...]] is
    missing, or [float] refuses the time limit. *)
Lemma build_game_data_raise_inv (game : row) (gm lvl : string) (e : exn) :
  build_game_data game gm lvl = Raise e ->
  (exists k, e = KeyError k /\ k ∈ required_game_columns /\ game !! k = None)
  \/ (e = ValueError /\ bad_time_limit game
      /\ is_Some (game !! "name") /\ is_Some (game !! "instructions")).
Proof.
  unfold build_game_data, required_game_columns.
  destruct (getitem_cases game "name") as [(n & Hn & ->)|[Hn ->]]; simpl;
    [|intros [= <-]; left; eexists; split; [reflexivity|];
      split; [set_solver|assumption]].
  destruct (getitem_cases game "instructions") as [(i & Hi & ->)|[Hi ->]];
    simpl;
    [|intros [= <-]; left; eexists; split; [reflexivity|];
      split; [set_solver|assumption]].
  destruct (getitem_cases game "timeLimit") as [(t & Ht & ->)|[Ht ->]]; simpl;
    [|intros [= <-]; left; eexists; split; [reflexivity|];
      split; [set_solver|assumption]].
  unfold time_limit_of, py_float.
  destruct (PyStr.truthy t) eqn:Htr; simpl.
  - destruct (PyNum.float_of_string t) eqn:Hf; simpl.
    + destruct (getitem_cases game "answerBank") as [(a & Ha & ->)|[Ha ->]];
        simpl; [discriminate|].
      intros [= <-]; left; eexists; split; [reflexivity|].
      split; [set_solver|assumption].
    + intros [= <-]. right. split; [reflexivity|].
      split; [|split; eauto].
      exists t. split; [assumption|]. split; [|assumption].
      now apply truthy_nonempty.
  - destruct (getitem_cases game "answerBank") as [(a & Ha & ->)|[Ha ->]];
      simpl; [discriminate|].
    intros [= <-]; left; eexists; split; [reflexivity|].
    split; [set_solver|assumption].
Qed.

Lemma build_game_data_bad_time_limit (game : row) (gm lvl : string) :
  is_Some (game !! "name") -> is_Some (game !! "instructions") ->
  bad_time_limit game ->
  build_game_data game gm lvl = Raise ValueError.
Proof.
  intros [n Hn] [i Hi] (t & Ht & Hne & Hf). unfold build_game_data.
  rewrite (getitem_Some _ _ _ Hn), (getitem_Some _ _ _ Hi),
    (getitem_Some _ _ _ Ht). simpl.
  unfold time_limit_of, py_float.
  apply truthy_nonempty in Hne. rewrite Hne, Hf. reflexivity.
Qed.

Lemma game_iteration_raise_step (existing_games : gmap string doc)
    (game : row) (e : exn) (w w' : world) :
  game_iteration auto_id existing_games game w = (Raise e, w') ->
  game_step auto_id existing_games game w = (Raise e, w').
Proof.
  unfold game_iteration, try_except_KeyError. unfold bind at 1.
  destruct (game_step auto_id existing_games game w) as [[g|e'] w1];
    [discriminate|].
  destruct e'; intros H; [|now injection H as <- <-..].
  unfold bind, print, ret in H. discriminate.
Qed.

Lemma game_loop_raise (existing_games : gmap string doc)
    (games_csv : list row) (e : exn) (w w' : world) :
  game_loop auto_id existing_games games_csv w = (Raise e, w') ->
  exists game w1 w2,
    game ∈ games_csv
    /\ game_iteration auto_id existing_games game w1 = (Raise e, w2).
Proof.
  revert w. induction games_csv as [|g rest IH]; intros w; simpl.
  - discriminate.
  - unfold bind at 1.
    destruct (game_iteration auto_id existing_games g w)
      as [[[g' kept]|e1] w1] eqn:Hit.
    + unfold bind at 1.
      destruct (game_loop auto_id existing_games rest w1)
        as [[rs|e2] w2] eqn:Hloop; [discriminate|].
      intros [= <- <-]. apply IH in Hloop as (g2 & wa & wb & Hin & Hg2).
      exists g2, wa, wb. split; [now right|exact Hg2].
    + intros [= <- <-]. exists g, w, w1. split; [left|exact Hit].
Qed.

(** The four places where a run can end with an exception. *)
Lemma run_raised (db : store) (now : Z) (games_csv structure_csv : list row)
    (e : exn) :
  raised (run auto_id db now games_csv structure_csv) = Some e ->
  (exists w', structure_loop db structure_csv start = (Raise e, w'))
  \/ (exists w_s, structure_loop db structure_csv start = (Ok tt, w_s)
       /\ ((exists w', game_loop auto_id (games db) games_csv w_s = (Raise e, w'))
           \/ exists rows' updated w_g,
                game_loop auto_id (games db) games_csv w_s
                = (Ok (rows', updated), w_g)
                /\ ((commit now (batch w_g) db = None /\ e = CommitFailed)
                    \/ (is_Some (commit now (batch w_g) db)
                        /\ e = ValueError
                        /\ exists first others u,
                             rows' = first :: others
                             /\ u ∈ updated
                             /\ ~ dom u ⊆ dom first)))).
Proof.
  unfold raised, run, upload_games_from_csv.
  destruct games_csv as [|g gs]; [discriminate|].
  destruct structure_csv as [|s ss]; [discriminate|].
  unfold bind at 1.
  destruct (structure_loop db (s :: ss) start) as [[[]|e1] w_s] eqn:Hs;
    [|cbn [fst]; intros [= <-]; eauto].
  unfold fetch_existing_games. unfold bind at 1.
  destruct (game_loop auto_id (games db) (g :: gs) w_s)
    as [[[rows' updated]|e1] w_g] eqn:Hg;
    [|cbn [fst]; intros [= <-]; right; eauto].
  unfold bind at 1, batch_commit.
  destruct (commit now (batch w_g) db) as [db1|] eqn:Hc;
    [|cbn [fst]; intros [= <-]; right; exists w_s; split; [reflexivity|];
      right; exists rows', updated, w_g; auto].
  rewrite bind_print. unfold bind, lift, write_csv. cbn [fst snd].
  destruct (forallb _ updated) eqn:Hall; [discriminate|].
  cbn [fst]. intros [= <-]. right. exists w_s. split; [reflexivity|].
  right. exists rows', updated, w_g. split; [exact Hg|]. right.
  split; [rewrite Hc; eauto|]. split; [reflexivity|].
  destruct rows' as [|first others].
  - exfalso. simpl in Hg. unfold bind at 1 in Hg.
    destruct (game_iteration auto_id (games db) g w_s) as [[[g' k]|?] ?];
      [|discriminate].
    unfold bind at 1 in Hg.
    destruct (game_loop auto_id (games db) gs w) as [[[? ?]|?] ?];
      discriminate.
  - apply not_true_iff_false in Hall. rewrite forallb_forall in Hall.
    exists first, others.
    assert (Hex : Exists (fun u : row => ~ dom u ⊆ dom first) updated).
    { apply not_Forall_Exists; [intros u; apply _|].
      intros Hf. apply Hall. intros u Hu. apply bool_decide_eq_true.
      rewrite Forall_forall in Hf. apply Hf. now apply list_elem_of_In. }
    apply Exists_exists in Hex as (u & Hu & Hd). eauto.
Qed.

(** A row that reaches [build_game_data] with its columns in place and a
    time limit [float] refuses raises [ValueError]. *)
Lemma game_iteration_bad_time_limit (existing_games : gmap string doc)
    (game : row) (w : world) :
  is_Some (game !! "levelId") -> is_Some (game !! "gameModeId") ->
  is_Some (game !! "name") -> is_Some (game !! "instructions") ->
  bad_time_limit game -> reaches_build existing_games game ->
  exists w', game_iteration auto_id existing_games game w
             = (Raise ValueError, w').
Proof.
  intros [lvl Hl] [gm Hg] Hn Hi Hbad Hreach.
  pose proof (build_game_data_bad_time_limit game gm lvl Hn Hi Hbad) as Hb.
  assert (Hstep : exists w', game_step auto_id existing_games game w
                             = (Raise ValueError, w')).
  { unfold game_step.
    rewrite (bind_lift_Ok _ _ _ _ (getitem_Some _ _ _ Hl)).
    rewrite (bind_lift_Ok _ _ _ _ (getitem_Some _ _ _ Hg)).
    destruct Hreach as [Hid|(ex & Hex & Htr)].
    - rewrite Hid. cbn [negb]. unfold bind at 1, new_game_document.
      rewrite (bind_lift_Raise _ _ _ _ Hb). eauto.
    - destruct (PyStr.truthy (row_id game)) eqn:Hid; cbn [negb].
      + rewrite Hex, Htr. rewrite (bind_lift_Raise _ _ _ _ Hb). eauto.
      + unfold bind at 1, new_game_document.
        rewrite (bind_lift_Raise _ _ _ _ Hb). eauto. }
  destruct Hstep as (w' & Hstep).
  unfold game_iteration, try_except_KeyError. unfold bind at 1.
  rewrite Hstep. eauto.
Qed.

(** What an iteration that raises tells about its row. *)
Lemma game_iteration_raise_inv (existing_games : gmap string doc)
    (game : row) (e : exn) (w w' : world) :
  game_iteration auto_id existing_games game w = (Raise e, w') ->
  e = ValueError /\ batch w' = batch w
  /\ is_Some (game !! "levelId") /\ is_Some (game !! "gameModeId")
  /\ is_Some (game !! "name") /\ is_Some (game !! "instructions")
  /\ bad_time_limit game /\ reaches_build existing_games game.
Proof.
  intros H.
  pose proof (game_iteration_catches_KeyError _ _ _ _ _ _ H) as Hno.
  apply game_iteration_raise_step in H.
  apply game_step_raise in H as (Hb & _ & _ & Hwhy).
  destruct Hwhy as [[_ ->]|[[_ ->]|(gm & lvl & Hl & Hg & Hbuild & Hreach)]];
    [now destruct (Hno "levelId")|now destruct (Hno "gameModeId")|].
  apply build_game_data_raise_inv in Hbuild
    as [(k & -> & _)|(-> & Hbad & Hn & Hi)]; [now destruct (Hno k)|].
  unfold reaches_build. eauto 10.
Qed.

Lemma float_lstrip_chars (p : ascii -> bool) (s : string) :
  PyStr.forall_chars p s = true ->
  PyStr.forall_chars p (PyNum.float_lstrip s) = true.
Proof.
  induction s as [|a s IH]; simpl; [reflexivity|].
  intros H. destruct (PyNum.is_float_space a); [|exact H].
  apply andb_true_iff in H as [_ H]. auto.
Qed.

Lemma float_rstrip_chars (p : ascii -> bool) (s : string) :
  PyStr.forall_chars p s = true ->
  PyStr.forall_chars p (PyNum.float_rstrip s) = true.
Proof.
  induction s as [|a s IH]; simpl; [reflexivity|].
  intros H. apply andb_true_iff in H as [Ha H].
  destruct (PyNum.is_float_space a && PyStr.is_empty (PyNum.float_rstrip s));
    [reflexivity|].
  simpl. rewrite Ha. auto.
Qed.

(** [float] refuses a string of whitespace: what it leaves of it is empty
    or starts with a separator U+001C..U+001F, which starts no number. *)
Lemma float_of_string_blank (s : string) :
  PyStr.forall_chars PyStr.is_space s = true ->
  PyNum.float_of_string s = None.
Proof.
  intros H. unfold PyNum.float_of_string.
  assert (Ht : PyStr.forall_chars PyStr.is_space (PyNum.float_strip s) = true)
    by now apply float_rstrip_chars, float_lstrip_chars.
  destruct (PyNum.float_strip s) as [|a t]; [reflexivity|].
  simpl in Ht. apply andb_true_iff in Ht as [Ha _].
  destruct a as [[] [] [] [] [] [] [] []]; try discriminate Ha; reflexivity.
Qed.

(** The row an iteration keeps: the row itself, which has an id, or the
    row with the generated id, built from a row without id. *)
Lemma iteration_kept_row (existing_games : gmap string doc) (n n' : nat)
    (game game' : row) (ws : list write) :
  iteration_does auto_id existing_games n game game' true n' ws ->
  (game' = game /\ PyStr.truthy (row_id game) = true)
  \/ (game' = <["id" := auto_id n]> game
      /\ PyStr.truthy (row_id game) = false
      /\ exists gm lvl data,
           game !! "levelId" = Some lvl /\ game !! "gameModeId" = Some gm
           /\ build_game_data game gm lvl = Ok data).
Proof.
  intros H. inversion H; subst;
    [right; split; [reflexivity|]; split; [assumption|];
     exists gm, lvl, data; auto
    |left; split; [reflexivity|assumption]..].
Qed.

Lemma loop_updated_rows (existing_games : gmap string doc) (n n' : nat)
    (games_csv updated : list row) (ws : list write) :
  loop_does auto_id existing_games n games_csv updated n' ws ->
  forall u, u ∈ updated ->
    exists game, game ∈ games_csv
      /\ ((u = game /\ PyStr.truthy (row_id game) = true)
          \/ (PyStr.truthy (row_id game) = false
              /\ exists i gm lvl data,
                   u = <["id" := auto_id i]> game
                   /\ game !! "levelId" = Some lvl
                   /\ game !! "gameModeId" = Some gm
                   /\ build_game_data game gm lvl = Ok data)).
Proof.
  induction 1 as [|n g rest g' kept n1 ws1 upd n2 ws2 Hit Hrest IH];
    intros u Hu.
  - inversion Hu.
  - assert (Hrec : u ∈ upd -> exists game, game ∈ g :: rest
      /\ ((u = game /\ PyStr.truthy (row_id game) = true)
          \/ (PyStr.truthy (row_id game) = false
              /\ exists i gm lvl data,
                   u = <["id" := auto_id i]> game
                   /\ game !! "levelId" = Some lvl
                   /\ game !! "gameModeId" = Some gm
                   /\ build_game_data game gm lvl = Ok data))).
    { intros Hin. destruct (IH u Hin) as (game & Hg & Hcase).
      exists game. split; [now right|exact Hcase]. }
    destruct kept; [|auto].
    apply elem_of_cons in Hu as [->|Hu]; [|auto].
    exists g. split; [left|].
    apply iteration_kept_row in Hit
      as [[-> Hid]|(-> & Hid & gm & lvl & data & Hl & Hg & Hb)]; [auto|].
    right. split; [assumption|]. exists n, gm, lvl, data. auto.
Qed.

Lemma game_loop_first (existing_games : gmap string doc) (game : row)
    (rest : list row) (first : row) (others updated : list row)
    (w w' : world) :
  game_loop auto_id existing_games (game :: rest) w
  = (Ok (first :: others, updated), w') ->
  exists kept n' ws,
    iteration_does auto_id existing_games (generated w) game first kept n' ws.
Proof.
  simpl. unfold bind at 1.
  destruct (game_iteration auto_id existing_games game w)
    as [[[g kept]|e] w1] eqn:Hit; [|discriminate].
  unfold bind at 1.
  destruct (game_loop auto_id existing_games rest w1)
    as [[[rs us]|e] w2]; [|discriminate].
  unfold ret. cbn [fst snd]. intros [= <- _ _ _].
  apply game_iteration_ok in Hit as (ws & Hdo & _). eauto.
Qed.

Lemma build_game_data_columns (game : row) (gm lvl : string) (data : doc) :
  build_game_data game gm lvl = Ok data ->
  forall k, k ∈ required_game_columns -> is_Some (game !! k).
Proof.
  intros Hb k Hk.
  apply build_game_data_inv in Hb
    as (n & i & t & a & tl & Hn & Hi & Ht & Ha & _).
  unfold required_game_columns in Hk.
  repeat (apply elem_of_cons in Hk as [->|Hk]; [eauto|]).
  inversion Hk.
Qed.

Lemma same_columns_lookup (g g' : row) (k : string) :
  dom g = dom g' -> is_Some (g !! k) -> is_Some (g' !! k).
Proof. intros Hd Hk. apply elem_of_dom. rewrite <- Hd. now apply elem_of_dom. Qed.

Lemma row_id_without_column (game : row) :
  game !! "id" = None -> PyStr.truthy (row_id game) = false.
Proof. unfold row_id. intros ->. reflexivity. Qed.

(** When every row of the games file has the same columns, every row the
    loop appends has its columns among those of the first row as the loop
    leaves it: the [DictWriter] accepts them all. *)
Lemma updated_rows_fit_header (existing_games : gmap string doc)
    (game : row) (rest : list row) (first : row) (others updated : list row)
    (w w' : world) :
  (forall g, g ∈ game :: rest -> dom g = dom game) ->
  game_loop auto_id existing_games (game :: rest) w
  = (Ok (first :: others, updated), w') ->
  forall u, u ∈ updated -> dom u ⊆ dom first.
Proof.
  intros Hsame Hloop u Hu.
  destruct (game_loop_first _ _ _ _ _ _ _ _ Hloop) as (kept & n1 & ws1 & Hfirst).
  apply game_loop_ok in Hloop as (ws & Hdo & _).
  destruct (loop_updated_rows _ _ _ _ _ _ Hdo u Hu)
    as (g & Hg & Hcase).
  pose proof (Hsame g Hg) as Hdg.
  assert (Hfirst_dom : dom game ⊆ dom first
                       /\ (first = game \/ "id" ∈ dom first)).
  { inversion Hfirst; subst; try (split; [reflexivity|now left]).
    rewrite dom_insert_L. split; [apply union_subseteq_r|right].
    apply elem_of_union_l, elem_of_singleton. reflexivity. }
  destruct Hfirst_dom as [Hsub Hfid].
  destruct Hcase as [[-> _]|(Hid & i & gm & lvl & data & -> & Hl & Hgm & Hb)].
  - now rewrite Hdg.
  - rewrite dom_insert_L, Hdg.
    destruct (game !! "id") as [x|] eqn:Hx.
    { apply union_least; [|exact Hsub].
      apply singleton_subseteq_l, Hsub, elem_of_dom. eauto. }
    destruct Hfid as [->|Hfid];
      [|apply union_least; [now apply singleton_subseteq_l|exact Hsub]].
    exfalso.
    assert (Hcol : forall k, is_Some (g !! k) -> is_Some (game !! k)).
    { intros k. now apply same_columns_lookup. }
    pose proof (row_id_without_column _ Hx) as Hnoid.
    inversion Hfirst; subst; try congruence.
    + match goal with
      | H : <["id" := _]> game = game |- _ =>
          apply (f_equal (fun m : row => m !! "id")) in H;
          rewrite lookup_insert_eq in H; congruence
      end.
    + match goal with
      | H : raises _ _ _ |- _ =>
          destruct H as [[Hn _]|[[Hn _]|(gm' & lvl' & _ & _ & Hr & _)]]
      end.
      * destruct (Hcol "levelId") as [? ?]; [eauto|congruence].
      * destruct (Hcol "gameModeId") as [? ?]; [eauto|congruence].
      * apply build_game_data_raise_inv in Hr
          as [(k' & _ & Hk & Hnone)|[? _]]; [|discriminate].
        destruct (Hcol k') as [? ?];
          [eapply build_game_data_columns; eauto|congruence].
Qed.

(** X1.  Empty input: when the games file has no row the run warns about
    it and returns, whatever the structure file holds; when the games file
    has rows and the structure file has none, it warns about the structure
    file and returns.  In both cases the batch stays empty and no id is
    asked for.  With a row in each file the run never takes the early
    return. *)
Theorem empty_input_returns_before_any_write
    (db : store) (now : Z) (games_csv structure_csv : list row) :
  match games_csv, structure_csv with
  | [], _ =>
      run auto_id db now games_csv structure_csv
      = (Ok None, World 0 [] [WarnGamesEmpty])
  | _ :: _, [] =>
      run auto_id db now games_csv structure_csv
      = (Ok None, World 0 [] [WarnStructureEmpty])
  | _ :: _, _ :: _ =>
      fst (run auto_id db now games_csv structure_csv) <> Ok None
  end.
Proof.
  destruct games_csv as [|g gs]; [reflexivity|].
  destruct structure_csv as [|s ss]; [reflexivity|].
  unfold run, upload_games_from_csv. unfold bind at 1.
  destruct (structure_loop db (s :: ss) start) as [[[]|e] w_s];
    [|discriminate].
  unfold bind at 1.
  destruct (game_loop auto_id (fetch_existing_games db) (g :: gs) w_s)
    as [[[rows' updated]|e] w_g]; [|discriminate].
  unfold bind at 1, batch_commit.
  destruct (commit now (batch w_g) db) as [db1|]; [|discriminate].
  rewrite bind_print. unfold bind, lift, write_csv. cbn [fst snd].
  destruct (forallb _ updated); discriminate.
Qed.

(** X2.  A [KeyError] that ends a run comes from the structure file: some
    structure row lacks the column the error names, one of the seven the
    structure pass reads.  A games row never ends the run this way, as its
    [try] catches the [KeyError]. *)
Theorem KeyError_comes_from_a_structure_row
    (db : store) (now : Z) (games_csv structure_csv : list row) (k : string) :
  raised (run auto_id db now games_csv structure_csv) = Some (KeyError k) ->
  exists structure,
    structure ∈ structure_csv
    /\ k ∈ structure_columns
    /\ structure !! k = None.
Proof.
  intros H. apply run_raised in H
    as [(w' & Hs)|(w_s & _ & [(w' & Hg)|(rows' & updated & w_g & _ & Hend)])].
  - apply structure_loop_raise in Hs as (s & w1 & w2 & Hin & Hstep).
    apply structure_step_raise in Hstep as [(k' & [= <-] & Hk & Hnone)|[? _]];
      [|discriminate].
    eauto.
  - apply game_loop_raise in Hg as (g & w1 & w2 & _ & Hit).
    now destruct (game_iteration_catches_KeyError _ _ _ _ _ _ Hit k).
  - destruct Hend as [[_ ?]|(_ & ? & _)]; discriminate.
Qed.

(** X3.  A [ValueError] that ends the run of a games file whose rows all
    have the same columns has one of two causes: a structure row whose
    suggested time limit passes [isdigit] and is refused by [int], because
    it holds a superscript digit or has more than 4300 digits; or a games
    row that reaches [build_game_data] with a time limit that is not empty
    and that [float] refuses.  In particular the rewrite of the games file
    never fails on such a file. *)
Theorem ValueError_comes_from_a_time_limit
    (db : store) (now : Z) (games_csv structure_csv : list row) :
  (forall g g', g ∈ games_csv -> g' ∈ games_csv -> dom g = dom g') ->
  raised (run auto_id db now games_csv structure_csv) = Some ValueError ->
  (exists structure,
     structure ∈ structure_csv /\ bad_suggested_time_limit structure)
  \/ (exists game,
        game ∈ games_csv /\ bad_time_limit game
        /\ reaches_build (games db) game).
Proof.
  intros Hsame H. apply run_raised in H
    as [(w' & Hs)|(w_s & _ & [(w' & Hg)|(rows' & updated & w_g & Hg & Hend)])].
  - left. apply structure_loop_raise in Hs as (s & w1 & w2 & Hin & Hstep).
    apply structure_step_raise in Hstep as [(k' & ? & _)|[_ Hbad]];
      [discriminate|eauto].
  - right. apply game_loop_raise in Hg as (g & w1 & w2 & Hin & Hit).
    apply game_iteration_raise_inv in Hit
      as (_ & _ & _ & _ & _ & _ & Hbad & Hreach).
    eauto.
  - exfalso. destruct Hend as [[_ ?]|(_ & _ & first & others & u & -> & Hu & Hd)];
      [discriminate|].
    apply Hd. destruct games_csv as [|g gs]; [discriminate|].
    eapply updated_rows_fit_header; [|exact Hg|exact Hu].
    intros g' Hg'. apply Hsame; [exact Hg'|left].
Qed.

(** X4.  One games row ends the run exactly when it has its [levelId],
    [gameModeId], [name] and [instructions] columns, takes a branch that
    builds the game data (it has no id, or its document is in the snapshot
    with a field), and its time limit is not empty and no float literal.
    The exception is then [ValueError], and the batch is as the row found
    it. *)
Theorem game_row_ends_the_run_iff
    (existing_games : gmap string doc) (game : row) (w : world) :
  (forall e w',
     game_iteration auto_id existing_games game w = (Raise e, w') ->
     e = ValueError /\ batch w' = batch w)
  /\ ((exists w', game_iteration auto_id existing_games game w
                  = (Raise ValueError, w'))
      <-> (is_Some (game !! "levelId") /\ is_Some (game !! "gameModeId")
           /\ is_Some (game !! "name") /\ is_Some (game !! "instructions")
           /\ bad_time_limit game /\ reaches_build existing_games game)).
Proof.
  split; [|split].
  - intros e w' H. apply game_iteration_raise_inv in H. tauto.
  - intros (w' & H). apply game_iteration_raise_inv in H. tauto.
  - intros (Hl & Hg & Hn & Hi & Hbad & Hreach).
    now apply game_iteration_bad_time_limit.
Qed.

(** X5.  A time limit that holds whitespace only is not empty, so it is
    handed to [float], which refuses it: the cell raises [ValueError], where
    the empty cell gives [None]. *)
Theorem blank_time_limit_is_refused (s : string) :
  PyStr.forall_chars PyStr.is_space s = true ->
  time_limit_of s = if PyStr.is_empty s then Ok VNone else Raise ValueError.
Proof.
  intros H. unfold time_limit_of, PyStr.truthy, py_float.
  destruct (PyStr.is_empty s); [reflexivity|]. cbn [negb].
  now rewrite (float_of_string_blank _ H).
Qed.

End Outcomes.

Lemma blank_time_limit_witness :
  PyStr.forall_chars PyStr.is_space "  " = true
  /\ time_limit_of "  " = Raise ValueError.
Proof.
  split; [reflexivity|].
  exact (blank_time_limit_is_refused "  " eq_refl).
Defined.

Lemma KeyError_witness :
  exists structure : row,
    structure ∈ [structure_row_without_level_name]
    /\ "levelName" ∈ structure_columns
    /\ structure !! "levelName" = None.
Proof.
  apply (KeyError_comes_from_a_structure_row example_auto_id example_db 7
           [renamed_row] [structure_row_without_level_name] "levelName").
  reflexivity.
Defined.

Lemma ValueError_witness :
  (exists structure : row,
     structure ∈ example_structure /\ bad_suggested_time_limit structure)
  \/ (exists game : row,
        game ∈ [bad_time_limit_row] /\ bad_time_limit game
        /\ reaches_build (Firestore.games example_db) game).
Proof.
  apply (ValueError_comes_from_a_time_limit example_auto_id example_db 7
           [bad_time_limit_row] example_structure).
  - intros g g' Hg Hg'.
    apply list_elem_of_singleton in Hg, Hg'. subst. reflexivity.
  - reflexivity.
Defined.

(** ** What a commit keeps *)

Section Persistence.
Import Firestore.
Variable auto_id : nat -> string.

Lemma get_put_doc_is_Some (db : store) (r r' : docref) (d : doc) :
  is_Some (get_doc db r') -> is_Some (get_doc (put_doc db r d) r').
Proof.
  intros H. destruct r, r'; simpl in *; try exact H;
    apply lookup_insert_is_Some'; now right.
Qed.

(** No write deletes a document. *)
Lemma apply_write_keeps (now : Z) (dbi dbi1 : store) (wr : write) (r : docref) :
  apply_write now dbi wr = Some dbi1 ->
  is_Some (get_doc dbi r) -> is_Some (get_doc dbi1 r).
Proof.
  destruct wr as [r0 d|r0 d]; simpl.
  - intros [= <-]. apply get_put_doc_is_Some.
  - destruct (get_doc dbi r0); [|discriminate].
    intros [= <-]. apply get_put_doc_is_Some.
Qed.

Lemma apply_write_written (now : Z) (dbi dbi1 : store) (wr : write) :
  apply_write now dbi wr = Some dbi1 ->
  is_Some (get_doc dbi1 (write_ref wr)).
Proof.
  destruct wr as [r0 d|r0 d]; simpl.
  - intros [= <-]. rewrite get_put_doc_eq. eauto.
  - destruct (get_doc dbi r0); [|discriminate].
    intros [= <-]. rewrite get_put_doc_eq. eauto.
Qed.

Lemma commit_keeps (now : Z) (ws : list write) (dbi db' : store) (r : docref) :
  commit now ws dbi = Some db' ->
  is_Some (get_doc dbi r) -> is_Some (get_doc db' r).
Proof.
  revert dbi. induction ws as [|wr ws IH]; intros dbi; simpl.
  - intros [= <-]. auto.
  - destruct (apply_write now dbi wr) as [dbi1|] eqn:Hw; [|discriminate].
    intros Hc Hr. apply (IH dbi1 Hc). eapply apply_write_keeps; eauto.
Qed.

Lemma commit_written (now : Z) (ws : list write) (dbi db' : store) (wr : write) :
  commit now ws dbi = Some db' ->
  wr ∈ ws -> is_Some (get_doc db' (write_ref wr)).
Proof.
  revert dbi. induction ws as [|wr0 ws IH]; intros dbi; simpl.
  - intros _ H. inversion H.
  - destruct (apply_write now dbi wr0) as [dbi1|] eqn:Hw; [|discriminate].
    intros Hc Hin. apply elem_of_cons in Hin as [->|Hin].
    + eapply commit_keeps; [exact Hc|]. eapply apply_write_written; eauto.
    + eapply IH; eauto.
Qed.

Lemma committed_run (db : store) (now : Z) (games_csv structure_csv : list row)
    (db' : store) :
  committed_store (run auto_id db now games_csv structure_csv) = Some db' ->
  exists file w,
    run auto_id db now games_csv structure_csv = (Ok (Some (db', file)), w).
Proof.
  unfold committed_store.
  destruct (run auto_id db now games_csv structure_csv)
    as [[[[db1 file]|]|e] w]; simpl; try discriminate.
  intros [= <-]. eauto.
Qed.

Lemma write_ref_mode_write (db : store) (gm name description : string) :
  write_ref (mode_write db gm name description) = GameModeRef gm.
Proof. unfold mode_write. destruct (doc_exists _ _); reflexivity. Qed.

Lemma write_ref_level_write (db : store) (gm lvl : string) (fields : doc) :
  write_ref (level_write db gm lvl fields) = LevelRef gm lvl.
Proof. unfold level_write. destruct (doc_exists _ _); reflexivity. Qed.

Lemma doc_exists_is_Some (db : store) (r : docref) :
  doc_exists db r = true <-> is_Some (get_doc db r).
Proof. unfold doc_exists. apply bool_decide_eq_true. Qed.

(** A write of the structure pass updates only a document that the
    snapshot holds, so it applies to any database that has lost none of
    them. *)
Lemma structure_write_applies (now : Z) (db dbi : store) (wr : write) :
  structure_write db wr ->
  (forall r, is_Some (get_doc db r) -> is_Some (get_doc dbi r)) ->
  is_Some (apply_write now dbi wr).
Proof.
  intros Hwr Hkeep.
  assert (Hup : forall r d, doc_exists db r = true ->
                            is_Some (apply_write now dbi (WUpdate r d))).
  { intros r d Hex. apply doc_exists_is_Some, Hkeep in Hex as [old Hold].
    simpl. rewrite Hold. eauto. }
  destruct Hwr as [(gm & n & d & ->)|(gm & lvl & n & d & sug & _ & ->)].
  - unfold mode_write. destruct (doc_exists db (GameModeRef gm)) eqn:Hex;
      [now apply Hup|simpl; eauto].
  - unfold level_write. destruct (doc_exists db (LevelRef gm lvl)) eqn:Hex;
      [now apply Hup|simpl; eauto].
Qed.

Lemma commit_structure_succeeds (now : Z) (db : store) (ws : list write) :
  Forall (structure_write db) ws ->
  forall dbi,
    (forall r, is_Some (get_doc db r) -> is_Some (get_doc dbi r)) ->
    is_Some (commit now ws dbi).
Proof.
  induction 1 as [|wr ws Hwr _ IH]; intros dbi Hkeep; simpl; [eauto|].
  destruct (structure_write_applies now db dbi wr Hwr Hkeep) as [dbi1 Hw].
  rewrite Hw. apply IH. intros r Hr.
  eapply apply_write_keeps; eauto.
Qed.

(** A commit of the writes of the games loop fails only at the link of a
    new game to a level that is not there. *)
Lemma loop_commit_fails (now : Z) (existing_games : gmap string doc)
    (n n' : nat) (games_csv updated : list row) (ws : list write) :
  loop_does auto_id existing_games n games_csv updated n' ws ->
  forall dbi,
    (forall id, is_Some (existing_games !! id) -> is_Some (games dbi !! id)) ->
    commit now ws dbi = None ->
    exists game gm lvl,
      game ∈ games_csv
      /\ PyStr.truthy (row_id game) = false
      /\ game !! "gameModeId" = Some gm
      /\ game !! "levelId" = Some lvl
      /\ levels dbi !! (gm, lvl) = None.
Proof.
  induction 1 as [|n g rest g' kept n1 ws1 upd n2 ws2 Hit Hrest IH];
    intros dbi Hkeep Hc; [discriminate|].
  rewrite commit_app in Hc.
  destruct (commit now ws1 dbi) as [dbi1|] eqn:Hc1.
  - destruct (IH dbi1) as (game & gm & lvl & Hin & Hid & Hg & Hl & Hnone);
      [|exact Hc|].
    { intros id Hid. apply (commit_keeps _ _ _ _ (GameRef id) Hc1).
      now apply Hkeep. }
    exists game, gm, lvl. repeat split; auto; [now right|].
    destruct (levels dbi !! (gm, lvl)) eqn:Hlv; [|reflexivity].
    pose proof (commit_keeps _ _ _ _ (LevelRef gm lvl) Hc1) as Hk.
    simpl in Hk. rewrite Hnone, Hlv in Hk.
    destruct Hk as [? ?]; [eauto|discriminate].
  - clear IH Hc. inversion Hit; subst; try discriminate.
    + exists g, gm, lvl. repeat split; auto; [left|].
      unfold creation_writes in Hc1. simpl in Hc1.
      destruct (levels dbi !! (gm, lvl)); [discriminate|reflexivity].
    + exfalso. unfold update_write in Hc1. simpl in Hc1.
      match goal with
      | Hex : existing_games !! row_id ?x = Some _ |- _ =>
          destruct (Hkeep (row_id x)) as [old Hold]; [eauto|]
      end.
      rewrite Hold in Hc1. discriminate.
Qed.

Lemma row_writes_level (db : store) (structure : row) (ws : list write)
    (gm lvl : string) :
  row_writes db structure ws -> names_level structure gm lvl ->
  exists wr, wr ∈ ws /\ write_ref wr = LevelRef gm lvl.
Proof.
  intros (gm0 & lvl0 & n & d & ln & ld & sg & sug
          & H1 & H2 & _ & _ & _ & _ & _ & _ & ->) [Hg Hl].
  assert (gm0 = gm) by congruence. assert (lvl0 = lvl) by congruence. subst.
  eexists. split; [right; left|apply write_ref_level_write].
Qed.

Lemma row_writes_structure (db : store) (structure : row) (ws : list write) :
  row_writes db structure ws -> Forall (structure_write db) ws.
Proof.
  intros (gm0 & lvl0 & n & d & ln & ld & sg & sug
          & _ & _ & _ & _ & _ & _ & _ & Hsug & ->).
  constructor; [|constructor; [|constructor]].
  - left. eauto.
  - right. exists gm0, lvl0, ln, ld, sug.
    split; [apply (suggested_of_plain _ _ Hsug)|reflexivity].
Qed.

Lemma rows_writes_structure (db : store) (rows : list row)
    (wss : list (list write)) :
  Forall2 (row_writes db) rows wss -> Forall (structure_write db) (concat wss).
Proof.
  induction 1 as [|s ws rows wss Hrow _ IH]; simpl; [constructor|].
  apply Forall_app. split; [eapply row_writes_structure; eauto|exact IH].
Qed.

Lemma rows_writes_level (db : store) (rows : list row)
    (wss : list (list write)) (structure : row) (gm lvl : string) :
  Forall2 (row_writes db) rows wss ->
  structure ∈ rows -> names_level structure gm lvl ->
  exists wr, wr ∈ concat wss /\ write_ref wr = LevelRef gm lvl.
Proof.
  induction 1 as [|s ws rows wss Hrow _ IH]; intros Hin Hname.
  - inversion Hin.
  - simpl. apply elem_of_cons in Hin as [->|Hin].
    + destruct (row_writes_level _ _ _ _ _ Hrow Hname) as (wr & Hwr & Hr).
      exists wr. split; [apply elem_of_app; now left|exact Hr].
    + destruct (IH Hin Hname) as (wr & Hwr & Hr).
      exists wr. split; [apply elem_of_app; now right|exact Hr].
Qed.

(** X7.  When the commit of a run fails, the games file holds a row without
    id whose level is unknown: the database has no such level and no row of
    the structure file names it.  The link of the new game to that level is
    the update that finds no document; the writes of the structure pass and
    the updates of existing games never fail. *)
Theorem CommitFailed_comes_from_an_unknown_level
    (db : store) (now : Z) (games_csv structure_csv : list row) :
  raised (run auto_id db now games_csv structure_csv) = Some CommitFailed ->
  exists game gm lvl,
    game ∈ games_csv
    /\ PyStr.truthy (row_id game) = false
    /\ game !! "gameModeId" = Some gm
    /\ game !! "levelId" = Some lvl
    /\ levels db !! (gm, lvl) = None
    /\ forall structure, structure ∈ structure_csv ->
                         ~ names_level structure gm lvl.
Proof.
  intros H. apply run_raised in H
    as [(w' & Hs)|(w_s & Hs & [(w' & Hg)|(rows' & updated & w_g & Hg & Hend)])].
  - apply structure_loop_raise in Hs as (s & w1 & w2 & _ & Hstep).
    apply structure_step_raise in Hstep as [(k' & ? & _)|[? _]]; discriminate.
  - apply game_loop_raise in Hg as (g & w1 & w2 & _ & Hit).
    apply game_iteration_raise_inv in Hit as (? & _). discriminate.
  - destruct Hend as [[Hc _]|(_ & ? & _)]; [|discriminate].
    apply structure_loop_rows in Hs as (wss & Hbs & Hrows & _).
    apply game_loop_ok in Hg as (ws & Hloop & Hbg).
    rewrite Hbg, Hbs in Hc. simpl in Hc. rewrite commit_app in Hc.
    destruct (commit_structure_succeeds now db (concat wss)
                (rows_writes_structure _ _ _ Hrows) db (fun r H => H))
      as [db_s Hcs].
    rewrite Hcs in Hc.
    destruct (loop_commit_fails now _ _ _ _ _ _ Hloop db_s)
      as (game & gm & lvl & Hin & Hid & Hgm & Hlvl & Hnone); [|exact Hc|].
    { intros id Hid. exact (commit_keeps _ _ _ _ (GameRef id) Hcs Hid). }
    exists game, gm, lvl. repeat split; auto.
    + destruct (levels db !! (gm, lvl)) eqn:Hlv; [|reflexivity].
      pose proof (commit_keeps _ _ _ _ (LevelRef gm lvl) Hcs) as Hk.
      simpl in Hk. rewrite Hnone, Hlv in Hk.
      destruct Hk as [? ?]; [eauto|discriminate].
    + intros s Hs Hname.
      destruct (rows_writes_level _ _ _ _ _ _ Hrows Hs Hname)
        as (wr & Hwr & Href).
      pose proof (commit_written _ _ _ _ _ Hcs Hwr) as Hw.
      rewrite Href in Hw. simpl in Hw. rewrite Hnone in Hw.
      destruct Hw; discriminate.
Qed.

Lemma built_data_fields (game : row) (gm lvl : string) (data : doc)
    (key : string) :
  build_game_data game gm lvl = Ok data ->
  key ∉ written_game_fields ->
  (<["updatedAt" := ServerTimestamp]> data) !! key = None.
Proof.
  intros Hb Hkey.
  apply build_game_data_inv in Hb
    as (n & i & t & a & tl & _ & _ & _ & _ & _ & ->).
  unfold written_game_fields in Hkey. unfold game_dict.
  repeat (rewrite lookup_insert_ne;
          [|intros <-; apply Hkey; set_solver]).
  apply lookup_empty.
Qed.

(** One iteration leaves the fields it does not write in every game the
    database holds under another id than the one it generates. *)
Lemma iteration_keeps_fields (now : Z) (existing_games : gmap string doc)
    (n n' : nat) (game game' : row) (kept : bool) (ws : list write)
    (dbi dbi1 : store) (id key : string) (d : doc) :
  iteration_does auto_id existing_games n game game' kept n' ws ->
  commit now ws dbi = Some dbi1 ->
  games dbi !! id = Some d ->
  id <> auto_id n ->
  key ∉ written_game_fields ->
  exists d1, games dbi1 !! id = Some d1 /\ d1 !! key = d !! key.
Proof.
  intros Hit Hc Hd Hne Hkey.
  inversion Hit; subst; try (injection Hc as <-; eauto).
  - unfold creation_writes in Hc. simpl in Hc.
    destruct (levels dbi !! (gm, lvl)); [|discriminate].
    injection Hc as <-. simpl. rewrite lookup_insert_ne by congruence. eauto.
  - unfold update_write in Hc. simpl in Hc.
    match type of Hc with
    | context [games dbi !! ?x] =>
        destruct (games dbi !! x) as [old|] eqn:Hold; [|discriminate];
        destruct (decide (x = id)) as [Hx|Hx]
    end; injection Hc as <-; simpl.
    + rewrite Hx in *. rewrite lookup_insert_eq.
      eexists. split; [reflexivity|].
      rewrite lookup_updated.
      match goal with
      | Hb : build_game_data _ _ _ = Ok _ |- _ =>
          rewrite (built_data_fields _ _ _ _ _ Hb Hkey)
      end.
      congruence.
    + rewrite lookup_insert_ne by exact Hx. eauto.
Qed.

Lemma loop_keeps_fields (now : Z) (existing_games : gmap string doc)
    (n n' : nat) (games_csv updated : list row) (ws : list write)
    (id key : string) :
  loop_does auto_id existing_games n games_csv updated n' ws ->
  (forall i, auto_id i <> id) ->
  key ∉ written_game_fields ->
  forall dbi db' d,
    commit now ws dbi = Some db' ->
    games dbi !! id = Some d ->
    exists d', games db' !! id = Some d' /\ d' !! key = d !! key.
Proof.
  intros Hloop Hfresh Hkey.
  induction Hloop as [|n g rest g' kept n1 ws1 upd n2 ws2 Hit Hrest IH];
    intros dbi db' d Hc Hd.
  - injection Hc as <-. eauto.
  - rewrite commit_app in Hc.
    destruct (commit now ws1 dbi) as [dbi1|] eqn:Hc1; [|discriminate].
    destruct (iteration_keeps_fields _ _ _ _ _ _ _ _ _ _ id key d Hit Hc1 Hd)
      as (d1 & Hd1 & Hk1); [intros ->; now apply (Hfresh n)|exact Hkey|].
    destruct (IH dbi1 db' d1 Hc Hd1) as (d' & Hd' & Hk').
    exists d'. split; [exact Hd'|congruence].
Qed.

(** X8.  An update of an existing game overwrites the ten fields the
    script writes and nothing else: after a committed run, a game the
    database held before, under an id Firestore does not generate anew,
    holds every other field, [createdAt] among them, as before the run. *)
Theorem existing_game_keeps_its_other_fields
    (db : store) (now : Z) (games_csv structure_csv : list row)
    (db' : store) (id key : string) (d : doc) :
  committed_store (run auto_id db now games_csv structure_csv) = Some db' ->
  games db !! id = Some d ->
  (forall i, auto_id i <> id) ->
  key ∉ written_game_fields ->
  exists d', games db' !! id = Some d' /\ d' !! key = d !! key.
Proof.
  intros Hrun Hd Hfresh Hkey.
  apply committed_run in Hrun as (file & w & Hrun).
  apply run_finished in Hrun
    as (w_s & w_g & rows' & updated & Hs & Hg & Hc & _).
  apply structure_loop_ok in Hs as (bs & Hbs & Hfs).
  apply game_loop_ok in Hg as (bg & Hloop & Hbg).
  rewrite Hbg, Hbs in Hc. simpl in Hc. rewrite commit_app in Hc.
  destruct (commit now bs db) as [db_s|] eqn:Hcs; [|discriminate].
  destruct (commit_structure_writes now db bs Hfs db db_s Hcs eq_refl
              (fun _ _ => eq_refl)) as [Hgames _].
  eapply loop_keeps_fields; eauto. now rewrite Hgames.
Qed.

(** *** What the structure pass leaves in a level and in a game mode *)

Lemma level_write_stores (now : Z) (db dbi dbi1 : store)
    (gm lvl name description : string) (sug : value) :
  (forall t old, resolve t old sug = sug) ->
  apply_write now dbi
    (level_write db gm lvl (level_fields name description sug)) = Some dbi1 ->
  level_holds dbi1 gm lvl name description sug.
Proof.
  intros Hsug. unfold level_write, level_holds.
  destruct (level_fields_lookup name description sug) as (Hn & Hd & Hs & Hr).
  destruct (doc_exists db (LevelRef gm lvl)); simpl.
  - destruct (levels dbi !! (gm, lvl)) as [old|]; [|discriminate].
    intros [= <-]. simpl. rewrite lookup_insert_eq.
    eexists. split; [reflexivity|].
    rewrite !lookup_updated, Hn, Hd, Hs. simpl. now rewrite Hsug.
  - intros [= <-]. simpl. rewrite lookup_insert_eq.
    eexists. split; [reflexivity|].
    rewrite !lookup_resolve_fields.
    rewrite !lookup_insert_ne by discriminate.
    rewrite Hn, Hd, Hs. simpl. now rewrite Hsug.
Qed.

Lemma mode_write_stores (now : Z) (db dbi dbi1 : store)
    (gm name description : string) :
  apply_write now dbi (mode_write db gm name description) = Some dbi1 ->
  mode_holds dbi1 gm name description.
Proof.
  unfold mode_write, mode_holds.
  destruct (doc_exists db (GameModeRef gm)); simpl.
  - destruct (gameModes dbi !! gm) as [old|]; [|discriminate].
    intros [= <-]. simpl. rewrite lookup_insert_eq.
    eexists. split; [reflexivity|].
    rewrite !lookup_updated. rewrite lookup_insert_eq.
    rewrite lookup_insert_ne by discriminate. rewrite lookup_insert_eq.
    auto.
  - intros [= <-]. simpl. rewrite lookup_insert_eq.
    eexists. split; [reflexivity|].
    rewrite !lookup_resolve_fields. rewrite lookup_insert_eq.
    rewrite lookup_insert_ne by discriminate. rewrite lookup_insert_eq.
    auto.
Qed.

Lemma spared_level_holds (now : Z) (dbi dbi1 : store) (wr : write)
    (gm lvl name description : string) (sug : value) :
  spares_level gm lvl wr ->
  apply_write now dbi wr = Some dbi1 ->
  level_holds dbi gm lvl name description sug ->
  level_holds dbi1 gm lvl name description sug.
Proof.
  intros [Hne|(v & ->)] Hw (d & Hd & Hn & Hde & Hs); unfold level_holds.
  - assert (Hsame : get_doc dbi1 (LevelRef gm lvl)
                    = get_doc dbi (LevelRef gm lvl)).
    { destruct wr as [r0 d0|r0 d0]; simpl in Hw, Hne.
      - injection Hw as <-. now apply get_put_doc_ne.
      - destruct (get_doc dbi r0); [|discriminate].
        injection Hw as <-. now apply get_put_doc_ne. }
    simpl in Hsame. rewrite Hsame. eauto.
  - simpl in Hw. rewrite Hd in Hw. injection Hw as <-. simpl.
    rewrite lookup_insert_eq. eexists. split; [reflexivity|].
    rewrite !lookup_updated.
    rewrite !lookup_singleton_ne by discriminate. auto.
Qed.

Lemma commit_spared_level (now : Z) (ws : list write)
    (gm lvl name description : string) (sug : value) :
  Forall (spares_level gm lvl) ws ->
  forall dbi db',
    commit now ws dbi = Some db' ->
    level_holds dbi gm lvl name description sug ->
    level_holds db' gm lvl name description sug.
Proof.
  induction 1 as [|wr ws Hwr _ IH]; intros dbi db'; simpl.
  - intros [= <-]. auto.
  - destruct (apply_write now dbi wr) as [dbi1|] eqn:Hw; [|discriminate].
    intros Hc Hh. apply (IH dbi1 db' Hc).
    eapply spared_level_holds; eauto.
Qed.

Lemma spares_other_mode (gm name : string) (wr : write) :
  write_ref wr <> GameModeRef gm ->
  forall now dbi dbi1 description,
    apply_write now dbi wr = Some dbi1 ->
    mode_holds dbi gm name description ->
    mode_holds dbi1 gm name description.
Proof.
  intros Hne now dbi dbi1 description Hw (d & Hd & Hrest).
  assert (Hsame : get_doc dbi1 (GameModeRef gm) = get_doc dbi (GameModeRef gm)).
  { destruct wr as [r0 d0|r0 d0]; simpl in Hw, Hne.
    - injection Hw as <-. now apply get_put_doc_ne.
    - destruct (get_doc dbi r0); [|discriminate].
      injection Hw as <-. now apply get_put_doc_ne. }
  simpl in Hsame. exists d. rewrite Hsame. auto.
Qed.

Lemma commit_other_mode (now : Z) (ws : list write)
    (gm name description : string) :
  Forall (fun wr => write_ref wr <> GameModeRef gm) ws ->
  forall dbi db',
    commit now ws dbi = Some db' ->
    mode_holds dbi gm name description ->
    mode_holds db' gm name description.
Proof.
  induction 1 as [|wr ws Hwr _ IH]; intros dbi db'; simpl.
  - intros [= <-]. auto.
  - destruct (apply_write now dbi wr) as [dbi1|] eqn:Hw; [|discriminate].
    intros Hc Hh. apply (IH dbi1 db' Hc).
    eapply spares_other_mode; eauto.
Qed.

(** The writes of the games loop go to games and to the [gameRefs] of
    levels. *)
Lemma loop_writes_targets (existing_games : gmap string doc) (n n' : nat)
    (games_csv updated : list row) (ws : list write) :
  loop_does auto_id existing_games n games_csv updated n' ws ->
  Forall (fun wr =>
            (exists id, write_ref wr = GameRef id)
            \/ exists gm lvl v,
                 wr = WUpdate (LevelRef gm lvl) {["gameRefs" := v]}) ws.
Proof.
  induction 1 as [|n g rest g' kept n1 ws1 upd n2 ws2 Hit Hrest IH];
    [constructor|].
  apply Forall_app. split; [|exact IH].
  inversion Hit; subst; [| |constructor..].
  - constructor; [left; simpl; eauto|].
    constructor; [right; eauto|constructor].
  - constructor; [left; simpl; eauto|constructor].
Qed.

Lemma loop_spares_level (existing_games : gmap string doc) (n n' : nat)
    (games_csv updated : list row) (ws : list write) (gm lvl : string) :
  loop_does auto_id existing_games n games_csv updated n' ws ->
  Forall (spares_level gm lvl) ws.
Proof.
  intros Hloop. apply loop_writes_targets in Hloop.
  eapply Forall_impl; [exact Hloop|]. simpl.
  intros wr [(id & Hid)|(gm' & lvl' & v & ->)]; unfold spares_level.
  - left. rewrite Hid. discriminate.
  - destruct (decide ((gm', lvl') = (gm, lvl))) as [[= -> ->]|Hne].
    + right. eauto.
    + left. simpl. congruence.
Qed.

Lemma loop_spares_mode (existing_games : gmap string doc) (n n' : nat)
    (games_csv updated : list row) (ws : list write) (gm : string) :
  loop_does auto_id existing_games n games_csv updated n' ws ->
  Forall (fun wr => write_ref wr <> GameModeRef gm) ws.
Proof.
  intros Hloop. apply loop_writes_targets in Hloop.
  eapply Forall_impl; [exact Hloop|]. simpl.
  intros wr [(id & Hid)|(gm' & lvl' & v & ->)].
  - rewrite Hid. discriminate.
  - simpl. discriminate.
Qed.

Lemma rows_spare_level (db : store) (rows : list row)
    (wss : list (list write)) (gm lvl : string) :
  Forall2 (row_writes db) rows wss ->
  (forall s, s ∈ rows -> ~ names_level s gm lvl) ->
  Forall (spares_level gm lvl) (concat wss).
Proof.
  induction 1 as [|s ws rows wss Hrow _ IH]; intros Hno; simpl;
    [constructor|].
  apply Forall_app. split.
  - destruct Hrow as (gm0 & lvl0 & n & d & ln & ld & sg & sug
                      & H1 & H2 & _ & _ & _ & _ & _ & _ & ->).
    constructor; [|constructor; [|constructor]]; left.
    + rewrite write_ref_mode_write. discriminate.
    + rewrite write_ref_level_write. intros [= -> ->].
      apply (Hno s); [left|split; assumption].
  - apply IH. intros s' Hs'. apply Hno. now right.
Qed.

Lemma rows_spare_mode (db : store) (rows : list row)
    (wss : list (list write)) (gm : string) :
  Forall2 (row_writes db) rows wss ->
  (forall s, s ∈ rows -> s !! "id" <> Some gm) ->
  Forall (fun wr => write_ref wr <> GameModeRef gm) (concat wss).
Proof.
  induction 1 as [|s ws rows wss Hrow _ IH]; intros Hno; simpl;
    [constructor|].
  apply Forall_app. split.
  - destruct Hrow as (gm0 & lvl0 & n & d & ln & ld & sg & sug
                      & H1 & H2 & _ & _ & _ & _ & _ & _ & ->).
    constructor; [|constructor; [|constructor]].
    + rewrite write_ref_mode_write. intros [= ->].
      apply (Hno s); [left|assumption].
    + rewrite write_ref_level_write. discriminate.
  - apply IH. intros s' Hs'. apply Hno. now right.
Qed.

(** The stages of the commit of a run whose structure file is split at one
    of its rows. *)
Lemma committed_run_stages (db : store) (now : Z)
    (games_csv before after : list row) (structure : row) (db' : store) :
  committed_store
    (run auto_id db now games_csv (before ++ structure :: after)) = Some db' ->
  exists wss_before ws wss_after bg n' updated db1 db2 db3,
    Forall2 (row_writes db) before wss_before
    /\ row_writes db structure ws
    /\ Forall2 (row_writes db) after wss_after
    /\ loop_does auto_id (games db) 0 games_csv updated n' bg
    /\ commit now (concat wss_before) db = Some db1
    /\ commit now ws db1 = Some db2
    /\ commit now (concat wss_after) db2 = Some db3
    /\ commit now bg db3 = Some db'.
Proof.
  intros Hrun. apply committed_run in Hrun as (file & w & Hrun).
  apply run_finished in Hrun
    as (w_s & w_g & rows' & updated & Hs & Hg & Hc & _).
  apply structure_loop_rows in Hs as (wss & Hbs & Hrows & Hgen).
  apply game_loop_ok in Hg as (bg & Hloop & Hbg).
  rewrite Hgen in Hloop. simpl in Hloop.
  rewrite Hbg, Hbs in Hc. simpl in Hc.
  apply Forall2_app_inv_l in Hrows as (wss1 & wss2 & H1 & H2 & ->).
  apply Forall2_cons_inv_l in H2 as (ws & wss3 & Hrow & H3 & ->).
  rewrite concat_app in Hc. simpl in Hc.
  rewrite !commit_app in Hc.
  destruct (commit now (concat wss1) db) as [db1|] eqn:Hc1; [|discriminate].
  rewrite !commit_app in Hc.
  destruct (commit now ws db1) as [db2|] eqn:Hc2; [|discriminate].
  destruct (commit now (concat wss3) db2) as [db3|] eqn:Hc3; [|discriminate].
  exists wss1, ws, wss3, bg, (generated w_g), updated, db1, db2, db3.
  auto 10.
Qed.

(** X9.  The last row wins.  After a committed run, the level a structure
    row names holds the name, the description and the suggested time limit
    of that row, provided no later row of the structure file names the same
    level: the games loop only touches the [gameRefs] of a level. *)
Theorem level_holds_its_last_structure_row
    (db : store) (now : Z) (games_csv before after : list row)
    (structure : row) (db' : store) (gm lvl : string) :
  committed_store
    (run auto_id db now games_csv (before ++ structure :: after)) = Some db' ->
  names_level structure gm lvl ->
  (forall later, later ∈ after -> ~ names_level later gm lvl) ->
  exists name description suggested sug,
    structure !! "levelName" = Some name
    /\ structure !! "levelDescription" = Some description
    /\ structure !! "levelSuggestedTimeLimit" = Some suggested
    /\ suggested_of suggested = Ok sug
    /\ level_holds db' gm lvl name description sug.
Proof.
  intros Hrun [Hgm Hlvl] Hlast.
  apply committed_run_stages in Hrun
    as (wss1 & ws & wss3 & bg & n' & updated & db1 & db2 & db3
        & _ & Hrow & Hafter & Hloop & _ & Hc2 & Hc3 & Hc4).
  destruct Hrow as (gm0 & lvl0 & n & d & ln & ld & sg & sug
                    & H1 & H2 & _ & _ & Hln & Hld & Hsg & Hsug & ->).
  assert (gm0 = gm) by congruence. assert (lvl0 = lvl) by congruence. subst.
  exists ln, ld, sg, sug. repeat split; auto.
  simpl in Hc2.
  destruct (apply_write now db1 (mode_write db gm n d)) as [dba|]; [|discriminate].
  destruct (apply_write now dba
              (level_write db gm lvl (level_fields ln ld sug)))
    as [dbb|] eqn:Hw; [|discriminate].
  injection Hc2 as ->.
  apply level_write_stores in Hw; [|intros; eapply suggested_of_plain; eauto].
  eapply commit_spared_level; [eapply loop_spares_level; eauto|exact Hc4|].
  eapply commit_spared_level; [eapply rows_spare_level; eauto|exact Hc3|].
  exact Hw.
Qed.

(** X10.  In the same way, after a committed run a game mode holds the name
    and the description of the last structure row that carries its id. *)
Theorem game_mode_holds_its_last_structure_row
    (db : store) (now : Z) (games_csv before after : list row)
    (structure : row) (db' : store) (gm : string) :
  committed_store
    (run auto_id db now games_csv (before ++ structure :: after)) = Some db' ->
  structure !! "id" = Some gm ->
  (forall later, later ∈ after -> later !! "id" <> Some gm) ->
  exists name description,
    structure !! "name" = Some name
    /\ structure !! "description" = Some description
    /\ mode_holds db' gm name description.
Proof.
  intros Hrun Hgm Hlast.
  apply committed_run_stages in Hrun
    as (wss1 & ws & wss3 & bg & n' & updated & db1 & db2 & db3
        & _ & Hrow & Hafter & Hloop & _ & Hc2 & Hc3 & Hc4).
  destruct Hrow as (gm0 & lvl0 & n & d & ln & ld & sg & sug
                    & H1 & H2 & Hn & Hd & _ & _ & _ & _ & ->).
  assert (gm0 = gm) by congruence. subst.
  exists n, d. repeat split; auto.
  simpl in Hc2.
  destruct (apply_write now db1 (mode_write db gm n d)) as [dba|] eqn:Hm;
    [|discriminate].
  destruct (apply_write now dba
              (level_write db gm lvl0 (level_fields ln ld sug)))
    as [dbb|] eqn:Hw; [|discriminate].
  injection Hc2 as ->.
  apply mode_write_stores in Hm.
  eapply commit_other_mode; [eapply loop_spares_mode; eauto|exact Hc4|].
  eapply commit_other_mode; [eapply rows_spare_mode; eauto|exact Hc3|].
  eapply spares_other_mode; [|exact Hw|exact Hm].
  rewrite write_ref_level_write. discriminate.
Qed.

(** *** The structure pass against the database a run leaves *)

Lemma committed_structure_row (db : store) (now : Z)
    (games_csv structure_csv : list row) (db' : store) (structure : row) :
  committed_store (run auto_id db now games_csv structure_csv) = Some db' ->
  structure ∈ structure_csv ->
  exists ws gm lvl,
    row_writes db structure ws
    /\ names_level structure gm lvl
    /\ is_Some (gameModes db' !! gm)
    /\ is_Some (levels db' !! (gm, lvl)).
Proof.
  intros Hrun Hin.
  apply list_elem_of_split in Hin as (before & after & ->).
  apply committed_run_stages in Hrun
    as (wss1 & ws & wss3 & bg & n' & updated & db1 & db2 & db3
        & _ & Hrow & _ & _ & _ & Hc2 & Hc3 & Hc4).
  pose proof Hrow as Hrow'.
  destruct Hrow as (gm & lvl & n & d & ln & ld & sg & sug
                    & H1 & H2 & _ & _ & _ & _ & _ & _ & Hws).
  exists ws, gm, lvl. split; [exact Hrow'|]. split; [split; assumption|].
  subst ws.
  assert (Hkeep : forall r, is_Some (get_doc db2 r) -> is_Some (get_doc db' r)).
  { intros r Hr. apply (commit_keeps _ _ _ _ r Hc4).
    now apply (commit_keeps _ _ _ _ r Hc3). }
  split.
  - apply (Hkeep (GameModeRef gm)).
    rewrite <- (write_ref_mode_write db gm n d).
    eapply commit_written; [exact Hc2|left].
  - apply (Hkeep (LevelRef gm lvl)).
    rewrite <- (write_ref_level_write db gm lvl (level_fields ln ld sug)).
    eapply commit_written; [exact Hc2|right; left].
Qed.

(** A structure row whose game mode and level exist adds two updates and
    prints nothing. *)
Lemma structure_step_existing (db0 db : store) (structure : row)
    (ws : list write) (gm lvl : string) (w : world) :
  row_writes db0 structure ws ->
  names_level structure gm lvl ->
  is_Some (gameModes db !! gm) ->
  is_Some (levels db !! (gm, lvl)) ->
  exists d1 d2,
    structure_step db structure w
    = (Ok tt,
       World (generated w)
         (batch w ++ [WUpdate (GameModeRef gm) d1; WUpdate (LevelRef gm lvl) d2])
         (printed w)).
Proof.
  intros (gm0 & lvl0 & n & d & ln & ld & sg & sug
          & H1 & H2 & H3 & H4 & H5 & H6 & H7 & Hsug & _) [Hg Hl] Hm Hlv.
  assert (gm0 = gm) by congruence. assert (lvl0 = lvl) by congruence. subst.
  assert (Em : doc_exists db (GameModeRef gm) = true)
    by now apply doc_exists_is_Some.
  assert (El : doc_exists db (LevelRef gm lvl) = true)
    by now apply doc_exists_is_Some.
  unfold structure_step.
  rewrite (bind_lift_Ok _ _ _ _ (getitem_Some _ _ _ H1)).
  rewrite (bind_lift_Ok _ _ _ _ (getitem_Some _ _ _ H2)).
  rewrite (bind_lift_Ok _ _ _ _ (getitem_Some _ _ _ H3)).
  rewrite (bind_lift_Ok _ _ _ _ (getitem_Some _ _ _ H4)).
  rewrite Em, El. unfold batch_update. rewrite bind_batch_add.
  rewrite (bind_lift_Ok _ _ _ _ (getitem_Some _ _ _ H5)).
  rewrite (bind_lift_Ok _ _ _ _ (getitem_Some _ _ _ H6)).
  rewrite (bind_lift_Ok _ _ _ _ (getitem_Some _ _ _ H7)).
  rewrite (bind_lift_Ok _ _ _ _ Hsug).
  rewrite batch_add_run. cbn [generated batch printed].
  rewrite <- app_assoc. eauto.
Qed.

Lemma structure_loop_existing (db0 db : store) (structure_csv : list row) :
  (forall structure, structure ∈ structure_csv ->
     exists ws gm lvl,
       row_writes db0 structure ws
       /\ names_level structure gm lvl
       /\ is_Some (gameModes db !! gm)
       /\ is_Some (levels db !! (gm, lvl))) ->
  forall w,
    exists ws,
      structure_loop db structure_csv w
      = (Ok tt, World (generated w) (batch w ++ ws) (printed w))
      /\ Forall (fun wr => is_update wr = true) ws
      /\ length ws = 2 * length structure_csv.
Proof.
  induction structure_csv as [|s rest IH]; intros Hall w.
  - exists []. simpl. rewrite app_nil_r, world_eta.
    split; [reflexivity|]. split; [constructor|reflexivity].
  - destruct (Hall s) as (ws0 & gm & lvl & Hrow & Hname & Hm & Hl); [left|].
    destruct (structure_step_existing _ _ _ _ _ _ w Hrow Hname Hm Hl)
      as (d1 & d2 & Hstep).
    destruct (IH (fun s' Hs' => Hall s' (list_elem_of_further _ _ _ Hs'))
                (World (generated w)
                   (batch w ++ [WUpdate (GameModeRef gm) d1;
                                WUpdate (LevelRef gm lvl) d2])
                   (printed w)))
      as (ws & Hrest & Hup & Hlen).
    exists ([WUpdate (GameModeRef gm) d1; WUpdate (LevelRef gm lvl) d2] ++ ws).
    simpl. unfold bind. rewrite Hstep, Hrest. cbn [generated batch printed].
    rewrite <- app_assoc. split; [reflexivity|].
    split; [repeat constructor; exact Hup|simpl; lia].
Qed.

(** X11.  The structure pass creates each game mode and each level once:
    against the database a committed run leaves, the pass over the same
    structure file raises nothing, adds two updates per row and no other
    write, and prints no "Creating" line. *)
Theorem structure_pass_of_a_rerun_only_updates
    (db : store) (now : Z) (games_csv structure_csv : list row) (db' : store) :
  committed_store (run auto_id db now games_csv structure_csv) = Some db' ->
  exists ws,
    structure_loop db' structure_csv start = (Ok tt, World 0 ws [])
    /\ Forall (fun wr => is_update wr = true) ws
    /\ length ws = 2 * length structure_csv.
Proof.
  intros Hrun.
  destruct (structure_loop_existing db db' structure_csv) with (w := start)
    as (ws & Hloop & Hup & Hlen).
  - intros s Hs. eapply committed_structure_row; eauto.
  - exists ws. auto.
Qed.

(** *** Documents the run finds are updated, never replaced *)

Lemma spared_field_kept (now : Z) (dbi dbi1 : store) (wr : write)
    (r : docref) (key : string) (d : doc) :
  spares_field r key wr ->
  apply_write now dbi wr = Some dbi1 ->
  get_doc dbi r = Some d ->
  exists d1, get_doc dbi1 r = Some d1 /\ d1 !! key = d !! key.
Proof.
  intros [Hne|(data & -> & Hkey)] Hw Hd.
  - assert (Hsame : get_doc dbi1 r = get_doc dbi r).
    { destruct wr as [r0 d0|r0 d0]; simpl in Hw, Hne.
      - injection Hw as <-. now apply get_put_doc_ne.
      - destruct (get_doc dbi r0); [|discriminate].
        injection Hw as <-. now apply get_put_doc_ne. }
    rewrite Hsame. eauto.
  - simpl in Hw. rewrite Hd in Hw. injection Hw as <-.
    rewrite get_put_doc_eq. eexists. split; [reflexivity|].
    now rewrite lookup_updated, Hkey.
Qed.

Lemma commit_spared_field (now : Z) (ws : list write) (r : docref)
    (key : string) :
  Forall (spares_field r key) ws ->
  forall dbi db' d,
    commit now ws dbi = Some db' ->
    get_doc dbi r = Some d ->
    exists d', get_doc db' r = Some d' /\ d' !! key = d !! key.
Proof.
  induction 1 as [|wr ws Hwr _ IH]; intros dbi db' d; simpl.
  - intros [= <-]. eauto.
  - destruct (apply_write now dbi wr) as [dbi1|] eqn:Hw; [|discriminate].
    intros Hc Hd.
    destruct (spared_field_kept _ _ _ _ _ _ _ Hwr Hw Hd) as (d1 & Hd1 & Hk1).
    destruct (IH dbi1 db' d1 Hc Hd1) as (d' & Hd' & Hk').
    exists d'. split; [exact Hd'|congruence].
Qed.

Lemma docref_same_or_other (a b : docref) : a = b \/ a <> b.
Proof.
  destruct (docref_eqb a b) eqn:E.
  - left. now apply docref_eqb_eq.
  - right. intros Heq. apply docref_eqb_eq in Heq. congruence.
Qed.

(** The structure pass updates a game mode or a level that the snapshot
    holds, with the fields [fields_written_to] lists at most. *)
Lemma rows_spare_field (db : store) (rows : list row)
    (wss : list (list write)) (r : docref) (key : string) :
  Forall2 (row_writes db) rows wss ->
  is_Some (get_doc db r) ->
  key ∉ fields_written_to r ->
  Forall (spares_field r key) (concat wss).
Proof.
  intros Hrows Hex Hkey.
  apply doc_exists_is_Some in Hex.
  induction Hrows as [|s ws rows wss Hrow _ IH]; simpl; [constructor|].
  apply Forall_app. split; [|exact IH].
  destruct Hrow as (gm0 & lvl0 & n & d & ln & ld & sg & sug
                    & _ & _ & _ & _ & _ & _ & _ & _ & ->).
  constructor; [|constructor; [|constructor]].
  - destruct (docref_same_or_other (GameModeRef gm0) r) as [<-|Hne];
      [|left; now rewrite write_ref_mode_write].
    right. unfold mode_write. rewrite Hex. eexists. split; [reflexivity|].
    simpl in Hkey.
    rewrite !lookup_insert_ne; [apply lookup_empty|..];
      intros <-; apply Hkey;
      repeat first [apply list_elem_of_here | apply list_elem_of_further].
  - destruct (docref_same_or_other (LevelRef gm0 lvl0) r) as [<-|Hne];
      [|left; now rewrite write_ref_level_write].
    right. unfold level_write. rewrite Hex. eexists. split; [reflexivity|].
    simpl in Hkey. unfold level_fields.
    rewrite !lookup_insert_ne; [apply lookup_empty|..];
      intros <-; apply Hkey;
      repeat first [apply list_elem_of_here | apply list_elem_of_further].
Qed.

Lemma loop_spares_field (existing_games : gmap string doc) (n n' : nat)
    (games_csv updated : list row) (ws : list write) (r : docref)
    (key : string) :
  loop_does auto_id existing_games n games_csv updated n' ws ->
  is_game_ref r = false ->
  key ∉ fields_written_to r ->
  Forall (spares_field r key) ws.
Proof.
  intros Hloop Hr Hkey. apply loop_writes_targets in Hloop.
  eapply Forall_impl; [exact Hloop|]. simpl.
  intros wr [(id & Hid)|(gm & lvl & v & ->)]; unfold spares_field.
  - left. rewrite Hid. intros <-. discriminate.
  - destruct (docref_same_or_other (LevelRef gm lvl) r) as [<-|Hne];
      [|now left].
    right. eexists. split; [reflexivity|].
    apply lookup_singleton_ne. intros <-. apply Hkey. simpl.
    repeat first [apply list_elem_of_here | apply list_elem_of_further].
Qed.

(** X6.  The run never replaces a game mode or a level it finds: after a
    committed run, a game mode that the database held before holds every
    field other than [name] and [description] as before, and a level every
    field other than [name], [description], [sugTimeLimit] and [gameRefs].
    The script sets a document only when the snapshot has none, and its
    updates carry these fields only. *)
Theorem run_replaces_no_level_or_game_mode
    (db : store) (now : Z) (games_csv structure_csv : list row)
    (db' : store) (r : docref) (d : doc) (key : string) :
  committed_store (run auto_id db now games_csv structure_csv) = Some db' ->
  is_game_ref r = false ->
  get_doc db r = Some d ->
  key ∉ fields_written_to r ->
  exists d', get_doc db' r = Some d' /\ d' !! key = d !! key.
Proof.
  intros Hrun Hr Hd Hkey.
  apply committed_run in Hrun as (file & w & Hrun).
  apply run_finished in Hrun
    as (w_s & w_g & rows' & updated & Hs & Hg & Hc & _).
  apply structure_loop_rows in Hs as (wss & Hbs & Hrows & _).
  apply game_loop_ok in Hg as (bg & Hloop & Hbg).
  rewrite Hbg, Hbs in Hc. simpl in Hc. rewrite commit_app in Hc.
  destruct (commit now (concat wss) db) as [db_s|] eqn:Hcs; [|discriminate].
  destruct (commit_spared_field now (concat wss) r key
              (rows_spare_field _ _ _ _ _ Hrows (mk_is_Some _ _ Hd) Hkey)
              db db_s d Hcs Hd) as (d1 & Hd1 & Hk1).
  destruct (commit_spared_field now bg r key
              (loop_spares_field _ _ _ _ _ _ _ _ Hloop Hr Hkey)
              db_s db' d1 Hc Hd1) as (d' & Hd' & Hk').
  exists d'. split; [exact Hd'|congruence].
Qed.

End Persistence.

Lemma CommitFailed_witness :
  exists (game : row) (gm lvl : string),
    game ∈ [orphan_row]
    /\ PyStr.truthy (row_id game) = false
    /\ game !! "gameModeId" = Some gm
    /\ game !! "levelId" = Some lvl
    /\ Firestore.levels example_db !! (gm, lvl) = None
    /\ forall structure, structure ∈ example_structure ->
                         ~ names_level structure gm lvl.
Proof.
  apply (CommitFailed_comes_from_an_unknown_level example_auto_id example_db
           7 [orphan_row] example_structure).
  reflexivity.
Defined.

Lemma existing_game_keeps_witness :
  exists db',
    committed_store (run example_auto_id example_db 7 [g1_again_row]
                       example_structure) = Some db'
    /\ exists d', Firestore.games db' !! "g1" = Some d'
                  /\ d' !! "createdAt" = Some (Firestore.VTime 1).
Proof.
  eexists. split; [reflexivity|].
  apply (existing_game_keeps_its_other_fields example_auto_id example_db 7
           [g1_again_row]
           example_structure _ "g1" "createdAt"
           (game_doc "Find A" "first" "tap A" (Firestore.VFloat thirty) "gm1" "lvl1"
              (Firestore.VList [Firestore.VStr "A"; Firestore.VStr "a"]))).
  - reflexivity.
  - reflexivity.
  - intros i H. unfold example_auto_id in H. discriminate H.
  - unfold written_game_fields. intros H.
    repeat (apply elem_of_cons in H as [H|H]; [discriminate|]).
    inversion H.
Defined.

Lemma level_holds_witness :
  exists db',
    committed_store
      (run example_auto_id example_db 7 [renamed_row]
         [lvl1_row_90;
          structure_row "gm1" "Letters" "letter games" "lvl2" "Two"
            "second level" ""]) = Some db'
    /\ exists name description suggested sug,
         lvl1_row_90 !! "levelName" = Some name
         /\ lvl1_row_90 !! "levelDescription" = Some description
         /\ lvl1_row_90 !! "levelSuggestedTimeLimit" = Some suggested
         /\ suggested_of suggested = Ok sug
         /\ level_holds db' "gm1" "lvl1" name description sug.
Proof.
  eexists. split; [reflexivity|].
  apply (level_holds_its_last_structure_row example_auto_id example_db 7
           [renamed_row] []
           [structure_row "gm1" "Letters" "letter games" "lvl2" "Two"
              "second level" ""]
           lvl1_row_90 _ "gm1" "lvl1").
  - reflexivity.
  - split; reflexivity.
  - intros later H. apply list_elem_of_singleton in H as ->.
    intros [_ H].
    assert (H' : structure_row "gm1" "Letters" "letter games" "lvl2" "Two"
                   "second level" "" !! "levelId" = Some "lvl2")
      by reflexivity.
    rewrite H' in H. discriminate H.
Defined.

Lemma game_mode_holds_witness :
  exists db',
    committed_store
      (run example_auto_id example_db 7 [renamed_row]
         [structure_row "gm1" "Letters" "letter games" "lvl2" "Two"
            "second level" "";
          structure_row "gm1" "Words" "word games" "lvl1" "One"
            "first level" "60"]) = Some db'
    /\ exists name description,
         structure_row "gm1" "Words" "word games" "lvl1" "One"
           "first level" "60" !! "name" = Some name
         /\ structure_row "gm1" "Words" "word games" "lvl1" "One"
              "first level" "60" !! "description" = Some description
         /\ mode_holds db' "gm1" name description.
Proof.
  eexists. split; [reflexivity|].
  apply (game_mode_holds_its_last_structure_row example_auto_id example_db 7
           [renamed_row]
           [structure_row "gm1" "Letters" "letter games" "lvl2" "Two"
              "second level" ""]
           []
           (structure_row "gm1" "Words" "word games" "lvl1" "One"
              "first level" "60") _ "gm1").
  - reflexivity.
  - reflexivity.
  - intros later H. inversion H.
Defined.

Lemma rerun_structure_witness :
  exists db',
    committed_store
      (run example_auto_id example_db 7 [new_row] example_structure) = Some db'
    /\ exists ws,
         structure_loop db' example_structure start = (Ok tt, World 0 ws [])
         /\ Forall (fun wr => is_update wr = true) ws
         /\ length ws = 2 * length example_structure.
Proof.
  eexists. split; [reflexivity|].
  apply (structure_pass_of_a_rerun_only_updates example_auto_id example_db 7
           [new_row] example_structure).
  reflexivity.
Defined.

Lemma replaces_no_level_witness :
  exists db',
    committed_store
      (run example_auto_id decorated_db 7 [example_row_full]
         [lvl1_row_90]) = Some db'
    /\ exists d',
         Firestore.get_doc db' (Firestore.LevelRef "gm1" "lvl1") = Some d'
         /\ d' !! "icon" = Some (Firestore.VStr "star").
Proof.
  eexists. split; [reflexivity|].
  destruct (run_replaces_no_level_or_game_mode example_auto_id decorated_db 7
              [example_row_full] [lvl1_row_90] _
              (Firestore.LevelRef "gm1" "lvl1")
              (<["icon" := Firestore.VStr "star"]> lvl1_doc) "icon"
              eq_refl eq_refl eq_refl) as (d' & Hd' & Hicon).
  - simpl. intros H.
    repeat (apply elem_of_cons in H as [H|H]; [discriminate|]).
    inversion H.
  - exists d'. split; [exact Hd'|]. rewrite Hicon. reflexivity.
Defined.

(** ** The games loop: the rewritten file, the ids and the batch *)

Section GamesLoop.
Import Firestore.
Variable auto_id : nat -> string.

Lemma written_run (db : store) (now : Z) (games_csv structure_csv : list row)
    (rows : list row) :
  written_rows (run auto_id db now games_csv structure_csv) = Some rows ->
  exists db' file w,
    run auto_id db now games_csv structure_csv = (Ok (Some (db', file)), w)
    /\ records file = rows.
Proof.
  unfold written_rows.
  destruct (run auto_id db now games_csv structure_csv)
    as [[[[db1 file]|]|e] w]; simpl; try discriminate.
  intros [= <-]. eauto.
Qed.

Lemma loop_rows_in_order (existing_games : gmap string doc) (n n' : nat)
    (games_csv updated : list row) (ws : list write) :
  loop_does auto_id existing_games n games_csv updated n' ws ->
  exists kept,
    kept `sublist_of` games_csv
    /\ Forall2 (row_after auto_id) kept updated.
Proof.
  induction 1 as [|n g rest g' kept n1 ws1 upd n2 ws2 Hit Hrest
                    (kept' & Hsub & Hall)].
  - exists []. split; constructor.
  - destruct kept.
    + exists (g :: kept'). split; [now constructor|].
      constructor; [|exact Hall].
      apply iteration_kept_row in Hit
        as [[-> _]|(-> & Hid & _)]; [now left|right; eauto].
    + exists kept'. split; [now constructor|exact Hall].
Qed.

(** X12.  The rewritten games file holds rows of the games file in their
    order, each as it was read or, for a row that had no id, with the
    generated id under [id] and every other cell as read.  Rows are dropped,
    never added, reordered or changed otherwise. *)
Theorem rewritten_file_keeps_order_and_cells
    (db : store) (now : Z) (games_csv structure_csv : list row)
    (rows : list row) :
  written_rows (run auto_id db now games_csv structure_csv) = Some rows ->
  exists kept,
    kept `sublist_of` games_csv
    /\ Forall2 (row_after auto_id) kept rows.
Proof.
  intros Hrun. apply written_run in Hrun as (db' & file & w & Hrun & <-).
  apply run_finished in Hrun
    as (w_s & w_g & rows' & updated & _ & Hg & _ & -> & _).
  apply game_loop_ok in Hg as (bg & Hloop & _).
  eapply loop_rows_in_order; eauto.
Qed.

Lemma complete_row_not_skipped (existing_games : gmap string doc)
    (game : row) (k : string) :
  (forall c, c ∈ game_columns -> is_Some (game !! c)) ->
  ~ raises existing_games game (KeyError k).
Proof.
  intros Hall [[Hn _]|[[Hn _]|(gm & lvl & _ & _ & Hb & _)]].
  - destruct (Hall "levelId") as [? ?];
      [unfold game_columns; set_solver|congruence].
  - destruct (Hall "gameModeId") as [? ?];
      [unfold game_columns; set_solver|congruence].
  - apply build_game_data_raise_inv in Hb
      as [(k' & _ & Hk & Hnone)|[? _]]; [|discriminate].
    destruct (Hall k') as [? ?]; [|congruence].
    change game_columns
      with ("levelId" :: "gameModeId" :: required_game_columns).
    now do 2 apply list_elem_of_further.
Qed.

Lemma loop_keeps_complete_row (existing_games : gmap string doc) (n n' : nat)
    (games_csv updated : list row) (ws : list write) (game : row) :
  loop_does auto_id existing_games n games_csv updated n' ws ->
  game ∈ games_csv ->
  (forall c, c ∈ game_columns -> is_Some (game !! c)) ->
  exists u, u ∈ updated /\ row_after auto_id game u.
Proof.
  intros Hloop Hin Hall.
  induction Hloop as [|n g rest g' kept n1 ws1 upd n2 ws2 Hit Hrest IH].
  - inversion Hin.
  - apply elem_of_cons in Hin as [<-|Hin].
    + destruct kept.
      * exists g'. split; [left|].
        apply iteration_kept_row in Hit
          as [[-> _]|(-> & Hid & _)]; [now left|right; eauto].
      * exfalso. inversion Hit; subst.
        eapply complete_row_not_skipped; eauto.
    + destruct (IH Hin) as (u & Hu & Hafter).
      exists u. split; [|exact Hafter].
      destruct kept; [now right|exact Hu].
Qed.

(** X13.  No complete row is lost: when a run rewrites the games file,
    every row of the games file that has the six columns the loop body reads
    with [game[...]] is in the rewritten file, as read or with a generated
    id. *)
Theorem complete_row_is_written_back
    (db : store) (now : Z) (games_csv structure_csv : list row)
    (rows : list row) (game : row) :
  written_rows (run auto_id db now games_csv structure_csv) = Some rows ->
  game ∈ games_csv ->
  (forall c, c ∈ game_columns -> is_Some (game !! c)) ->
  exists u, u ∈ rows /\ row_after auto_id game u.
Proof.
  intros Hrun Hin Hall.
  apply written_run in Hrun as (db' & file & w & Hrun & <-).
  apply run_finished in Hrun
    as (w_s & w_g & rows' & updated & _ & Hg & _ & -> & _).
  apply game_loop_ok in Hg as (bg & Hloop & _).
  eapply loop_keeps_complete_row; eauto.
Qed.

Lemma loop_counts (existing_games : gmap string doc) (n n' : nat)
    (games_csv updated : list row) (ws : list write) :
  loop_does auto_id existing_games n games_csv updated n' ws -> n <= n'.
Proof.
  induction 1 as [|n g rest g' kept n1 ws1 upd n2 ws2 Hit Hrest IH]; [lia|].
  apply iteration_counts in Hit. lia.
Qed.

Lemma created_ids_app (a b : list write) :
  created_ids (a ++ b) = created_ids a ++ created_ids b.
Proof. unfold created_ids. apply omap_app. Qed.

Lemma created_ids_no_game (ws : list write) :
  Forall targets_no_game ws -> created_ids ws = [].
Proof.
  induction 1 as [|wr ws Hwr _ IH]; [reflexivity|].
  unfold targets_no_game in Hwr.
  destruct wr as [[]|[]]; simpl in *; try discriminate; exact IH.
Qed.

(** The ids an iteration creates a game under: the one generated for a row
    it keeps, under which the row is written back, or none. *)
Lemma iteration_created_ids (existing_games : gmap string doc) (n n' : nat)
    (game game' : row) (kept : bool) (ws : list write) :
  iteration_does auto_id existing_games n game game' kept n' ws ->
  created_ids ws = []
  \/ (created_ids ws = [auto_id n] /\ n' = S n /\ kept = true
      /\ game' !! "id" = Some (auto_id n)).
Proof.
  intros Hit. inversion Hit; subst; [right|left; reflexivity..].
  split; [reflexivity|]. split; [reflexivity|]. split; [reflexivity|].
  apply lookup_insert_eq.
Qed.

Lemma loop_created_ids (existing_games : gmap string doc) (n n' : nat)
    (games_csv updated : list row) (ws : list write) :
  loop_does auto_id existing_games n games_csv updated n' ws ->
  Forall (fun id => (exists i, n <= i < n' /\ id = auto_id i)
                    /\ exists u, u ∈ updated /\ u !! "id" = Some id)
    (created_ids ws).
Proof.
  induction 1 as [|n g rest g' kept n1 ws1 upd n2 ws2 Hit Hrest IH];
    [constructor|].
  pose proof (iteration_counts _ _ _ _ _ _ _ _ Hit) as Hn.
  pose proof (loop_counts _ _ _ _ _ _ Hrest) as Hn2.
  rewrite created_ids_app. apply Forall_app. split.
  - destruct (iteration_created_ids _ _ _ _ _ _ _ Hit)
      as [->|(-> & -> & -> & Hid)]; [constructor|].
    constructor; [|constructor]. split.
    + exists n. split; [lia|reflexivity].
    + exists g'. split; [left|exact Hid].
  - eapply Forall_impl; [exact IH|]. simpl.
    intros id [(i & Hi & ->) (u & Hu & Hid)]. split.
    + exists i. split; [lia|reflexivity].
    + exists u. split; [|exact Hid]. destruct kept; [now right|exact Hu].
Qed.

Lemma loop_created_ids_NoDup (existing_games : gmap string doc) (n n' : nat)
    (games_csv updated : list row) (ws : list write) :
  (forall i j, auto_id i = auto_id j -> i = j) ->
  loop_does auto_id existing_games n games_csv updated n' ws ->
  NoDup (created_ids ws).
Proof.
  intros Hinj.
  induction 1 as [|n g rest g' kept n1 ws1 upd n2 ws2 Hit Hrest IH];
    [constructor|].
  rewrite created_ids_app. apply NoDup_app. split; [|split; [|exact IH]].
  - destruct (iteration_created_ids _ _ _ _ _ _ _ Hit)
      as [->|(-> & _)]; [constructor|apply NoDup_singleton].
  - intros id Hid Hid'.
    destruct (iteration_created_ids _ _ _ _ _ _ _ Hit)
      as [E|(E & -> & _)]; rewrite E in Hid; [inversion Hid|].
    apply list_elem_of_singleton in Hid as ->.
    pose proof (loop_created_ids _ _ _ _ _ _ Hrest) as Hall.
    rewrite Forall_forall in Hall.
    destruct (Hall _ Hid') as [(i & Hi & Heq) _].
    apply Hinj in Heq. lia.
Qed.

(** X14.  When Firestore never generates an id twice, the games a run
    creates have pairwise different ids, and each of these ids is written
    back: the rewritten games file holds a row with that id. *)
Theorem created_ids_are_distinct_and_written_back
    (db : store) (now : Z) (games_csv structure_csv : list row)
    (rows : list row) :
  (forall i j, auto_id i = auto_id j -> i = j) ->
  written_rows (run auto_id db now games_csv structure_csv) = Some rows ->
  NoDup (created_ids
           (batch (snd (run auto_id db now games_csv structure_csv))))
  /\ forall id,
       id ∈ created_ids
              (batch (snd (run auto_id db now games_csv structure_csv))) ->
       exists u, u ∈ rows /\ u !! "id" = Some id.
Proof.
  intros Hinj Hrun.
  apply written_run in Hrun as (db' & file & w & Hrun & <-).
  rewrite Hrun. cbn [snd].
  apply run_finished in Hrun
    as (w_s & w_g & rows' & updated & Hs & Hg & _ & -> & ->).
  pose proof (structure_loop_batch db structure_csv start) as (bs & Hbs & Hno).
  rewrite Hs in Hbs. simpl in Hbs.
  apply game_loop_ok in Hg as (bg & Hloop & ->).
  rewrite Hbs, created_ids_app, (created_ids_no_game _ Hno). simpl.
  split; [eapply loop_created_ids_NoDup; eauto|].
  intros id Hid.
  pose proof (loop_created_ids _ _ _ _ _ _ Hloop) as Hall.
  rewrite Forall_forall in Hall. now destruct (Hall _ Hid) as [_ ?].
Qed.

Lemma iteration_batch_length (existing_games : gmap string doc) (n n' : nat)
    (game game' : row) (kept : bool) (ws : list write) :
  iteration_does auto_id existing_games n game game' kept n' ws ->
  length ws <= 2.
Proof. intros Hit. inversion Hit; subst; simpl; lia. Qed.

Lemma loop_batch_length (existing_games : gmap string doc) (n n' : nat)
    (games_csv updated : list row) (ws : list write) :
  loop_does auto_id existing_games n games_csv updated n' ws ->
  length ws <= 2 * length games_csv.
Proof.
  induction 1 as [|n g rest g' kept n1 ws1 upd n2 ws2 Hit Hrest IH];
    [simpl; lia|].
  apply iteration_batch_length in Hit.
  rewrite length_app. simpl. lia.
Qed.

Lemma rows_writes_length (db : store) (rows : list row)
    (wss : list (list write)) :
  Forall2 (row_writes db) rows wss ->
  length (concat wss) = 2 * length rows
  /\ Forall targets_no_game (concat wss).
Proof.
  induction 1 as [|s ws rows wss Hrow _ [IHl IHf]]; simpl;
    [split; [reflexivity|constructor]|].
  destruct Hrow as (gm0 & lvl0 & n & d & ln & ld & sg & sug
                    & _ & _ & _ & _ & _ & _ & _ & _ & ->).
  split; [rewrite length_app; simpl; lia|].
  apply Forall_app. split; [|exact IHf].
  constructor; [apply mode_write_no_game|].
  constructor; [apply level_write_no_game|constructor].
Qed.

(** X15.  The one batch of a run that reaches the commit holds first the
    writes of the structure pass, two per structure row and none to a game,
    then the writes of the games loop, at most two per games row. *)
Theorem batch_holds_two_writes_per_row_at_most
    (db : store) (now : Z) (games_csv structure_csv : list row)
    (db' : store) :
  committed_store (run auto_id db now games_csv structure_csv) = Some db' ->
  exists structure_writes game_writes,
    batch (snd (run auto_id db now games_csv structure_csv))
    = structure_writes ++ game_writes
    /\ length structure_writes = 2 * length structure_csv
    /\ Forall targets_no_game structure_writes
    /\ length game_writes <= 2 * length games_csv.
Proof.
  intros Hrun. apply committed_run in Hrun as (file & w & Hrun).
  rewrite Hrun. cbn [snd].
  apply run_finished in Hrun
    as (w_s & w_g & rows' & updated & Hs & Hg & _ & _ & ->).
  apply structure_loop_rows in Hs as (wss & Hbs & Hrows & _).
  apply game_loop_ok in Hg as (bg & Hloop & ->).
  destruct (rows_writes_length _ _ _ Hrows) as [Hlen Hno].
  exists (concat wss), bg. rewrite Hbs. simpl.
  split; [reflexivity|]. split; [exact Hlen|]. split; [exact Hno|].
  eapply loop_batch_length; eauto.
Qed.

End GamesLoop.

Lemma rewritten_file_witness :
  exists kept,
    kept `sublist_of` [game_row_without_instructions "" "Find C";
                        game_row_without_instructions "ghost" "Find B"]
    /\ Forall2 (row_after example_auto_id) kept
         [game_row_without_instructions "ghost" "Find B"].
Proof.
  apply (rewritten_file_keeps_order_and_cells example_auto_id example_db 7
           [game_row_without_instructions "" "Find C";
            game_row_without_instructions "ghost" "Find B"]
           example_structure).
  reflexivity.
Defined.

Lemma complete_row_witness :
  exists u,
    u ∈ [<["id" := "#"]> new_row; renamed_row]
    /\ row_after example_auto_id renamed_row u.
Proof.
  apply (complete_row_is_written_back example_auto_id example_db 7
           [new_row; renamed_row] example_structure).
  - reflexivity.
  - right. left.
  - intros c Hc. unfold game_columns in Hc.
    repeat (apply elem_of_cons in Hc as [->|Hc]; [eexists; reflexivity|]).
    inversion Hc.
Defined.

Lemma created_ids_witness :
  NoDup (created_ids
           (batch (snd (run example_auto_id example_db 7
                          [new_row; renamed_row; example_row_full]
                          example_structure))))
  /\ forall id,
       id ∈ created_ids
              (batch (snd (run example_auto_id example_db 7
                             [new_row; renamed_row; example_row_full]
                             example_structure))) ->
       exists u : row,
         u ∈ [<["id" := "#"]> new_row; renamed_row;
              <["id" := "#I"]> example_row_full]
         /\ u !! "id" = Some id.
Proof.
  apply (created_ids_are_distinct_and_written_back example_auto_id example_db
           7 [new_row; renamed_row; example_row_full] example_structure).
  - exact example_auto_id_inj.
  - reflexivity.
Defined.

Lemma batch_size_witness :
  exists structure_writes game_writes,
    batch (snd (run example_auto_id example_db 7 [new_row; renamed_row]
                  example_structure))
    = structure_writes ++ game_writes
    /\ length structure_writes = 2 * length example_structure
    /\ Forall targets_no_game structure_writes
    /\ length game_writes <= 2 * length [new_row; renamed_row].
Proof.
  eapply (batch_holds_two_writes_per_row_at_most example_auto_id example_db 7
            [new_row; renamed_row] example_structure).
  reflexivity.
Defined.

(** ** The cells of a row: the answer bank and the suggested time limit *)

Section Cells.
Import Firestore.

(** X16.  The answer bank.  The empty cell gives [None].  Any other cell
    gives the list of its comma-separated pieces, one more than it has
    commas, each stripped of the whitespace around it: joining the pieces
    with commas gives the cell back, no piece holds a comma, and each entry
    is its piece without a run of whitespace at either end, so that it
    holds no comma and neither starts nor ends with whitespace. *)
Theorem answer_bank_entries (answer_bank : string) :
  if PyStr.is_empty answer_bank then answer_bank_of answer_bank = VNone
  else
    exists pieces,
      answer_bank_of answer_bank
      = VList (map (fun piece => VStr (PyStr.strip piece)) pieces)
      /\ join_with "," pieces = answer_bank
      /\ length pieces = S (count_char "," answer_bank)
      /\ Forall (fun piece =>
                   count_char "," piece = 0
                   /\ count_char "," (PyStr.strip piece) = 0
                   /\ trimmed (PyStr.strip piece)
                   /\ exists before after,
                        piece = (before ++ PyStr.strip piece ++ after)%string
                        /\ PyStr.forall_chars PyStr.is_space before = true
                        /\ PyStr.forall_chars PyStr.is_space after = true)
           pieces.
Proof.
  unfold answer_bank_of, PyStr.truthy.
  destruct (PyStr.is_empty answer_bank); [reflexivity|]. cbn [negb].
  exists (PyStr.split "," answer_bank).
  split; [reflexivity|]. split; [apply split_join|].
  split; [apply split_length|].
  eapply Forall_impl; [apply split_pieces_without|]. simpl.
  intros piece Hp. split; [exact Hp|].
  split; [|split; [apply strip_trimmed|apply strip_decompose]].
  unfold PyStr.strip. now apply count_char_rstrip, count_char_lstrip.
Qed.

Lemma digit_val_bounds (a : ascii) :
  PyStr.is_decimal a = true -> (0 <= PyStr.digit_val a <= 9)%Z.
Proof.
  unfold PyStr.is_decimal, PyStr.digit_val. intros H.
  apply andb_true_iff in H as [H1 H2].
  apply Nat.leb_le in H1, H2. lia.
Qed.

Lemma digits_value_bounds (s : string) (acc : Z) :
  PyStr.forall_chars PyStr.is_decimal s = true ->
  (0 <= acc)%Z ->
  (acc * 10 ^ Z.of_nat (String.length s) <= PyNum.digits_value acc s
   < (acc + 1) * 10 ^ Z.of_nat (String.length s))%Z.
Proof.
  revert acc. induction s as [|a s IH]; intros acc Hall Hacc.
  - simpl. lia.
  - simpl in Hall. apply andb_true_iff in Hall as [Ha Hs].
    pose proof (digit_val_bounds a Ha) as Hd.
    cbn [PyNum.digits_value String.length].
    specialize (IH (10 * acc + PyStr.digit_val a)%Z Hs ltac:(lia)).
    rewrite Nat2Z.inj_succ, Z.pow_succ_r by lia.
    assert (Hp : (0 < 10 ^ Z.of_nat (String.length s))%Z)
      by (apply Z.pow_pos_nonneg; lia).
    nia.
Qed.

(** X17.  The suggested time limit of a level is [None] or an integer that
    is not negative.  A cell of at most 4300 ASCII digits gives the number it
    spells, below ten to the power of its length; a cell that is empty or
    holds any other character than a digit, a sign or a decimal point for
    example, gives [None]; and a cell of digits that [isdigit] accepts and
    [int] refuses raises [ValueError]: one that holds a superscript digit,
    or one of more than 4300 digits. *)
Theorem suggested_time_limit_cases (suggested : string) :
  match suggested_of suggested with
  | Ok VNone => PyStr.isdigit suggested = false
  | Ok (VInt z) =>
      suggested <> ""
      /\ PyStr.forall_chars PyStr.is_decimal suggested = true
      /\ String.length suggested <= 4300
      /\ z = PyNum.digits_value 0 suggested
      /\ (0 <= z < 10 ^ Z.of_nat (String.length suggested))%Z
  | Raise ValueError =>
      PyStr.isdigit suggested = true
      /\ (PyStr.forall_chars PyStr.is_decimal suggested = false
          \/ 4300 < String.length suggested)
  | _ => False
  end.
Proof.
  unfold suggested_of, py_int, PyNum.int_of_digits.
  destruct (PyStr.isdigit suggested) eqn:Hd; [|reflexivity].
  destruct (PyStr.forall_chars PyStr.is_decimal suggested) eqn:Hdec;
    [|split; [reflexivity|now left]].
  destruct (Nat.leb_spec (String.length suggested) PyNum.max_str_digits)
    as [Hlen|Hlen]; [|split; [reflexivity|now right]].
  unfold PyStr.isdigit in Hd. apply andb_true_iff in Hd as [Hne _].
  split; [now apply truthy_nonempty|]. split; [reflexivity|].
  split; [exact Hlen|]. split; [reflexivity|].
  pose proof (digits_value_bounds suggested 0 Hdec ltac:(lia)). lia.
Qed.

End Cells.

(** ** The diff looks at the tracked fields only *)

Section Diff.
Import Firestore.

(** X18.  [has_game_changed] reads the eight tracked fields and no other.
    Putting any value under a key that is none of [description],
    [instructions], [timeLimit], [gameModeId], [levelId], [letterPosition],
    [targetLetter] and [answerBank], or removing that key, in the stored
    document or in the built one, leaves the answer as it was: the name, the
    timestamps and any field added by hand never cause or hide an update.
    And each of the eight is read: a document that holds a string under one
    of them differs from the empty one. *)
Theorem has_game_changed_reads_tracked_fields_only
    (stored data : doc) (key : string) (v : option value) :
  key ∉ ["description"; "instructions"; "timeLimit"; "gameModeId"; "levelId";
         "letterPosition"; "targetLetter"; "answerBank"] ->
  has_game_changed (partial_alter (fun _ => v) key stored) data
  = has_game_changed stored data
  /\ has_game_changed stored (partial_alter (fun _ => v) key data)
     = has_game_changed stored data
  /\ forall tracked,
       tracked ∈ ["description"; "instructions"; "timeLimit"; "gameModeId";
                  "levelId"; "letterPosition"; "targetLetter"; "answerBank"] ->
       has_game_changed {[tracked := VStr "x"]} ∅ = true
       /\ has_game_changed ∅ {[tracked := VStr "x"]} = true.
Proof.
  intros Hkey.
  assert (Hget : forall (d : doc) k,
             k ∈ ["description"; "instructions"; "timeLimit"; "gameModeId";
                  "levelId"; "letterPosition"; "targetLetter"; "answerBank"] ->
             dict_get (partial_alter (fun _ => v) key d) k = dict_get d k).
  { intros d k Hk. unfold dict_get.
    rewrite lookup_partial_alter_ne; [reflexivity|].
    intros <-. contradiction. }
  split; [|split].
  - unfold has_game_changed, keys_to_check. cbn [existsb].
    rewrite !Hget
      by (repeat first [apply list_elem_of_here | apply list_elem_of_further]).
    reflexivity.
  - unfold has_game_changed, keys_to_check. cbn [existsb].
    rewrite !Hget
      by (repeat first [apply list_elem_of_here | apply list_elem_of_further]).
    reflexivity.
  - intros tracked Hin.
    repeat (apply elem_of_cons in Hin as [->|Hin]; [split; reflexivity|]).
    inversion Hin.
Qed.

End Diff.

Lemma tracked_fields_only_witness :
  has_game_changed
    (partial_alter (fun _ => Some (Firestore.VStr "Find the A")) "name"
       g1_other_name)
    renamed_data
  = has_game_changed g1_other_name renamed_data
  /\ has_game_changed g1_other_name
       (partial_alter (fun _ => Some (Firestore.VStr "Find the A")) "name"
          renamed_data)
     = has_game_changed g1_other_name renamed_data
  /\ forall tracked,
       tracked ∈ ["description"; "instructions"; "timeLimit"; "gameModeId";
                  "levelId"; "letterPosition"; "targetLetter"; "answerBank"] ->
       has_game_changed {[tracked := Firestore.VStr "x"]} ∅ = true
       /\ has_game_changed ∅ {[tracked := Firestore.VStr "x"]} = true.
Proof.
  apply (has_game_changed_reads_tracked_fields_only g1_other_name renamed_data
           "name" (Some (Firestore.VStr "Find the A"))).
  intros H.
  repeat (apply elem_of_cons in H as [H|H]; [discriminate|]).
  inversion H.
Defined.

(** ** What a run prints *)

Section Output.
Import Firestore.
Variable auto_id : nat -> string.

Lemma game_step_printed (existing_games : gmap string doc) (game game' : row)
    (w w' : world) :
  game_step auto_id existing_games game w = (Ok game', w') ->
  exists m, printed w' = printed w ++ [m] /\ line_of game m.
Proof.
  intros Hstep.
  destruct (getitem_cases game "levelId") as [(lvl & Hl & El)|[Hl El]];
    [|unfold game_step in Hstep; rewrite El in Hstep; discriminate].
  destruct (getitem_cases game "gameModeId") as [(gm & Hg & Eg)|[Hg Eg]];
    [|unfold game_step in Hstep; rewrite El, Eg in Hstep; discriminate].
  destruct (PyStr.truthy (row_id game)) eqn:Hid.
  - destruct (existing_games !! row_id game) as [ex|] eqn:Hex.
    + destruct (dict_truthy ex) eqn:Ht.
      * destruct (build_game_data game gm lvl) as [data|e] eqn:Hb.
        -- rewrite (game_step_found _ _ _ _ _ _ _ _ Hid Hl Hg Hex Ht Hb)
             in Hstep.
           destruct (has_game_changed ex data);
             injection Hstep as <- <-; simpl; eexists;
             (split; [reflexivity|simpl; auto]).
        -- unfold game_step in Hstep.
           rewrite El, Eg, Hid, Hex, Ht in Hstep. simpl in Hstep.
           unfold bind, lift in Hstep. rewrite Hb in Hstep. discriminate.
      * rewrite (game_step_not_found _ _ _ gm lvl) in Hstep; eauto.
        injection Hstep as <- <-; simpl. eexists.
        split; [reflexivity|simpl; auto].
    + rewrite (game_step_not_found _ _ _ gm lvl) in Hstep; eauto.
      injection Hstep as <- <-; simpl. eexists.
      split; [reflexivity|simpl; auto].
  - destruct (build_game_data game gm lvl) as [data|e] eqn:Hb.
    + rewrite (game_step_create _ _ _ _ _ _ _ Hid Hl Hg Hb) in Hstep.
      injection Hstep as <- <-; simpl. eexists.
      split; [reflexivity|simpl; auto].
    + unfold game_step in Hstep.
      rewrite El, Eg, Hid in Hstep. simpl in Hstep.
      unfold bind, lift, new_game_document in Hstep.
      rewrite Hb in Hstep. discriminate.
Qed.

Lemma game_iteration_printed (existing_games : gmap string doc)
    (game game' : row) (kept : bool) (w w' : world) :
  game_iteration auto_id existing_games game w = (Ok (game', kept), w') ->
  exists m, printed w' = printed w ++ [m] /\ line_of game m.
Proof.
  unfold game_iteration, try_except_KeyError. unfold bind at 1.
  destruct (game_step auto_id existing_games game w) as [[g|e] w1] eqn:Hstep.
  - unfold ret. intros [= <- <- <-]. eapply game_step_printed; eauto.
  - apply game_step_raise in Hstep as (_ & Hp & _).
    destruct e; try discriminate.
    unfold bind, print, ret. intros [= <- <- <-]. simpl.
    rewrite Hp. eexists. split; [reflexivity|reflexivity].
Qed.

Lemma game_loop_printed (existing_games : gmap string doc)
    (games_csv rows' updated : list row) (w w' : world) :
  game_loop auto_id existing_games games_csv w = (Ok (rows', updated), w') ->
  exists ms,
    printed w' = printed w ++ ms /\ Forall2 line_of games_csv ms.
Proof.
  revert rows' updated w w'.
  induction games_csv as [|game rest IH]; intros rows' updated w w'; simpl.
  - unfold ret. intros [= <- <- <-]. exists []. rewrite app_nil_r.
    split; [reflexivity|constructor].
  - unfold bind at 1.
    destruct (game_iteration auto_id existing_games game w)
      as [[[g kept]|e] w1] eqn:Hit; [|discriminate].
    unfold bind at 1.
    destruct (game_loop auto_id existing_games rest w1)
      as [[[rs us]|e] w2] eqn:Hloop; [|discriminate].
    unfold ret. simpl. intros [= <- <- <-].
    apply game_iteration_printed in Hit as (m & Hm & Hline).
    apply IH in Hloop as (ms & Hms & Hlines).
    exists (m :: ms). split; [|now constructor].
    rewrite Hms, Hm, <- app_assoc. reflexivity.
Qed.

Local Ltac read_column H row key v Hv :=
  let E := fresh "E" in
  destruct (getitem_cases row key) as [(v & Hv & E)|[Hv E]];
  [rewrite (bind_lift_Ok _ _ _ _ E) in H
  |rewrite (bind_lift_Raise _ _ _ _ E) in H].

Lemma structure_step_printed (db : store) (structure : row) (w w' : world) :
  structure_step db structure w = (Ok tt, w') ->
  exists ms, printed w' = printed w ++ ms
             /\ Forall is_creating ms /\ length ms <= 2.
Proof.
  unfold structure_step. intros H.
  read_column H structure "id" gm Hgm; [|discriminate].
  read_column H structure "levelId" lvl Hlvl; [|discriminate].
  read_column H structure "name" name Hname; [|discriminate].
  read_column H structure "description" description Hdesc; [|discriminate].
  assert (Hmode : exists ms1 w1,
             printed w1 = printed w ++ ms1 /\ Forall is_creating ms1
             /\ length ms1 <= 1
             /\ forall B (k : unit -> M B),
                  bind (if doc_exists db (GameModeRef gm)
                        then batch_update (GameModeRef gm)
                               (<["name" := VStr name]>
                                  (<["description" := VStr description]> ∅))
                        else (batch_set (GameModeRef gm)
                                (<["name" := VStr name]>
                                   (<["description" := VStr description]> ∅));;
                              print (CreatingGameMode gm))) k w = k tt w1).
  { unfold batch_update, batch_set.
    destruct (doc_exists db (GameModeRef gm)).
    - exists [], (World (generated w)
                    (batch w ++ [WUpdate (GameModeRef gm)
                                   (<["name" := VStr name]>
                                      (<["description" := VStr description]> ∅))])
                    (printed w)).
      simpl. rewrite app_nil_r.
      split; [reflexivity|]. split; [constructor|]. split; [lia|].
      intros B k. now rewrite bind_batch_add.
    - eexists [CreatingGameMode gm], _.
      split; [|split; [repeat constructor|split; [simpl; lia|]]].
      2:{ intros B k. rewrite bind_assoc, bind_batch_add, bind_print.
          reflexivity. }
      reflexivity. }
  destruct Hmode as (ms1 & w1 & Hp1 & Hc1 & Hl1 & Hmode).
  rewrite Hmode in H. clear Hmode.
  read_column H structure "levelName" ln Hln; [|discriminate].
  read_column H structure "levelDescription" ld Hld; [|discriminate].
  read_column H structure "levelSuggestedTimeLimit" sg Hsg; [|discriminate].
  destruct (suggested_of sg) as [sug|e'] eqn:Hsug;
    [rewrite (bind_lift_Ok _ sug) in H by reflexivity
    |rewrite (bind_lift_Raise _ e') in H by reflexivity; discriminate].
  unfold batch_update, batch_set in H.
  destruct (doc_exists db (LevelRef gm lvl)).
  - rewrite batch_add_run in H. injection H as <-. simpl.
    exists ms1. split; [exact Hp1|]. split; [exact Hc1|lia].
  - rewrite bind_batch_add, print_run in H. injection H as <-. simpl.
    exists (ms1 ++ [CreatingLevel lvl gm]). rewrite Hp1, app_assoc.
    split; [reflexivity|].
    split; [apply Forall_app; split; [exact Hc1|repeat constructor]|].
    rewrite length_app. simpl. lia.
Qed.

Lemma structure_loop_printed (db : store) (structure_csv : list row)
    (w w' : world) :
  structure_loop db structure_csv w = (Ok tt, w') ->
  exists ms, printed w' = printed w ++ ms
             /\ Forall is_creating ms
             /\ length ms <= 2 * length structure_csv.
Proof.
  revert w. induction structure_csv as [|s rest IH]; intros w; simpl.
  - unfold ret. intros [= <-]. exists []. rewrite app_nil_r.
    split; [reflexivity|]. split; [constructor|simpl; lia].
  - unfold bind.
    destruct (structure_step db s w) as [[[]|e] w1] eqn:Hstep; [|discriminate].
    intros Hrest. apply IH in Hrest as (ms2 & Hp2 & Hc2 & Hl2).
    apply structure_step_printed in Hstep as (ms1 & Hp1 & Hc1 & Hl1).
    exists (ms1 ++ ms2). rewrite Hp2, Hp1, app_assoc.
    split; [reflexivity|]. split; [now apply Forall_app|].
    rewrite length_app. lia.
Qed.

Lemma run_finished_output (db : store) (now : Z)
    (games_csv structure_csv : list row) (db' : store) (file : csv_file)
    (w : world) :
  run auto_id db now games_csv structure_csv = (Ok (Some (db', file)), w) ->
  exists w_s w_g rows' updated,
    structure_loop db structure_csv start = (Ok tt, w_s)
    /\ game_loop auto_id (games db) games_csv w_s = (Ok (rows', updated), w_g)
    /\ printed w = printed w_g ++ [AllCommitted].
Proof.
  unfold run, upload_games_from_csv.
  destruct games_csv as [|g gs]; [discriminate|].
  destruct structure_csv as [|s ss]; [discriminate|].
  unfold bind at 1.
  destruct (structure_loop db (s :: ss) start) as [[[]|e] w_s] eqn:Hs;
    [|discriminate].
  unfold fetch_existing_games. unfold bind at 1.
  destruct (game_loop auto_id (games db) (g :: gs) w_s)
    as [[[rows' updated]|e] w_g] eqn:Hg; [|discriminate].
  unfold bind at 1, batch_commit.
  destruct (commit now (batch w_g) db) as [db1|] eqn:Hc; [|discriminate].
  rewrite bind_print. unfold bind, lift, write_csv. cbn [fst snd].
  destruct (forallb _ updated); [|discriminate].
  unfold ret. intros [= <- <- <-]. exists w_s, w_g, rows', updated.
  repeat split; auto.
Qed.

(** X19.  The output of a run that reaches its end: first the "Creating"
    lines of the structure pass, at most two per structure row; then one
    line for each row of the games file, in the order of the file, saying
    that the game was created, updated, unchanged, not found or that the row
    lacks a field; and last the line that reports the commit. *)
Theorem run_prints_one_line_per_games_row
    (db : store) (now : Z) (games_csv structure_csv : list row)
    (rows : list row) :
  written_rows (run auto_id db now games_csv structure_csv) = Some rows ->
  exists structure_lines game_lines,
    printed (snd (run auto_id db now games_csv structure_csv))
    = structure_lines ++ game_lines ++ [AllCommitted]
    /\ Forall is_creating structure_lines
    /\ length structure_lines <= 2 * length structure_csv
    /\ Forall2 line_of games_csv game_lines.
Proof.
  intros Hrun. apply written_run in Hrun as (db' & file & w & Hrun & _).
  rewrite Hrun. cbn [snd].
  apply run_finished_output in Hrun
    as (w_s & w_g & rows' & updated & Hs & Hg & ->).
  apply structure_loop_printed in Hs as (ms_s & Hps & Hcs & Hls).
  apply game_loop_printed in Hg as (ms_g & Hpg & Hlines).
  exists ms_s, ms_g. rewrite Hpg, Hps. simpl. rewrite <- app_assoc.
  auto.
Qed.

End Output.

Lemma output_witness :
  exists structure_lines game_lines,
    printed (snd (run example_auto_id example_db 7 [new_row; renamed_row]
                    example_structure))
    = structure_lines ++ game_lines ++ [AllCommitted]
    /\ Forall is_creating structure_lines
    /\ length structure_lines <= 2 * length example_structure
    /\ Forall2 line_of [new_row; renamed_row] game_lines.
Proof.
  apply (run_prints_one_line_per_games_row example_auto_id example_db 7
           [new_row; renamed_row] example_structure
           [<["id" := "#"]> new_row; renamed_row]).
  reflexivity.
Defined.
